(** * aatoolbox: raster post-processing and GloFAS ensemble assembly

    A shallow embedding of [src/aatoolbox/utils/raster.py] (the [aat]
    accessor: time-dimension default, calendar correction, coordinate
    inversion, longitude-range conversion, zonal statistics) and of
    [_read_in_ensemble_and_perturbed_datasets] in
    [src/aatoolbox/datasources/glofas/forecast.py].

    xarray objects are mutable and shared, so they live in a store and the
    accessor methods are computations in a state-and-exception monad: a
    method either returns a value or raises, and in both cases the store
    and the log keep what happened before. *)

From Stdlib Require Import Floats.PrimFloat Floats.SpecFloat Floats.FloatOps.
From stdpp Require Import gmap strings list sorting pretty.
From Stdlib Require Import ZArith Lia.

Open Scope Z_scope.

(** ** Exceptions, log records, store *)

Inductive Exn :=
  | DimensionError
  | MissingCRS
  | NoDataInBounds
  | ValueError
  | IndexError
  | AttributeError
  | TypeError.

Global Instance Exn_eq_dec : EqDecision Exn.
Proof. solve_decision. Defined.

Inductive Level := INFO | WARNING.

Record LogRecord := { level : Level; message : string }.

Inductive Res (A : Type) :=
  | Ok (a : A)
  | Raise (e : Exn).
Arguments Ok {A} a.
Arguments Raise {A} e.

Global Instance Res_ret : MRet Res := λ A a, Ok a.

Global Instance Res_bind : MBind Res := λ A B f m,
  match m with
  | Ok a => f a
  | Raise e => Raise e
  end.

(** A location names one xarray object; two variables holding the same
    location are aliases of one object. *)
Definition loc := nat.

(** ** The state-and-exception monad

    [run : St → Res A * St]. A [Raise] skips the rest of the
    computation; the state reached so far stays, as in Python. *)

Definition M (St A : Type) : Type := St → Res A * St.

Global Instance M_ret {St} : MRet (M St) := λ A a st, (Ok a, st).

Global Instance M_bind {St} : MBind (M St) := λ A B f m st,
  match m st with
  | (Ok a, st') => f a st'
  | (Raise e, st') => (Raise e, st')
  end.

Definition raise {St A} (e : Exn) : M St A := λ st, (Raise e, st).

(** [try: m except e: handler] for one exception class. *)
Definition try_except {St A} (m : M St A) (e : Exn) (handler : M St A) : M St A :=
  λ st,
    match m st with
    | (Raise e', st') => if bool_decide (e' = e) then handler st' else (Raise e', st')
    | r => r
    end.

(** A pure library call that may raise. *)
Definition lift {St A} (r : Res A) : M St A := λ st, (r, st).

(** Python's [sub in s] on strings. *)
Fixpoint str_startswith (s sub : string) {struct sub} : bool :=
  match sub, s with
  | EmptyString, _ => true
  | String a sub', String b s' => if Ascii.eqb a b then str_startswith s' sub' else false
  | String _ _, EmptyString => false
  end.

Fixpoint str_in (sub s : string) : bool :=
  str_startswith s sub ||
  match s with
  | EmptyString => false
  | String _ s' => str_in sub s'
  end.

(** Two's-complement wrap-around of 64-bit integer arithmetic. *)
Definition int64_min : Z := - 2 ^ 63.
Definition int64_max : Z := 2 ^ 63 - 1.

Definition wrap64 (z : Z) : Z := (z + 2 ^ 63) `mod` 2 ^ 64 - 2 ^ 63.

(** [np.sort] on integer labels. *)
Definition np_sort (l : list Z) : list Z := merge_sort Z.le l.

(** [Index.min()] and [Index.max()]; pandas answers NaN on an empty index,
    which compares false with everything. *)
Definition index_min (l : list Z) : option Z :=
  match l with
  | [] => None
  | v :: l' => Some (foldl Z.min v l')
  end.

Definition index_max (l : list Z) : option Z :=
  match l with
  | [] => None
  | v :: l' => Some (foldl Z.max v l')
  end.

Definition gt_nan (o : option Z) (b : Z) : bool :=
  match o with Some v => bool_decide (b < v) | None => false end.

Definition lt_nan (o : option Z) (b : Z) : bool :=
  match o with Some v => bool_decide (v < b) | None => false end.

Module Raster.
Section Model.
Context {V : Type}.

(** *** Data model

    A [DataArray] with its two spatial dimensions already identified
    ([x_dim], [y_dim]) and their indexes [lon] and [lat]; the remaining
    dimensions with their index labels in [extra_dims].  [planes] holds
    the samples as [combination of non-spatial labels][row along
    y_dim][column along x_dim]; a cell is [Some v] or [None] for the
    missing-value marker NaN.  [coord_attrs] are the [attrs] dictionaries
    of the coordinate variables, by coordinate name.

    Index labels are 64-bit integers (numpy's default integer type, the
    one of every example in the docstrings of [raster.py]): a label is a
    [Z] within [int64_min, int64_max], and arithmetic on labels wraps
    around ([wrap64]).  Inversion and reindexing only compare labels;
    [change_longitude_range] computes with them, and for labels of type
    float64 that computation is given separately in [Float64]. *)
Record DataArray := {
  x_dim : string;
  y_dim : string;
  extra_dims : list (string * list Z);
  lon : list Z;
  lat : list Z;
  coord_attrs : gmap string (gmap string string);
  planes : list (list (list (option V)));
  crs : option string
}.

Record World := { heap : gmap loc DataArray; log : list LogRecord }.

(** The [aat] accessor object: the wrapped object and the time dimension. *)
Record Aat := { _obj : loc; _t_dim : option string }.

Definition dims (r : DataArray) : list string :=
  (extra_dims r).*1 ++ [y_dim r; x_dim r].

(** *** Store primitives

    A location outside the store is not a Python value; the primitives
    raise on it so that they stay total. *)

Definition deref (l : loc) : M World DataArray := λ w,
  match heap w !! l with
  | Some r => (Ok r, w)
  | None => (Raise AttributeError, w)
  end.

Definition alloc (r : DataArray) : M World loc := λ w,
  let l := fresh (dom (heap w)) in
  (Ok l, {| heap := <[l := r]> (heap w); log := log w |}).

Definition update (l : loc) (f : DataArray → DataArray) : M World unit := λ w,
  match heap w !! l with
  | Some r => (Ok (), {| heap := <[l := f r]> (heap w); log := log w |})
  | None => (Raise AttributeError, w)
  end.

Definition logger (lv : Level) (msg : string) : M World unit := λ w,
  (Ok (), {| heap := heap w; log := log w ++ [{| level := lv; message := msg |}] |}).

(** *** AatRasterMixin.__init__: the default time dimension *)

Definition default_t_dim (ds : list string) : option string :=
  foldl (λ t_dim t, if bool_decide (t ∈ ds) then Some t else t_dim)
        None ["t"; "T"; "time"]%string.

Definition __init__ (xarray_obj : loc) : M World Aat :=
  r ← deref xarray_obj;
  mret {| _obj := xarray_obj; _t_dim := default_t_dim (dims r) |}.

(** The [t_dim] property. *)
Definition t_dim (self : Aat) : M World string :=
  match _t_dim self with
  | None => raise DimensionError
  | Some t => mret t
  end.

(** rioxarray's [_get_obj]: the object itself, or a deep copy of it. *)
Definition _get_obj (self : Aat) (inplace : bool) : M World loc :=
  if inplace then mret (_obj self)
  else r ← deref (_obj self); alloc r.

(** *** set_time_dim

    [data_obj.aat] is the accessor object cached on [data_obj]: the
    receiver itself in in-place mode, a newly created one on the copy
    otherwise.  The computation returns the state of that accessor after
    the assignment together with the value the method returns. *)
Definition set_time_dim (self : Aat) (t_dim : string) (inplace : bool)
    : M World (Aat * option loc) :=
  data_obj ← _get_obj self inplace;
  r ← deref data_obj;
  if bool_decide (t_dim ∈ dims r) then
    aat ← (if inplace then mret self else __init__ data_obj);
    let aat := {| _obj := _obj aat; _t_dim := Some t_dim |} in
    mret (aat, if inplace then None else Some data_obj)
  else raise DimensionError.

(** *** correct_calendar *)

(** [data_obj[name].attrs]: the dictionary of the coordinate variable, or
    that of a throw-away variable when the dimension has no coordinate. *)
Definition get_attrs (data_obj : loc) (name : string) : M World (gmap string string) :=
  r ← deref data_obj;
  mret (default ∅ (coord_attrs r !! name)).

Definition with_attr (name key val : string) (r : DataArray) : DataArray :=
  {| x_dim := x_dim r; y_dim := y_dim r; extra_dims := extra_dims r;
     lon := lon r; lat := lat r;
     coord_attrs := alter (insert key val) name (coord_attrs r);
     planes := planes r; crs := crs r |}.

(** [data_obj[name].attrs[key] = val] *)
Definition set_attr (data_obj : loc) (name key val : string) : M World unit :=
  update data_obj (with_attr name key val).

Definition correct_calendar (self : Aat) (inplace : bool) : M World (option loc) :=
  data_obj ← _get_obj self inplace;
  t ← t_dim self;
  attrs ← get_attrs data_obj t;
  (if bool_decide (attrs !! "calendar"%string = Some "360"%string) then
     set_attr data_obj t "calendar" "360_day";;
     logger INFO "Calendar attribute changed from '360' to '360_day'."
   else if match attrs !! "units"%string with
           | Some units => str_in "months since" units
           | None => false
           end then
     set_attr data_obj t "calendar" "360_day";;
     logger INFO "Calendar attribute '360_day' added, equivalent of 'units' 'months since'."
   else
     logger INFO "No 'units' or 'calendar' attributes to correct.");;
  mret (if inplace then None else Some data_obj).

(** *** invert_coordinates *)

Inductive Axis := X | Y.

(** [data_obj.get_index(dim)] for a spatial dimension. *)
Definition get_index (r : DataArray) (a : Axis) : list Z :=
  match a with X => lon r | Y => lat r end.

(** [idx[0]] and [idx[-1]]; both raise on an empty index. *)
Definition first_label (idx : list Z) : Res Z :=
  match head idx with Some v => Ok v | None => Raise IndexError end.

Definition last_label (idx : list Z) : Res Z :=
  match last idx with Some v => Ok v | None => Raise IndexError end.

Definition _check_coords_inverted (self : Aat) : M World (bool * bool) :=
  data_obj ← _get_obj self false;
  r ← deref data_obj;
  let lat := get_index r Y in
  let lon := get_index r X in
  lon_first ← lift (first_label lon);
  lon_last ← lift (last_label lon);
  lat_first ← lift (first_label lat);
  lat_last ← lift (last_label lat);
  mret (bool_decide (lon_last < lon_first), bool_decide (lat_first < lat_last)).

(** Position of a label in an index (pandas [get_indexer], [None] for a
    label that is absent). *)
Fixpoint get_loc (idx : list Z) (v : Z) : option nat :=
  match idx with
  | [] => None
  | u :: idx' => if bool_decide (u = v) then Some 0%nat else S <$> get_loc idx' v
  end.

(** Gather along one axis by position; an absent label gives the fill. *)
Definition take {A} (fill : A) (positions : list (option nat)) (l : list A) : list A :=
  (λ p, match p with
        | Some i => default fill (l !! i)
        | None => fill
        end) <$> positions.

Definition reindex_axis (r : DataArray) (a : Axis) (labels : list Z) : Res DataArray :=
  let old := get_index r a in
  if bool_decide (labels = old) then Ok r
  else if bool_decide (NoDup old) then
    let positions := get_loc old <$> labels in
    Ok match a with
       | X => {| x_dim := x_dim r; y_dim := y_dim r; extra_dims := extra_dims r;
                 lon := labels; lat := lat r; coord_attrs := coord_attrs r;
                 planes := (λ plane : list (list (option V)),
                             take None positions <$> plane) <$> planes r;
                 crs := crs r |}
       | Y => {| x_dim := x_dim r; y_dim := y_dim r; extra_dims := extra_dims r;
                 lon := lon r; lat := labels; coord_attrs := coord_attrs r;
                 planes := take (replicate (length (lon r)) None) positions <$> planes r;
                 crs := crs r |}
       end
  else Raise ValueError.

Fixpoint reindex_all (r : DataArray) (indexers : list (Axis * list Z)) : Res DataArray :=
  match indexers with
  | [] => Ok r
  | (a, labels) :: rest =>
      match reindex_axis r a labels with
      | Ok r' => reindex_all r' rest
      | Raise e => Raise e
      end
  end.

(** [data_obj.reindex(indexers)]: a new object, the receiver is not
    touched.  Values are looked up by label; an index with repeated
    labels cannot be reindexed. *)
Definition reindex (data_obj : loc) (indexers : list (Axis * list Z)) : M World loc :=
  r ← deref data_obj;
  r' ← lift (reindex_all r indexers);
  alloc r'.

Definition invert_coordinates (self : Aat) (inplace : bool) : M World (option loc) :=
  data_obj ← _get_obj self inplace;
  '(lon_inv, lat_inv) ← _check_coords_inverted self;
  let inv_dict := [] in
  inv_dict ←
    (if lon_inv : bool then
       logger INFO "Longitude was inverted, reversing coordinates.";;
       r ← deref data_obj;
       mret (inv_dict ++ [(X, reverse (get_index r X))])
     else mret inv_dict);
  inv_dict ←
    (if lat_inv : bool then
       logger INFO "Latitude was inverted, reversing coordinates.";;
       r ← deref data_obj;
       mret (inv_dict ++ [(Y, reverse (get_index r Y))])
     else mret inv_dict);
  data_obj ←
    (match inv_dict with
     | _ :: _ => reindex data_obj inv_dict
     | [] => mret data_obj
     end);
  mret (if inplace then None else Some data_obj).

(** *** change_longitude_range *)

Definition with_lon (values : list Z) (r : DataArray) : DataArray :=
  {| x_dim := x_dim r; y_dim := y_dim r; extra_dims := extra_dims r;
     lon := values; lat := lat r;
     coord_attrs := delete (x_dim r) (coord_attrs r);
     planes := planes r; crs := crs r |}.

(** [data_obj[self.x_dim] = values]: the index of the dimension is
    replaced (by a fresh variable, without attrs); the samples stay where
    they are.  The sizes must agree. *)
Definition set_x_index (data_obj : loc) (values : list Z) : M World unit :=
  r ← deref data_obj;
  if bool_decide (length values = length (lon r)) then update data_obj (with_lon values)
  else raise ValueError.

(** [((lon + 180) % 360) - 180] on one int64 label: the sum wraps, [%]
    takes the sign of the divisor. *)
Definition to_180 (v : Z) : Z := wrap64 (wrap64 (v + 180) `mod` 360 - 180).

(** [np.where(lon < 0, lon + 360, lon)] on one int64 label. *)
Definition to_360 (v : Z) : Z := if bool_decide (v < 0) then wrap64 (v + 360) else v.

Definition change_longitude_range (self : Aat) (inplace : bool) : M World (option loc) :=
  data_obj ← _get_obj self inplace;
  r ← deref data_obj;
  let lon_min := index_min (get_index r X) in
  let lon_max := index_max (get_index r X) in
  (if gt_nan lon_max 180 then
     logger INFO "Converting longitude from 0 360 to -180 to 180.";;
     set_x_index data_obj (np_sort (to_180 <$> get_index r X))
   else if lt_nan lon_min 0 then
     logger INFO "Converting longitude from -180 to 180 to 0 to 360.";;
     set_x_index data_obj (np_sort (to_360 <$> get_index r X))
   else
     logger INFO "Indeterminate longitude range and no need to convert.");;
  mret (if inplace then None else Some data_obj).

(** Label-based selection, [da.sel({y_dim: y, x_dim: x})] in the [k]-th
    combination of the other dimensions: [None] when a label is not in
    the index. *)
Definition sel (r : DataArray) (k : nat) (y x : Z) : option (option V) :=
  i ← get_loc (lat r) y;
  j ← get_loc (lon r) x;
  plane ← planes r !! k;
  row ← plane !! i;
  row !! j.

(** *** compute_raster_statistics

    A sample [v : V] is a float other than NaN; NaN is [None].  The
    floating-point arithmetic of numpy is kept abstract: [np_reduce] is
    what the nan-aware sum, mean, std, min and max give on the list of
    the samples that are not NaN, and [np_quantile] the interpolated
    percentile; each may itself come out as NaN (the sum of inf and
    -inf).  The polygon clip of rioxarray is a parameter as well; it
    returns the clipped array or raises.

    The arrays are those whose coordinates are their dimension
    coordinates and the scalar coordinate ["spatial_ref"] that rioxarray
    writes with the CRS. *)

Context (np_reduce : string → list V → option V).
Context (np_quantile : Z → list V → option V).
Context {Geom : Type}.
Context (rio_clip : DataArray → list Geom → bool → Res DataArray).

(** A cell of the resulting table. *)
Inductive Entry :=
  | NaN
  | Num (v : V)
  | Count (n : nat)
  | Label (z : Z)
  | Feature (s : string).

(** The keyword arguments a reduction is called with. *)
Record Kwargs := { skipna : option bool; min_count : option nat }.

(** [getattr(da, stat)(dim=[x_dim, y_dim], **kwargs)] for a name other
    than the six statistics modelled below: the values of another
    reduction of [DataArray] over the two spatial dimensions (median,
    var, prod, ...), one per combination of the other labels, or the
    error of the call (AttributeError for a name that is no attribute of
    the array).  Nothing is assumed of it. *)
Context (xr_other : DataArray → string → Kwargs → Res (list Entry)).

Definition valid (cells : list (option V)) : list V := omap id cells.

Definition has_nan (cells : list (option V)) : bool :=
  bool_decide (length (valid cells) ≠ length cells).

(** A float result as a cell. *)
Definition num (o : option V) : Entry :=
  match o with Some v => Num v | None => NaN end.

(** The six default statistics on the cells of one window.  [skipna]
    defaults to true for floating-point samples; [count] takes no
    [skipna], and only [sum] takes [min_count]: with it, fewer than
    [min_count] valid cells give NaN. *)
Definition xr_reduce (stat : string) (kwargs : Kwargs)
    (cells : list (option V)) : Res Entry :=
  let skip := default true (skipna kwargs) in
  if bool_decide (stat = "count"%string) then
    match skipna kwargs, min_count kwargs with
    | None, None => Ok (Count (length (valid cells)))
    | _, _ => Raise TypeError
    end
  else if bool_decide (stat = "sum"%string) then
    if skip then
      match min_count kwargs with
      | Some k =>
          if bool_decide (length (valid cells) < k)%nat then Ok NaN
          else Ok (num (np_reduce "sum" (valid cells)))
      | None => Ok (num (np_reduce "sum" (valid cells)))
      end
    else if has_nan cells then Ok NaN
    else Ok (num (np_reduce "sum" (valid cells)))
  else if bool_decide (stat ∈ ["mean"; "std"; "min"; "max"]%string) then
    match min_count kwargs with
    | Some _ => Raise TypeError
    | None =>
        if negb skip && has_nan cells then Ok NaN
        else match valid cells with
             | [] => Ok NaN
             | vs => Ok (num (np_reduce stat vs))
             end
    end
  else Raise AttributeError.

(** [da.quantile(quant / 100, dim=[x_dim, y_dim])] on one window. *)
Definition xr_quantile (quant : Z) (cells : list (option V)) : Res Entry :=
  if bool_decide (0 ≤ quant ≤ 100) then
    match valid cells with
    | [] => Ok NaN
    | vs => Ok (num (np_quantile quant vs))
    end
  else Raise ValueError.

(** The combinations of labels of the non-spatial dimensions, row-major;
    a two-dimensional array has the single empty combination. *)
Fixpoint combinations (ds : list (string * list Z)) : list (list (string * Z)) :=
  match ds with
  | [] => [[]]
  | (d, labels) :: ds' =>
      l ← labels; c ← combinations ds'; [(d, l) :: c]
  end.

(** The cells of the [k]-th combination, over both spatial dimensions. *)
Definition window (r : DataArray) (k : nat) : list (option V) :=
  concat (default [] (planes r !! k)).

(** An array reduced over the spatial dimensions: its name, the
    dimensions that remain, and one value per combination. *)
Record Reduced := {
  name : string;
  rdims : list (string * list Z);
  rvalues : list Entry
}.

Definition reduce_spatial (da_clip : DataArray) (new_name : string)
    (f : list (option V) → Res Entry) : Res Reduced :=
  vals ← mapM (λ k, f (window da_clip k))
              (seq 0 (length (combinations (extra_dims da_clip))));
  mret {| name := new_name; rdims := extra_dims da_clip; rvalues := vals |}.

(** [getattr(da_clip, stat)(dim=[x_dim, y_dim], **kwargs).rename(new_name)]. *)
Definition getattr_reduce (da_clip : DataArray) (stat : string) (kwargs : Kwargs)
    (new_name : string) : Res Reduced :=
  if bool_decide (stat ∈ ["mean"; "std"; "min"; "max"; "sum"; "count"]%string) then
    reduce_spatial da_clip new_name (xr_reduce stat kwargs)
  else
    vals ← xr_other da_clip stat kwargs;
    mret {| name := new_name; rdims := extra_dims da_clip; rvalues := vals |}.

Definition stat_kwargs (stat : string) : Kwargs :=
  let kwargs := {| skipna := None; min_count := None |} in
  let kwargs :=
    if bool_decide (stat ≠ "count"%string)
    then {| skipna := Some true; min_count := min_count kwargs |}
    else kwargs in
  let kwargs :=
    if bool_decide (stat = "sum"%string)
    then {| skipna := skipna kwargs; min_count := Some 1%nat |}
    else kwargs in
  kwargs.

(** A table: rows in order, each a dictionary from column name to cell. *)
Definition columns_of (pairs : list (string * Entry)) : gmap string Entry :=
  foldl (λ row p, <[p.1 := p.2]> row) ∅ pairs.

(** The frame of a two-dimensional input: one row of scalars. *)
Definition scalar_frame (grid_stat_all : list Reduced) : list (gmap string Entry) :=
  [columns_of ((λ da_stat, (name da_stat, default NaN (head (rvalues da_stat))))
                 <$> grid_stat_all)].

(** The names of the coordinates of a reduced array. *)
Definition coords (da_stat : Reduced) : list string :=
  (rdims da_stat).*1 ++ ["spatial_ref"%string].

(** [xr.merge(...).to_dataframe().drop("spatial_ref", axis=1).reset_index()]:
    one row per combination, the labels first.  [xr.merge] turns each
    array into a dataset, which raises ValueError for an array named as
    one of its coordinates.  Arrays of one name are results of one
    request, so they are equal and the merge keeps one. *)
Definition merged_frame (first : Reduced) (grid_stat_all : list Reduced)
    : Res (list (gmap string Entry)) :=
  if bool_decide (Exists (λ da_stat, name da_stat ∈ coords da_stat) grid_stat_all)
  then Raise ValueError
  else
    Ok (imap (λ k combo,
                columns_of (((λ p : string * Z, (p.1, Label p.2)) <$> combo) ++
                            ((λ da_stat, (name da_stat, default NaN (rvalues da_stat !! k)))
                               <$> grid_stat_all)))
             (combinations (rdims first))).

(** [pd.concat]: refuses an empty list of frames. *)
Definition pd_concat {A} (df_list : list (list A)) : Res (list A) :=
  match df_list with
  | [] => Raise ValueError
  | _ => Ok (concat df_list)
  end.

(** [Series.unique()]: distinct values in order of first appearance. *)
Definition unique (l : list string) : list string :=
  foldl (λ seen x, if bool_decide (x ∈ seen) then seen else seen ++ [x]) [] l.

(** The body of the loop for one feature: [None] when the feature is
    skipped, otherwise its block of rows. *)
Definition feature_frame (data_obj : DataArray) (gdf : list (string * Geom))
    (feature_col : string) (stats_list : list string)
    (percentile_list : option (list Z)) (all_touched : bool)
    (feature : string) : M World (option (list (gmap string Entry))) :=
  let gdf_adm := filter (λ row, row.1 = feature) gdf in
  let da_clip := data_obj in
  clipped ←
    try_except
      (da_clip ← lift (rio_clip da_clip (gdf_adm.*2) all_touched);
       mret (Some da_clip))
      NoDataInBounds
      (logger WARNING ("No overlapping raster cells for " +:+ feature +:+ ", skipping.");;
       mret None);
  match clipped with
  | None => mret None
  | Some da_clip =>
      grid_stat_all ← lift (mapM (λ stat,
          getattr_reduce da_clip stat (stat_kwargs stat)
                         (stat +:+ "_" +:+ feature_col)) stats_list);
      grid_stat_all ←
        match percentile_list with
        | Some percentiles =>
            grid_quant ← lift (mapM (λ quant,
                reduce_spatial da_clip (pretty quant +:+ "quant_" +:+ feature_col)
                               (xr_quantile quant)) percentiles);
            mret (grid_stat_all ++ grid_quant)
        | None => mret grid_stat_all
        end;
      first ← lift (match head grid_stat_all with
                    | Some g => Ok g
                    | None => Raise IndexError
                    end);
      df_adm ←
        lift (match rdims first with
              | [] => Ok (scalar_frame grid_stat_all)
              | _ => merged_frame first grid_stat_all
              end);
      let df_adm := insert feature_col (Feature feature) <$> df_adm in
      mret (Some df_adm)
  end.

Fixpoint for_features (body : string → M World (option (list (gmap string Entry))))
    (features : list string) (df_list : list (list (gmap string Entry)))
    : M World (list (list (gmap string Entry))) :=
  match features with
  | [] => mret df_list
  | feature :: rest =>
      block ← body feature;
      for_features body rest
        (match block with
         | Some df_adm => df_list ++ [df_adm]
         | None => df_list
         end)
  end.

Definition compute_raster_statistics (self : Aat) (gdf : list (string * Geom))
    (feature_col : string) (stats_list : option (list string))
    (percentile_list : option (list Z)) (all_touched : bool)
    : M World (list (gmap string Entry)) :=
  data_obj ← _get_obj self false;
  r ← deref data_obj;
  match crs r with
  | None => raise MissingCRS
  | Some _ =>
      let df_list := [] in
      let stats_list :=
        match stats_list with
        | None => ["mean"; "std"; "min"; "max"; "sum"; "count"]%string
        | Some l => l
        end in
      df_list ← for_features
                  (feature_frame r gdf feature_col stats_list percentile_list all_touched)
                  (unique (gdf.*1)) df_list;
      lift (pd_concat df_list)
  end.

End Model.
End Raster.

(** ** Longitude labels of type float64

    The label computation of [change_longitude_range] (lines 317 to 336 of
    [raster.py]) on a longitude index that holds float64 values, in IEEE
    754 binary64 arithmetic (the primitive [float]): every sum and
    difference is rounded to the nearest float, so the two conversions
    are not inverse to each other. *)
Module Float64.

(** C's [fmod(a, 360)]: the remainder of the division truncated towards
    zero; it is a float, no rounding takes place, and it has the sign of
    [a].  Computed on the mantissa and the exponent of [a]. *)
Definition fmod360 (a : float) : float :=
  match Prim2SF a with
  | S754_finite s m e =>
      let r :=
        if (0 <=? e)%Z then
          Z.ldexp (of_uint63 (Uint63Axioms.of_Z ((Z.pos m * 2 ^ e) `mod` 360))) 0
        else
          Z.ldexp (of_uint63 (Uint63Axioms.of_Z (Z.pos m `mod` (360 * 2 ^ (- e))))) e in
      if s then PrimFloat.opp r else r
  | S754_zero _ => a
  | _ => nan
  end.

(** numpy's [a % 360] on floats ([np.remainder]): [fmod], and a negative
    remainder is moved up by one rounded addition of 360. *)
Definition remainder360 (a : float) : float :=
  let m := fmod360 a in
  if PrimFloat.eqb m 0 then 0%float
  else if PrimFloat.ltb m 0 then PrimFloat.add m 360 else m.

(** [((lon + 180) % 360) - 180] on one float64 label. *)
Definition to_180 (v : float) : float :=
  PrimFloat.sub (remainder360 (PrimFloat.add v 180)) 180.

(** [np.where(lon < 0, lon + 360, lon)] on one float64 label. *)
Definition to_360 (v : float) : float :=
  if PrimFloat.ltb v 0 then PrimFloat.add v 360 else v.

Definition fmax (a b : float) : float := if PrimFloat.ltb a b then b else a.
Definition fmin (a b : float) : float := if PrimFloat.ltb b a then b else a.

Definition fle (a b : float) : Prop := PrimFloat.leb a b = true.

Global Instance fle_dec : RelDecision fle.
Proof. intros a b. unfold fle. apply _. Defined.

(** [np.sort] on float labels (none of them NaN). *)
Definition np_sort (l : list float) : list float := merge_sort fle l.

(** The new longitude labels: the decision rule and the two conversions
    of [change_longitude_range]. *)
Definition change_longitude_labels (lon : list float) : list float :=
  match lon with
  | [] => []
  | v :: rest =>
      let lon_min := foldl fmin v rest in
      let lon_max := foldl fmax v rest in
      if PrimFloat.ltb 180 lon_max then np_sort (to_180 <$> lon)
      else if PrimFloat.ltb lon_min 0 then np_sort (to_360 <$> lon)
      else lon
  end.

End Float64.

Module Forecast.
Section Model.
Context {S : Type}.

(** *** Data model

    A dataset read from one GRIB file, seen along the ensemble-member
    dimension ["number"] only: [S] is one realization (the samples of
    the data variables over all other dimensions).  cfgrib makes
    ["number"] a dimension when the messages of a data type carry two or
    more member numbers and a scalar coordinate when they carry one; for
    a data type without message it returns the empty dataset, which has
    no data variable and no coordinate, only attributes.  The datasets
    of one file that are not empty hold the same data variables over the
    same other coordinates, so those are not represented. *)
Inductive NumberCoord :=
  | Scalar (value : option Z)       (* not a dimension; a scalar coordinate, or none *)
  | Dim (index : option (list Z)).  (* a dimension, with its index or without coordinate *)

Record Dataset := {
  number : NumberCoord;
  realizations : list S;
  attrs : gmap string string
}.

(** What cfgrib finds in the file for each [dataType] key. *)
Record GribFile := { cf : Dataset; pf : Dataset }.

Definition load_dataset (filepath : GribFile) (data_type : string) : Res Dataset :=
  if bool_decide (data_type = "cf"%string) then Ok (cf filepath)
  else if bool_decide (data_type = "pf"%string) then Ok (pf filepath)
  else Ok {| number := Scalar None; realizations := []; attrs := ∅ |}.

(** [ds.expand_dims(dim="number")]: a new dimension of length one; a
    scalar coordinate of that name becomes its index. *)
Definition expand_dims (ds : Dataset) : Res Dataset :=
  match number ds with
  | Dim _ => Raise ValueError
  | Scalar value =>
      Ok {| number := Dim ((λ v, [v]) <$> value);
            realizations := realizations ds;
            attrs := attrs ds |}
  end.

(** *** xr.combine_by_coords along ["number"] *)

Fixpoint is_monotonic (le : Z → Z → bool) (l : list Z) : bool :=
  match l with
  | x :: (y :: _) as l' => le x y && is_monotonic le l'
  | _ => true
  end.

Definition is_monotonic_increasing : list Z → bool := is_monotonic Z.leb.
Definition is_monotonic_decreasing : list Z → bool := is_monotonic Z.geb.

Definition number_index (ds : Dataset) : option (list Z) :=
  match number ds with
  | Dim (Some index) => Some index
  | _ => None
  end.

(** [Series.rank(method="dense")], counted from zero: the number of
    distinct values that come strictly before [v]. *)
Definition dense_rank (ascending : bool) (values : list Z) (v : Z) : nat :=
  length (remove_dups
            (if ascending then filter (λ u, u < v) values
             else filter (λ u, v < u) values)).

(** [_infer_concat_order_from_coords]: the position of each dataset along
    ["number"], or no position when the dimension is left alone. *)
Definition infer_concat_order (datasets : list Dataset) : Res (option (list nat)) :=
  match datasets with
  | [] => Ok None
  | ds0 :: _ =>
      match number ds0 with
      | Dim (Some index0) =>
          indexes ← mapM (λ ds, match number_index ds with
                                | Some index => Ok index
                                | None => Raise ValueError
                                end) datasets;
          if bool_decide (Forall (λ index, index = index0) indexes) then Ok None
          else
            ascending ←
              (if forallb is_monotonic_increasing indexes then Ok true
               else if forallb is_monotonic_decreasing indexes then Ok false
               else Raise ValueError);
            first_items ← mapM (λ index, match head index with
                                         | Some v => Ok v
                                         | None => Raise ValueError
                                         end) indexes;
            Ok (Some (dense_rank ascending first_items <$> first_items))
      | _ => Ok None
      end
  end.

(** [combine_attrs="drop_conflicts"]: a key is kept unless two datasets
    give it different values. *)
Definition merge_attrs_step (acc : gmap string string * gset string)
    (a : gmap string string) : gmap string string * gset string :=
  let result := acc.1 ∪ filter (λ kv, kv.1 ∉ acc.2) a in
  let result :=
    filter (λ kv, a !! kv.1 = None ∨ a !! kv.1 = Some kv.2) result in
  (result, acc.2 ∪ (dom a ∖ dom result)).

Definition merge_attrs (l : list (gmap string string)) : gmap string string :=
  (foldl merge_attrs_step (∅, ∅) l).1.

(** [xr.concat] of the tiles along ["number"]. *)
Definition concat_number (tiles : list Dataset) : Dataset :=
  {| number := Dim (Some (concat (omap number_index tiles)));
     realizations := concat (realizations <$> tiles);
     attrs := merge_attrs (attrs <$> tiles) |}.

(** [_combine_single_variable_hypercube]: the datasets of one group
    placed along ["number"] by their labels and concatenated. *)
Definition _combine_single_variable_hypercube (datasets : list Dataset) : Res Dataset :=
  order ← infer_concat_order datasets;
  match order with
  | None =>
      match datasets with
      | [ds] => Ok ds
      | _ => Raise ValueError
      end
  | Some positions =>
      (* combined_ids = dict(zip(tile_ids, datasets)): a later dataset
         with the same position replaces an earlier one *)
      let combined_ids :=
        omap (λ k, last (filter (λ p, p.1 = k) (zip positions datasets)))
             (seq 0 (length datasets)) in
      let concatenated := concat_number (combined_ids.*2) in
      match number_index concatenated with
      | Some index =>
          if is_monotonic_increasing index || is_monotonic_decreasing index
          then Ok concatenated
          else Raise ValueError
      | None => Raise ValueError
      end
  end.

(** [vars_as_keys]: whether the dataset holds data variables.  Only the
    empty dataset, with neither a member coordinate nor samples, holds
    none. *)
Definition has_data_vars (ds : Dataset) : bool :=
  match number ds, realizations ds with
  | Scalar None, [] | Dim None, [] => false
  | _, _ => true
  end.

(** [xr.merge] of the combined groups: the variables and coordinates of
    the group that holds data, the attributes of all groups without
    conflicts. *)
Definition merge (without_vars with_vars : option Dataset) : Dataset :=
  {| number := from_option number (Scalar None) with_vars;
     realizations := from_option realizations [] with_vars;
     attrs := merge_attrs (attrs <$> (option_list without_vars ++ option_list with_vars)) |}.

(** [xr.combine_by_coords(..., combine_attrs="drop_conflicts")]: the
    datasets are sorted and grouped by their data variables, the ones
    without data variables first; every group is combined into one
    hypercube, and the hypercubes are merged. *)
Definition combine_by_coords (datasets : list Dataset) : Res Dataset :=
  let without_vars := filter (λ ds, has_data_vars ds = false) datasets in
  let with_vars := filter (λ ds, has_data_vars ds = true) datasets in
  without_vars ←
    match without_vars with
    | [] => Ok None
    | _ => ds ← _combine_single_variable_hypercube without_vars; mret (Some ds)
    end;
  with_vars ←
    match with_vars with
    | [] => Ok None
    | _ => ds ← _combine_single_variable_hypercube with_vars; mret (Some ds)
    end;
  Ok (merge without_vars with_vars).

Definition _read_in_ensemble_and_perturbed_datasets (filepath : GribFile) : Res Dataset :=
  ds_list ←
    foldl (λ acc data_type,
             ds_list ← acc;
             ds ← load_dataset filepath data_type;
             ds ← (if bool_decide (data_type = "cf"%string) then expand_dims ds else Ok ds);
             mret (ds_list ++ [ds]))
          (Ok []) ["cf"; "pf"]%string;
  combine_by_coords ds_list.

End Model.
End Forecast.

Import Raster.

(** ** Vocabulary of the statements

    Predicates and summary functions used to state what the operations
    do; none of them is part of the program. *)

Section Vocabulary.
Context {V : Type}.
Implicit Types (w : @World V) (r : @DataArray V) (self : Aat).

(** The array invariant: every plane has one row per latitude label and
    every row one cell per longitude label. *)
Definition well_shaped r : Prop :=
  Forall (λ plane : list (list (option V)),
            length plane = length (lat r) ∧
            Forall (λ row, length row = length (lon r)) plane)
         (planes r).

(** The x axis reversed, every row with it. *)
Definition flip_x r : DataArray :=
  {| x_dim := x_dim r; y_dim := y_dim r; extra_dims := extra_dims r;
     lon := reverse (lon r); lat := lat r; coord_attrs := coord_attrs r;
     planes := (λ plane : list (list (option V)), reverse <$> plane) <$> planes r;
     crs := crs r |}.

(** The y axis reversed, the rows of every plane with it. *)
Definition flip_y r : DataArray :=
  {| x_dim := x_dim r; y_dim := y_dim r; extra_dims := extra_dims r;
     lon := lon r; lat := reverse (lat r); coord_attrs := coord_attrs r;
     planes := reverse <$> planes r;
     crs := crs r |}.

(** Longitude is inverted when its first label exceeds its last. *)
Definition lon_inverted r : bool :=
  match head (lon r), last (lon r) with
  | Some first, Some final => bool_decide (final < first)
  | _, _ => false
  end.

(** Latitude is inverted when its first label is below its last. *)
Definition lat_inverted r : bool :=
  match head (lat r), last (lat r) with
  | Some first, Some final => bool_decide (first < final)
  | _, _ => false
  end.

(** Canonical order, as detected on the first and last label of each axis:
    latitude descending, longitude ascending. *)
Definition canonical r : Prop := lon_inverted r = false ∧ lat_inverted r = false.

(** A regular grid: well shaped, both axes non-empty, no label twice on
    an axis. *)
Definition regular r : Prop :=
  well_shaped r ∧ lon r ≠ [] ∧ lat r ≠ [] ∧ NoDup (lon r) ∧ NoDup (lat r).

(** Each inverted axis reversed. *)
Definition oriented r : DataArray :=
  let r := if lon_inverted r then flip_x r else r in
  if lat_inverted r then flip_y r else r.

(** Computations that only read the store or add new objects to it. *)
Definition preserving {A} (m : M (@World V) A) : Prop :=
  ∀ w res w', m w = (res, w') → heap w ⊆ heap w'.

(** What one call of [change_longitude_range] leaves in the object it
    works on. *)
Definition converted r : DataArray :=
  if gt_nan (index_max (lon r)) 180 then with_lon (np_sort (to_180 <$> lon r)) r
  else if lt_nan (index_min (lon r)) 0 then with_lon (np_sort (to_360 <$> lon r)) r
  else r.

(** The starting states from which two calls of [change_longitude_range]
    come back: longitudes within [0, 360), or within [-180, 180) where a
    negative longitude, if there is one, is not only -180. *)
Definition toggles_back (l : list Z) : Prop :=
  Forall (λ v, 0 ≤ v < 360) l ∨
  (Forall (λ v, -180 ≤ v < 180) l ∧
   (Exists (λ v, v < 0) l → Exists (λ v, -180 < v < 0) l)).

(** The statistics computed when [stats_list] is not given. *)
Definition default_stats : list string :=
  ["mean"; "std"; "min"; "max"; "sum"; "count"]%string.

(** The warning logged for a feature without overlapping cells. *)
Definition skip_warning (feature : string) : LogRecord :=
  {| level := WARNING;
     message := "No overlapping raster cells for " +:+ feature +:+ ", skipping." |}.

(** A request the reductions accept: statistics among the default six,
    percentiles between 0 and 100, and at least one of either. *)
Definition supported_request (stats : list string) (percentiles : option (list Z)) : Prop :=
  Forall (λ stat, stat ∈ default_stats) stats ∧
  Forall (λ quant, 0 ≤ quant ≤ 100) (default [] percentiles) ∧
  (stats ≠ [] ∨ default [] percentiles ≠ []).

(** The rows of one feature: [n] of them, each carrying the feature. *)
Definition block_of (feature_col : string) (n : nat) (feature : string)
    (block : list (gmap string (@Entry V))) : Prop :=
  length block = n ∧
  Forall (λ row, row !! feature_col = Some (Feature feature)) block.

(** What [correct_calendar] leaves in the object it works on. *)
Definition calendar_corrected (t : string) r : DataArray :=
  let attrs := default ∅ (coord_attrs r !! t) in
  if bool_decide (attrs !! "calendar"%string = Some "360"%string) then
    with_attr t "calendar" "360_day" r
  else if match attrs !! "units"%string with
          | Some units => str_in "months since" units
          | None => false
          end then
    with_attr t "calendar" "360_day" r
  else r.

Context {Geom : Type}.
Context (rio_clip : @DataArray V → list Geom → bool → Res (@DataArray V)).

(** The clip of the array to the geometries of one feature. *)
Definition clip_of r (gdf : list (string * Geom)) (all_touched : bool) (feature : string)
    : Res (@DataArray V) :=
  rio_clip r ((filter (λ row, row.1 = feature) gdf).*2) all_touched.

Definition overlaps r gdf all_touched feature : bool :=
  match clip_of r gdf all_touched feature with Ok _ => true | Raise _ => false end.

(** The names of the statistic and percentile columns of a request. *)
Definition column_names (feature_col : string) (stats : list string)
    (percentiles : option (list Z)) : list string :=
  ((λ stat, stat +:+ "_" +:+ feature_col) <$> stats) ++
  ((λ quant : Z, pretty quant +:+ "quant_" +:+ feature_col) <$> default [] percentiles).

(** No requested column is named as one of the non-spatial dimensions
    [ds]. *)
Definition clash_free (feature_col : string) (stats : list string)
    (percentiles : option (list Z)) (ds : list (string * list Z)) : Prop :=
  Forall (λ column, column ∉ ds.*1) (column_names feature_col stats percentiles).

Context (np_reduce : string → list V → option V).
Context (np_quantile : Z → list V → option V).
Context (xr_other : @DataArray V → string → Kwargs → Res (list (@Entry V))).

(** Row [k] of a block holds, for each requested statistic, what the
    reduction gives on the [k]-th window of the clipped array. *)
Definition stat_cells (feature_col : string) (stats : list string)
    (da_clip : @DataArray V) (block : list (gmap string (@Entry V))) : Prop :=
  ∀ k row stat, block !! k = Some row → stat ∈ stats →
    Ok <$> row !! (stat +:+ "_" +:+ feature_col)
    = Some (xr_reduce np_reduce stat (stat_kwargs stat) (window da_clip k)).

(** The same for each requested percentile. *)
Definition quantile_cells (feature_col : string) (percentiles : option (list Z))
    (da_clip : @DataArray V) (block : list (gmap string (@Entry V))) : Prop :=
  ∀ k row quant, block !! k = Some row → quant ∈ default [] percentiles →
    Ok <$> row !! (pretty quant +:+ "quant_" +:+ feature_col)
    = Some (xr_quantile np_quantile quant (window da_clip k)).

(** Row [k] holds the labels of the [k]-th combination, each under the
    name of its dimension, unless the feature column has that name. *)
Definition label_cells (feature_col : string)
    (da_clip : @DataArray V) (block : list (gmap string (@Entry V))) : Prop :=
  ∀ k row combo d z, block !! k = Some row →
    combinations (extra_dims da_clip) !! k = Some combo →
    (d, z) ∈ combo → d ≠ feature_col →
    row !! d = Some (Label z).

(** The rows of one overlapping feature hold its statistics. *)
Definition cells_of r (gdf : list (string * Geom)) (feature_col : string)
    (stats : list string) (all_touched : bool) (feature : string)
    (block : list (gmap string (@Entry V))) : Prop :=
  ∃ da_clip,
    clip_of r gdf all_touched feature = Ok da_clip ∧
    stat_cells feature_col stats da_clip block.

(** The rows of one overlapping feature hold its percentiles and the
    labels of the non-spatial dimensions. *)
Definition other_cells_of r (gdf : list (string * Geom)) (feature_col : string)
    (percentiles : option (list Z)) (all_touched : bool) (feature : string)
    (block : list (gmap string (@Entry V))) : Prop :=
  ∃ da_clip,
    clip_of r gdf all_touched feature = Ok da_clip ∧
    quantile_cells feature_col percentiles da_clip block ∧
    label_cells feature_col da_clip block.

End Vocabulary.

(** ** Vocabulary of the ensemble statements *)

Section EnsembleVocabulary.
Import Forecast.
Context {S : Type}.

(** Member labels in ascending or in descending order. *)
Definition monotonic (index : list Z) : bool :=
  is_monotonic_increasing index || is_monotonic_decreasing index.

(** Where the control ends up among the members. *)
Inductive Placement := ControlFirst | ControlLast | ControlDropped.

Definition assembled (p : Placement) (control perturbed : @Dataset S) : @Dataset S :=
  match p with
  | ControlFirst => concat_number [control; perturbed]
  | ControlLast => concat_number [perturbed; control]
  | ControlDropped => concat_number [perturbed]
  end.

End EnsembleVocabulary.

(** ** Example inputs *)

(** A two-dimensional integer grid in EPSG:4326. *)
Definition grid (lats lons : list Z) (rows : list (list Z)) : @DataArray Z :=
  {| x_dim := "lon"; y_dim := "lat"; extra_dims := [];
     lon := lons; lat := lats; coord_attrs := ∅;
     planes := [ (λ row : list Z, Some <$> row) <$> rows ];
     crs := Some "EPSG:4326"%string |}.

(** Longitude inverted, latitude already descending. *)
Definition inverted_raster : @DataArray Z :=
  grid [90; 89; 88; 87] [70; 69; 68; 67]
       [[0; 1; 2; 3]; [4; 5; 6; 7]; [8; 9; 10; 11]; [12; 13; 14; 15]].

(** The longitudes of the docstring of [change_longitude_range]. *)
Definition wide_raster : @DataArray Z :=
  grid [88; 87] [5; 120; 199; 360] [[0; 1; 2; 3]; [4; 5; 6; 7]].

(** Longitudes within [-180, 180) whose only negative value is -180. *)
Definition dateline_raster : @DataArray Z :=
  grid [10] [-180; 0; 90] [[1; 2; 3]].

(** Longitudes within [0, 360), not in ascending order. *)
Definition unsorted_raster : @DataArray Z :=
  grid [10] [350; 10] [[1; 2]].

(** Longitudes within [0, 360). *)
Definition east_raster : @DataArray Z :=
  grid [10] [0; 90; 270] [[1; 2; 3]].

(** A three-dimensional array: two time steps over a 1 x 2 grid, the
    second step all missing; the time coordinate counts months. *)
Definition monthly_raster : @DataArray Z :=
  {| x_dim := "lon"; y_dim := "lat"; extra_dims := [("T"%string, [0; 1])];
     lon := [10; 11]; lat := [5];
     coord_attrs := {[ "T"%string := {[ "units"%string := "months since 1960-01-01"%string ]} ]};
     planes := [ [[Some 3; Some 4]]; [[None; None]] ];
     crs := Some "EPSG:4326"%string |}.

(** A store holding one array, and its accessor. *)
Definition world_of (r : @DataArray Z) : @World Z :=
  {| heap := {[ 0%nat := r ]}; log := [] |}.

Definition accessor_of (r : @DataArray Z) : Aat :=
  {| _obj := 0%nat; _t_dim := default_t_dim (dims r) |}.

(** A stand-in for the polygon clip: a geometry is [true] when it covers
    cells of the array. *)
Definition clip_flag (r : @DataArray Z) (geometries : list bool) (all_touched : bool)
    : Res (@DataArray Z) :=
  if bool_decide (true ∈ geometries) then Ok r else Raise NoDataInBounds.

(** Integer samples: every statistic and every percentile is 0, and the
    array has no reduction besides the six. *)
Definition all_zero {A} (_ : A) (_ : list Z) : option Z := Some 0.

Definition no_other (_ : @DataArray Z) (_ : string) (_ : Kwargs)
    : Res (list (@Entry Z)) := Raise AttributeError.

(** Control labelled 0 and two perturbed members labelled 0 and 1. *)
Definition tie_file : @Forecast.GribFile Z :=
  {| Forecast.cf := {| Forecast.number := Forecast.Scalar (Some 0);
                       Forecast.realizations := [100]; Forecast.attrs := ∅ |};
     Forecast.pf := {| Forecast.number := Forecast.Dim (Some [0; 1]);
                       Forecast.realizations := [200; 300]; Forecast.attrs := ∅ |} |}.

(** Control labelled 0 and two perturbed members labelled 1 and 2, as in
    the GloFAS files. *)
Definition glofas_file : @Forecast.GribFile Z :=
  {| Forecast.cf := {| Forecast.number := Forecast.Scalar (Some 0);
                       Forecast.realizations := [100]; Forecast.attrs := ∅ |};
     Forecast.pf := {| Forecast.number := Forecast.Dim (Some [1; 2]);
                       Forecast.realizations := [200; 300]; Forecast.attrs := ∅ |} |}.

(** Control labelled 5, above the perturbed labels 1 and 2. *)
Definition late_control_file : @Forecast.GribFile Z :=
  {| Forecast.cf := {| Forecast.number := Forecast.Scalar (Some 5);
                       Forecast.realizations := [100]; Forecast.attrs := ∅ |};
     Forecast.pf := {| Forecast.number := Forecast.Dim (Some [1; 2]);
                       Forecast.realizations := [200; 300]; Forecast.attrs := ∅ |} |}.

(** Control labelled 0 and a single perturbed member labelled 1, which
    cfgrib delivers with a scalar label. *)
Definition single_member_file : @Forecast.GribFile Z :=
  {| Forecast.cf := {| Forecast.number := Forecast.Scalar (Some 0);
                       Forecast.realizations := [100]; Forecast.attrs := ∅ |};
     Forecast.pf := {| Forecast.number := Forecast.Scalar (Some 1);
                       Forecast.realizations := [200]; Forecast.attrs := ∅ |} |}.

(** A file without control message: the control dataset is empty. *)
Definition no_control_file : @Forecast.GribFile Z :=
  {| Forecast.cf := {| Forecast.number := Forecast.Scalar None;
                       Forecast.realizations := []; Forecast.attrs := ∅ |};
     Forecast.pf := {| Forecast.number := Forecast.Dim (Some [1; 2]);
                       Forecast.realizations := [200; 300]; Forecast.attrs := ∅ |} |}.

(** A file without perturbed message: the perturbed dataset is empty. *)
Definition no_perturbed_file : @Forecast.GribFile Z :=
  {| Forecast.cf := {| Forecast.number := Forecast.Scalar (Some 0);
                       Forecast.realizations := [100]; Forecast.attrs := ∅ |};
     Forecast.pf := {| Forecast.number := Forecast.Scalar None;
                       Forecast.realizations := []; Forecast.attrs := ∅ |} |}.

(** An array without cells: the longitude axis is empty. *)
Definition empty_raster : @DataArray Z := grid [10] [] [[]].

(** Longitude inverted, with the label 70 twice. *)
Definition repeated_raster : @DataArray Z := grid [10] [70; 70; 69] [[1; 2; 3]].

(** Longitudes within (180, 360]. *)
Definition west_raster : @DataArray Z := grid [10] [200; 270; 360] [[1; 2; 3]].

(** A three-dimensional array with a dimension named as the column of
    the statistic "sum" for the feature column "name". *)
Definition clash_raster : @DataArray Z :=
  {| x_dim := "lon"; y_dim := "lat"; extra_dims := [("sum_name"%string, [0; 1])];
     lon := [10; 11]; lat := [5]; coord_attrs := ∅;
     planes := [ [[Some 3; Some 4]]; [[Some 5; None]] ];
     crs := Some "EPSG:4326"%string |}.

(** An array that was never given a CRS. *)
Definition no_crs_raster : @DataArray Z :=
  {| x_dim := "lon"; y_dim := "lat"; extra_dims := [];
     lon := [10; 11]; lat := [5]; coord_attrs := ∅;
     planes := [ [[Some 3; Some 4]] ]; crs := None |}.

(** A control dataset without member label. *)
Definition unlabelled_file : @Forecast.GribFile Z :=
  {| Forecast.cf := {| Forecast.number := Forecast.Scalar None;
                       Forecast.realizations := [100]; Forecast.attrs := ∅ |};
     Forecast.pf := {| Forecast.number := Forecast.Dim (Some [1; 2]);
                       Forecast.realizations := [200; 300]; Forecast.attrs := ∅ |} |}.

(** Control labelled 2, between the perturbed labels 1 and 3. *)
Definition inner_control_file : @Forecast.GribFile Z :=
  {| Forecast.cf := {| Forecast.number := Forecast.Scalar (Some 2);
                       Forecast.realizations := [100]; Forecast.attrs := ∅ |};
     Forecast.pf := {| Forecast.number := Forecast.Dim (Some [1; 3]);
                       Forecast.realizations := [200; 300]; Forecast.attrs := ∅ |} |}.

(** The GloFAS labels, with attributes: the institution agrees, the
    history differs. *)
Definition attributed_file : @Forecast.GribFile Z :=
  {| Forecast.cf := {| Forecast.number := Forecast.Scalar (Some 0);
                       Forecast.realizations := [100];
                       Forecast.attrs := {[ "institution"%string := "ECMWF"%string;
                                            "history"%string := "read cf"%string ]} |};
     Forecast.pf := {| Forecast.number := Forecast.Dim (Some [1; 2]);
                       Forecast.realizations := [200; 300];
                       Forecast.attrs := {[ "institution"%string := "ECMWF"%string;
                                            "history"%string := "read pf"%string ]} |} |}.

(** * Properties *)

Ltac run :=
  unfold mbind, M_bind, mret, M_ret, raise, lift, deref, alloc, update, logger; simpl.

Section RasterProperties.
Context {V : Type}.
Implicit Types (w : @World V) (r : @DataArray V) (self : Aat).

Lemma bind_ok {St A B} (m : M St A) (f : A → M St B) st a st' :
  m st = (Ok a, st') → (m ≫= f) st = f a st'.
Proof. intros H. unfold mbind, M_bind. by rewrite H. Qed.

Lemma deref_ok w l r : heap w !! l = Some r → deref l w = (Ok r, w).
Proof. intros H. unfold deref. by rewrite H. Qed.

Lemma fresh_loc_None w : heap w !! fresh (dom (heap w)) = None.
Proof. apply not_elem_of_dom, is_fresh. Qed.

Lemma default_t_dim_spec (ds : list string) :
  default_t_dim ds =
    if bool_decide ("time"%string ∈ ds) then Some "time"%string
    else if bool_decide ("T"%string ∈ ds) then Some "T"%string
    else if bool_decide ("t"%string ∈ ds) then Some "t"%string
    else None.
Proof. unfold default_t_dim. simpl. repeat case_bool_decide; reflexivity. Qed.

Lemma str_app_cons c (s b : string) : String c s +:+ b = String c (s +:+ b).
Proof. reflexivity. Qed.

Lemma str_startswith_spec sub s :
  str_startswith s sub = true ↔ ∃ b, s = sub +:+ b.
Proof.
  revert s. induction sub as [|a sub IH]; intros s; simpl.
  - split; [intros _; by exists s|done].
  - destruct s as [|c s].
    + split; [done|]. intros [b Hb]. discriminate.
    + destruct (Ascii.eqb_spec a c) as [->|Hne].
      * rewrite IH. split; intros [b Hb]; exists b; rewrite str_app_cons in *; congruence.
      * split; [done|]. intros [b Hb]. rewrite str_app_cons in Hb. congruence.
Qed.

Lemma str_in_spec sub s :
  str_in sub s = true ↔ ∃ a b, s = a +:+ sub +:+ b.
Proof.
  induction s as [|c s IH]; simpl.
  - rewrite orb_false_r, str_startswith_spec. split.
    + intros [b Hb]. by exists ""%string, b.
    + intros [a [b Hb]]. destruct a; simpl in Hb; [eauto|discriminate].
  - rewrite orb_true_iff, str_startswith_spec, IH. split.
    + intros [[b Hb]|[a [b Hb]]].
      * by exists ""%string, b.
      * exists (String c a), b. rewrite str_app_cons. by rewrite Hb.
    + intros [a [b Hb]]. destruct a as [|c' a].
      * left. eauto.
      * right. exists a, b. rewrite str_app_cons in Hb. congruence.
Qed.

Lemma fresh_loc_ne w l r : heap w !! l = Some r → fresh (dom (heap w)) ≠ l.
Proof. intros H Heq. rewrite <- Heq, fresh_loc_None in H. done. Qed.

Lemma with_attr_attrs t k v r a :
  coord_attrs r !! t = Some a →
  default ∅ (coord_attrs (with_attr t k v r) !! t) = <[k := v]> a.
Proof. intros H. unfold with_attr. simpl. rewrite lookup_alter_eq, H. done. Qed.

(** C7: for a raster with an identified time dimension [t],
    [correct_calendar] never raises and follows three exclusive rules in
    order: a [calendar] attribute equal to "360" is rewritten to "360_day";
    otherwise, when the [units] attribute contains "months since", the
    attribute [calendar] is set to "360_day"; otherwise the object is left
    as it is.  The copying mode works on a new object and leaves the
    receiver alone, the in-place mode works on the receiver and returns
    nothing. *)
Theorem correct_calendar_rules w self t r (inplace : bool) :
  _t_dim self = Some t →
  heap w !! _obj self = Some r →
  let attrs := default ∅ (coord_attrs r !! t) in
  let months_since :=
    ∃ units a b, attrs !! "units"%string = Some units ∧
                 units = a +:+ "months since" +:+ b in
  ∃ w' res target r',
    correct_calendar self inplace w = (Ok res, w') ∧
    (if inplace then res = None ∧ target = _obj self
     else res = Some target ∧ heap w !! target = None ∧
          heap w' !! _obj self = Some r) ∧
    heap w' !! target = Some r' ∧
    (attrs !! "calendar"%string = Some "360"%string →
       r' = with_attr t "calendar" "360_day" r ∧
       default ∅ (coord_attrs r' !! t) = <["calendar"%string := "360_day"%string]> attrs) ∧
    (attrs !! "calendar"%string ≠ Some "360"%string → months_since →
       r' = with_attr t "calendar" "360_day" r ∧
       default ∅ (coord_attrs r' !! t) = <["calendar"%string := "360_day"%string]> attrs) ∧
    (attrs !! "calendar"%string ≠ Some "360"%string → ¬ months_since → r' = r).
Proof.
  intros Ht Hr attrs months_since.
  assert (Hattrs : ∀ k v, attrs !! k = Some v →
            default ∅ (coord_attrs (with_attr t "calendar" "360_day" r) !! t)
            = <["calendar"%string := "360_day"%string]> attrs).
  { intros k v Hk. subst attrs. destruct (coord_attrs r !! t) as [a|] eqn:Ha.
    - by apply with_attr_attrs.
    - simpl in Hk. by rewrite lookup_empty in Hk. }
  assert (Hunits : (match attrs !! "units"%string with
                    | Some units => str_in "months since" units
                    | None => false
                    end = true) ↔ months_since).
  { subst months_since. destruct (attrs !! "units"%string) as [u|] eqn:Hu.
    - rewrite str_in_spec. split.
      + intros (a & b & ->). by exists (a +:+ "months since" +:+ b), a, b.
      + intros (u' & a & b & [= <-] & ->). eauto.
    - split; [done|]. by intros (u' & a & b & ? & _). }
  pose proof (fresh_loc_None w) as Hfresh.
  pose proof (fresh_loc_ne w _ _ Hr) as Hne.
  unfold correct_calendar, _get_obj, t_dim, get_attrs, set_attr.
  rewrite Ht. destruct inplace; run; rewrite Hr; simpl.
  - (* in place *)
    fold attrs. case_bool_decide as Hcal; simpl.
    + rewrite Hr. simpl. eexists _, None, (_obj self), _. split; [reflexivity|].
      simpl. rewrite lookup_insert_eq. split_and!; try done.
      * intros _. split; [done|]. eauto.
    + destruct (match attrs !! "units"%string with Some u => _ | None => _ end) eqn:Hm; simpl.
      * rewrite Hr. simpl. eexists _, None, (_obj self), _. split; [reflexivity|].
        simpl. rewrite lookup_insert_eq. split_and!; try done.
        -- intros _ (u & a & b & Hu & _). split; [done|]. eauto.
        -- intros _ Hno. destruct Hno. by apply Hunits.
      * eexists _, None, (_obj self), _. split; [reflexivity|].
        simpl. split_and!; try done.
        intros _ Hms. apply Hunits in Hms. congruence.
  - (* copy *)
    rewrite lookup_insert_eq. simpl. fold attrs. case_bool_decide as Hcal; simpl.
    + rewrite lookup_insert_eq. simpl.
      eexists _, (Some _), (fresh (dom (heap w))), _. split; [reflexivity|].
      simpl. rewrite lookup_insert_eq, lookup_insert_ne, lookup_insert_ne by done.
      split_and!; try done.
      intros _. split; [done|]. eauto.
    + destruct (match attrs !! "units"%string with Some u => _ | None => _ end) eqn:Hm; simpl.
      * rewrite lookup_insert_eq. simpl.
        eexists _, (Some _), (fresh (dom (heap w))), _. split; [reflexivity|].
        simpl. rewrite lookup_insert_eq, lookup_insert_ne, lookup_insert_ne by done.
        split_and!; try done.
        -- intros _ (u & a & b & Hu & _). split; [done|]. eauto.
        -- intros _ Hno. destruct Hno. by apply Hunits.
      * eexists _, (Some _), (fresh (dom (heap w))), _. split; [reflexivity|].
        simpl. rewrite lookup_insert_eq, lookup_insert_ne by done.
        split_and!; try done.
        intros _ Hms. apply Hunits in Hms. congruence.
Qed.

(** ** Reindexing by reversed labels *)

Lemma get_loc_Some (l : list Z) x i : get_loc l x = Some i → l !! i = Some x.
Proof.
  revert i. induction l as [|u l IH]; intros i; simpl; [done|].
  case_bool_decide as Hu.
  - intros [= <-]. by subst.
  - destruct (get_loc l x) as [j|]; simpl; [|done].
    intros [= <-]. simpl. by apply IH.
Qed.

Lemma get_loc_lookup (l : list Z) x i :
  NoDup l → l !! i = Some x → get_loc l x = Some i.
Proof.
  revert i. induction l as [|u l IH]; intros i Hnd Hi; [done|].
  apply NoDup_cons in Hnd as [Hu Hnd]. simpl. destruct i as [|i]; simpl in Hi.
  - injection Hi as ->. by rewrite bool_decide_eq_true_2.
  - rewrite bool_decide_eq_false_2.
    + by rewrite (IH i Hnd Hi).
    + intros ->. apply Hu. by eapply list_elem_of_lookup_2.
Qed.

Lemma get_loc_elem_of (l : list Z) x : x ∈ l → is_Some (get_loc l x).
Proof.
  induction 1 as [|u v l Hx IH]; simpl.
  - rewrite bool_decide_eq_true_2 by done. eauto.
  - case_bool_decide; [eauto|]. destruct IH as [j ->]. simpl. eauto.
Qed.

Lemma reverse_positions (l : list Z) :
  NoDup l →
  get_loc l <$> reverse l = (λ i, Some (length l - S i)%nat) <$> seq 0 (length l).
Proof.
  intros Hnd. apply list_eq. intros i.
  rewrite !list_lookup_fmap.
  destruct (decide (i < length l)%nat) as [Hi|Hi].
  - rewrite reverse_lookup, lookup_seq_lt by done. simpl.
    destruct (lookup_lt_is_Some_2 l (length l - S i)) as [x Hx]; [lia|].
    rewrite Hx. simpl. f_equal. by apply get_loc_lookup.
  - rewrite lookup_ge_None_2, lookup_seq_ge by (rewrite ?length_reverse; lia).
    done.
Qed.

Lemma take_reverse {A} (fill : A) (l : list A) n :
  length l = n →
  take fill ((λ i, Some (n - S i)%nat) <$> seq 0 n) l = reverse l.
Proof.
  intros Hn. apply list_eq. intros i. unfold take.
  rewrite !list_lookup_fmap.
  destruct (decide (i < n)%nat) as [Hi|Hi].
  - rewrite lookup_seq_lt, reverse_lookup by lia. simpl.
    destruct (lookup_lt_is_Some_2 l (n - S i)) as [x Hx]; [lia|].
    rewrite Hn, Hx. done.
  - rewrite lookup_seq_ge, lookup_ge_None_2 by (rewrite ?length_reverse; lia).
    done.
Qed.

Lemma get_loc_None (l : list Z) x : x ∉ l → get_loc l x = None.
Proof.
  intros Hx. destruct (get_loc l x) as [i|] eqn:Hi; [|done].
  apply get_loc_Some in Hi. destruct Hx. by eapply list_elem_of_lookup_2.
Qed.

Lemma get_loc_lt (l : list Z) x i : get_loc l x = Some i → (i < length l)%nat.
Proof. intros H. apply get_loc_Some in H. by eapply lookup_lt_Some. Qed.

Lemma NoDup_reverse_2 {A} (l : list A) : NoDup l → NoDup (reverse l).
Proof. by rewrite reverse_Permutation. Qed.

Lemma get_loc_reverse (l : list Z) x :
  NoDup l →
  get_loc (reverse l) x = (λ i, (length l - S i)%nat) <$> get_loc l x.
Proof.
  intros Hnd. destruct (get_loc l x) as [i|] eqn:Hi; simpl.
  - pose proof (get_loc_lt _ _ _ Hi) as Hlt. apply get_loc_Some in Hi.
    apply get_loc_lookup; [by apply NoDup_reverse_2|].
    rewrite reverse_lookup by lia. rewrite <- Hi. f_equal. lia.
  - apply get_loc_None. rewrite elem_of_reverse. intros Hx.
    apply get_loc_elem_of in Hx as [j Hj]. congruence.
Qed.

Lemma reindex_axis_X r :
  well_shaped r → NoDup (lon r) → reverse (lon r) ≠ lon r →
  reindex_axis r X (reverse (lon r)) = Ok (flip_x r).
Proof.
  intros Hws Hnd Hne. unfold reindex_axis. simpl.
  rewrite bool_decide_eq_false_2, bool_decide_eq_true_2 by done.
  unfold flip_x. do 2 f_equal.
  rewrite reverse_positions by done.
  apply Forall_fmap_ext_1. eapply Forall_impl; [exact Hws|].
  intros plane [_ Hrows]. apply Forall_fmap_ext_1.
  eapply Forall_impl; [exact Hrows|]. intros row Hlen. simpl in *.
  by apply take_reverse.
Qed.

Lemma reindex_axis_Y r :
  well_shaped r → NoDup (lat r) → reverse (lat r) ≠ lat r →
  reindex_axis r Y (reverse (lat r)) = Ok (flip_y r).
Proof.
  intros Hws Hnd Hne. unfold reindex_axis. simpl.
  rewrite bool_decide_eq_false_2, bool_decide_eq_true_2 by done.
  unfold flip_y. do 2 f_equal.
  rewrite reverse_positions by done.
  apply Forall_fmap_ext_1. eapply Forall_impl; [exact Hws|].
  intros plane [Hlen _]. simpl in *. by apply take_reverse.
Qed.

Lemma well_shaped_flip_x r : well_shaped r → well_shaped (flip_x r).
Proof.
  unfold well_shaped. simpl. intros H. apply Forall_fmap.
  eapply Forall_impl; [exact H|]. intros plane [Hl Hrows]. simpl.
  rewrite length_fmap. split; [done|]. apply Forall_fmap.
  eapply Forall_impl; [exact Hrows|]. intros row Hrow. simpl.
  by rewrite !length_reverse.
Qed.

Lemma well_shaped_flip_y r : well_shaped r → well_shaped (flip_y r).
Proof.
  unfold well_shaped. simpl. intros H. apply Forall_fmap.
  eapply Forall_impl; [exact H|]. intros plane [Hl Hrows]. simpl.
  rewrite !length_reverse. split; [done|]. by apply Forall_reverse.
Qed.

Lemma sel_flip_x r k y x :
  well_shaped r → NoDup (lon r) → sel (flip_x r) k y x = sel r k y x.
Proof.
  intros Hws Hnd. unfold sel. simpl.
  destruct (get_loc (lat r) y) as [i|]; simpl; [|done].
  rewrite get_loc_reverse by done.
  destruct (get_loc (lon r) x) as [j|] eqn:Hj; simpl; [|done].
  apply get_loc_lt in Hj.
  rewrite list_lookup_fmap.
  destruct (planes r !! k) as [plane|] eqn:Hk; simpl; [|done].
  rewrite list_lookup_fmap.
  destruct (plane !! i) as [row|] eqn:Hi; simpl; [|done].
  assert (length row = length (lon r)) as Hlen.
  { eapply Forall_lookup_1 in Hws as [_ Hrows]; [|exact Hk].
    by eapply Forall_lookup_1 in Hrows. }
  rewrite reverse_lookup by lia. f_equal. lia.
Qed.

Lemma sel_flip_y r k y x :
  well_shaped r → NoDup (lat r) → sel (flip_y r) k y x = sel r k y x.
Proof.
  intros Hws Hnd. unfold sel. simpl.
  rewrite get_loc_reverse by done.
  destruct (get_loc (lat r) y) as [i|] eqn:Hi; simpl; [|done].
  apply get_loc_lt in Hi.
  destruct (get_loc (lon r) x) as [j|]; simpl; [|done].
  rewrite list_lookup_fmap.
  destruct (planes r !! k) as [plane|] eqn:Hk; simpl; [|done].
  assert (length plane = length (lat r)) as Hlen.
  { by eapply Forall_lookup_1 in Hws as [? _]. }
  rewrite reverse_lookup by lia. do 2 f_equal. lia.
Qed.

Lemma get_obj_copy w self r :
  heap w !! _obj self = Some r →
  ∃ l w', _get_obj self false w = (Ok l, w') ∧
          heap w !! l = None ∧ heap w' = <[l := r]> (heap w) ∧ log w' = log w.
Proof.
  intros Hr. unfold _get_obj. run. rewrite Hr. simpl.
  eexists _, _. split; [reflexivity|]. simpl. split_and!; try done.
  apply fresh_loc_None.
Qed.

Lemma head_is_Some {A} (l : list A) : l ≠ [] → is_Some (head l).
Proof. destruct l; [done|]. eauto. Qed.

Lemma last_is_Some_ne {A} (l : list A) : l ≠ [] → is_Some (last l).
Proof.
  intros Hl. rewrite <- head_reverse. apply head_is_Some.
  intros Hrev. apply Hl. by rewrite <- (reverse_involutive l), Hrev.
Qed.

Lemma check_coords_inverted_ok w self r :
  heap w !! _obj self = Some r → lon r ≠ [] → lat r ≠ [] →
  ∃ w', _check_coords_inverted self w = (Ok (lon_inverted r, lat_inverted r), w') ∧
        heap w ⊆ heap w' ∧ log w' = log w.
Proof.
  intros Hr Hlon Hlat.
  destruct (get_obj_copy w self r Hr) as (l & w' & Hrun & Hl & Hheap & Hlog).
  destruct (head_is_Some _ Hlon) as [x0 Hx0], (last_is_Some_ne _ Hlon) as [x1 Hx1].
  destruct (head_is_Some _ Hlat) as [y0 Hy0], (last_is_Some_ne _ Hlat) as [y1 Hy1].
  exists w'. unfold _check_coords_inverted, lon_inverted, lat_inverted.
  rewrite (bind_ok _ _ _ _ _ Hrun).
  assert (heap w' !! l = Some r) as Hl' by (by rewrite Hheap, lookup_insert_eq).
  unfold first_label, last_label. run.
  rewrite Hl'. simpl.
  rewrite Hx0, Hx1, Hy0, Hy1. split; [done|]. split; [|done].
  rewrite Hheap. by apply insert_subseteq.
Qed.

Lemma inverted_reverse_ne (l : list Z) a b :
  head l = Some a → last l = Some b → a ≠ b → reverse l ≠ l.
Proof.
  intros Ha Hb Hab Hrev. apply Hab.
  rewrite <- head_reverse, Hrev, Ha in Hb. congruence.
Qed.

Lemma lon_inverted_ne r : lon_inverted r = true → reverse (lon r) ≠ lon r.
Proof.
  unfold lon_inverted. destruct (head (lon r)) as [a|] eqn:Ha; [|done].
  destruct (last (lon r)) as [b|] eqn:Hb; [|done].
  intros Hlt%bool_decide_eq_true. eapply inverted_reverse_ne; eauto. lia.
Qed.

Lemma lat_inverted_ne r : lat_inverted r = true → reverse (lat r) ≠ lat r.
Proof.
  unfold lat_inverted. destruct (head (lat r)) as [a|] eqn:Ha; [|done].
  destruct (last (lat r)) as [b|] eqn:Hb; [|done].
  intros Hlt%bool_decide_eq_true. eapply inverted_reverse_ne; eauto. lia.
Qed.

Lemma lon_inverted_flip_x r : lon_inverted r = true → lon_inverted (flip_x r) = false.
Proof.
  unfold lon_inverted. simpl. rewrite head_reverse, last_reverse.
  destruct (head (lon r)) as [a|]; [|done]. destruct (last (lon r)) as [b|]; [|done].
  intros Hlt%bool_decide_eq_true. apply bool_decide_eq_false. lia.
Qed.

Lemma lat_inverted_flip_y r : lat_inverted r = true → lat_inverted (flip_y r) = false.
Proof.
  unfold lat_inverted. simpl. rewrite head_reverse, last_reverse.
  destruct (head (lat r)) as [a|]; [|done]. destruct (last (lat r)) as [b|]; [|done].
  intros Hlt%bool_decide_eq_true. apply bool_decide_eq_false. lia.
Qed.

Lemma regular_flip_x r : regular r → regular (flip_x r).
Proof.
  intros (Hws & Hlon & Hlat & Hndx & Hndy). split_and!; simpl; try done.
  - by apply well_shaped_flip_x.
  - intros Hrev. apply Hlon. by rewrite <- (reverse_involutive (lon r)), Hrev.
  - by apply NoDup_reverse_2.
Qed.

Lemma regular_flip_y r : regular r → regular (flip_y r).
Proof.
  intros (Hws & Hlon & Hlat & Hndx & Hndy). split_and!; simpl; try done.
  - by apply well_shaped_flip_y.
  - intros Hrev. apply Hlat. by rewrite <- (reverse_involutive (lat r)), Hrev.
  - by apply NoDup_reverse_2.
Qed.

Lemma reindex_ok w l r indexers r' :
  heap w !! l = Some r → reindex_all r indexers = Ok r' →
  ∃ l' w', reindex l indexers w = (Ok l', w') ∧
           heap w !! l' = None ∧ heap w' = <[l' := r']> (heap w) ∧ log w' = log w.
Proof.
  intros Hr Hre. unfold reindex. run. rewrite Hr. simpl. rewrite Hre.
  eexists _, _. split; [reflexivity|]. simpl. split_and!; try done.
  apply fresh_loc_None.
Qed.

Lemma invert_coordinates_copy w self r :
  heap w !! _obj self = Some r → regular r →
  ∃ w1 l1,
    invert_coordinates self false w = (Ok (Some l1), w1) ∧
    heap w1 !! l1 = Some (oriented r) ∧
    heap w ⊆ heap w1.
Proof.
  intros Hr (Hws & Hlon & Hlat & Hndx & Hndy).
  destruct (get_obj_copy w self r Hr) as (l & w' & Hrun & Hl & Hheap & Hlog).
  assert (heap w' !! _obj self = Some r) as Hr'.
  { rewrite Hheap, lookup_insert_ne; [done|]. intros ->. congruence. }
  assert (heap w' !! l = Some r) as Hl' by (by rewrite Hheap, lookup_insert_eq).
  assert (heap w ⊆ heap w') as Hsub by (rewrite Hheap; by apply insert_subseteq).
  destruct (check_coords_inverted_ok w' self r Hr' Hlon Hlat)
    as (w'' & Hchk & Hsub' & Hlog').
  pose proof (lookup_weaken _ _ _ _ Hl' Hsub') as Hl''.
  unfold invert_coordinates.
  rewrite (bind_ok _ _ _ _ _ Hrun), (bind_ok _ _ _ _ _ Hchk).
  unfold oriented.
  destruct (lon_inverted r) eqn:Hx.
  - pose proof (lon_inverted_ne _ Hx) as Hnex.
    assert (lat_inverted (flip_x r) = lat_inverted r) as Hyx by done.
    rewrite Hyx.
    destruct (lat_inverted r) eqn:Hy.
    + pose proof (lat_inverted_ne _ Hy) as Hney.
      assert (reindex_all r [(X, reverse (lon r)); (Y, reverse (lat r))]
              = Ok (flip_y (flip_x r))) as Hre.
      { simpl. rewrite reindex_axis_X by done.
        change (reverse (lat r)) with (reverse (lat (flip_x r))).
        rewrite reindex_axis_Y; [done|by apply well_shaped_flip_x|done|done]. }
      run. rewrite Hl''. simpl. rewrite Hl''. simpl.
      edestruct (reindex_ok) as (l1 & w1 & Hrun1 & Hl1 & Hheap1 & _);
        [|exact Hre|].
      2:{ rewrite Hrun1. eexists _, _. split; [reflexivity|].
          rewrite Hheap1, lookup_insert_eq. split; [done|].
          etrans; [exact Hsub|]. etrans; [exact Hsub'|].
          etrans; [|by apply insert_subseteq]. done. }
      simpl. exact Hl''.
    + assert (reindex_all r [(X, reverse (lon r))] = Ok (flip_x r)) as Hre.
      { simpl. by rewrite reindex_axis_X. }
      run. rewrite Hl''. simpl.
      edestruct (reindex_ok) as (l1 & w1 & Hrun1 & Hl1 & Hheap1 & _);
        [|exact Hre|].
      2:{ rewrite Hrun1. eexists _, _. split; [reflexivity|].
          rewrite Hheap1, lookup_insert_eq. split; [done|].
          etrans; [exact Hsub|]. etrans; [exact Hsub'|].
          etrans; [|by apply insert_subseteq]. done. }
      simpl. exact Hl''.
  - destruct (lat_inverted r) eqn:Hy.
    + pose proof (lat_inverted_ne _ Hy) as Hney.
      assert (reindex_all r [(Y, reverse (lat r))] = Ok (flip_y r)) as Hre.
      { simpl. by rewrite reindex_axis_Y. }
      run. rewrite Hl''. simpl.
      edestruct (reindex_ok) as (l1 & w1 & Hrun1 & Hl1 & Hheap1 & _);
        [|exact Hre|].
      2:{ rewrite Hrun1. eexists _, _. split; [reflexivity|].
          rewrite Hheap1, lookup_insert_eq. split; [done|].
          etrans; [exact Hsub|]. etrans; [exact Hsub'|].
          etrans; [|by apply insert_subseteq]. done. }
      simpl. exact Hl''.
    + run. eexists _, _. split; [reflexivity|]. split; [done|].
      by etrans.
Qed.

Lemma invert_coordinates_copy_canonical w self r :
  heap w !! _obj self = Some r → lon r ≠ [] → lat r ≠ [] → canonical r →
  ∃ w1 l1,
    invert_coordinates self false w = (Ok (Some l1), w1) ∧
    heap w1 !! l1 = Some r ∧
    heap w ⊆ heap w1.
Proof.
  intros Hr Hlon Hlat [Hx Hy].
  destruct (get_obj_copy w self r Hr) as (l & w' & Hrun & Hl & Hheap & Hlog).
  assert (heap w' !! _obj self = Some r) as Hr'.
  { rewrite Hheap, lookup_insert_ne; [done|]. intros ->. congruence. }
  assert (heap w' !! l = Some r) as Hl' by (by rewrite Hheap, lookup_insert_eq).
  assert (heap w ⊆ heap w') as Hsub by (rewrite Hheap; by apply insert_subseteq).
  destruct (check_coords_inverted_ok w' self r Hr' Hlon Hlat)
    as (w'' & Hchk & Hsub' & Hlog').
  pose proof (lookup_weaken _ _ _ _ Hl' Hsub') as Hl''.
  unfold invert_coordinates.
  rewrite (bind_ok _ _ _ _ _ Hrun), (bind_ok _ _ _ _ _ Hchk), Hx, Hy.
  run. eexists _, _. split; [reflexivity|]. split; [done|]. by etrans.
Qed.

Lemma oriented_canonical r : canonical (oriented r).
Proof.
  unfold canonical, oriented.
  destruct (lon_inverted r) eqn:Hx.
  - assert (lat_inverted (flip_x r) = lat_inverted r) as -> by done.
    destruct (lat_inverted r) eqn:Hy.
    + split; [|by apply lat_inverted_flip_y].
      by apply (lon_inverted_flip_x r).
    + split; [by apply lon_inverted_flip_x|done].
  - destruct (lat_inverted r) eqn:Hy.
    + split; [done|by apply lat_inverted_flip_y].
    + done.
Qed.

Lemma oriented_id r : canonical r → oriented r = r.
Proof. intros [Hx Hy]. unfold oriented. by rewrite Hx, Hy. Qed.

Lemma oriented_regular r : regular r → regular (oriented r).
Proof.
  intros Hreg. unfold oriented.
  destruct (lon_inverted r); destruct (lat_inverted _);
    auto using regular_flip_x, regular_flip_y.
Qed.

Lemma oriented_sel r k y x : regular r → sel (oriented r) k y x = sel r k y x.
Proof.
  intros Hreg. unfold oriented.
  assert (∀ r', regular r' → sel (flip_x r') k y x = sel r' k y x) as Hfx.
  { intros r' (? & _ & _ & ? & _). by apply sel_flip_x. }
  assert (∀ r', regular r' → sel (flip_y r') k y x = sel r' k y x) as Hfy.
  { intros r' (? & _ & _ & _ & ?). by apply sel_flip_y. }
  destruct (lon_inverted r); destruct (lat_inverted _);
    rewrite ?Hfy, ?Hfx; auto using regular_flip_x.
Qed.

Lemma oriented_lon r :
  lon (oriented r) = if lon_inverted r then reverse (lon r) else lon r.
Proof. unfold oriented. destruct (lon_inverted r); by destruct (lat_inverted _). Qed.

Lemma oriented_lat r :
  lat (oriented r) = if lat_inverted r then reverse (lat r) else lat r.
Proof.
  unfold oriented. destruct (lon_inverted r).
  - assert (lat_inverted (flip_x r) = lat_inverted r) as -> by done.
    by destruct (lat_inverted r).
  - by destruct (lat_inverted r).
Qed.

(** C8: on a raster with non-empty axes, [invert_coordinates] returns a
    raster already in canonical order (latitude descending, longitude
    ascending, judged on the first and last label of each axis) unchanged;
    and on a well-shaped raster without repeated labels it returns a raster
    in canonical order, each inverted axis reversed, where selecting by
    label gives the same values as before, so the values move with their
    coordinates; applying the operation to that result returns it again. *)
Theorem invert_coordinates_idempotent w self r :
  heap w !! _obj self = Some r →
  lon r ≠ [] → lat r ≠ [] →
  (canonical r →
     ∃ w1 l1,
       invert_coordinates self false w = (Ok (Some l1), w1) ∧
       heap w1 !! l1 = Some r ∧
       heap w1 !! _obj self = Some r) ∧
  (well_shaped r → NoDup (lon r) → NoDup (lat r) →
     ∃ w1 l1 r1,
       invert_coordinates self false w = (Ok (Some l1), w1) ∧
       heap w1 !! l1 = Some r1 ∧
       heap w1 !! _obj self = Some r ∧
       canonical r1 ∧
       lon r1 = (if lon_inverted r then reverse (lon r) else lon r) ∧
       lat r1 = (if lat_inverted r then reverse (lat r) else lat r) ∧
       (∀ k y x, sel r1 k y x = sel r k y x) ∧
       ∀ self1 : Aat, _obj self1 = l1 →
         ∃ w2 l2,
           invert_coordinates self1 false w1 = (Ok (Some l2), w2) ∧
           heap w2 !! l2 = Some r1 ∧
           heap w2 !! l1 = Some r1).
Proof.
  intros Hr Hlon Hlat. split.
  - intros Hcan.
    destruct (invert_coordinates_copy_canonical w self r Hr Hlon Hlat Hcan)
      as (w1 & l1 & Hrun & Hl1 & Hsub).
    exists w1, l1. split_and!; try done. by eapply lookup_weaken.
  - intros Hws Hndx Hndy.
    assert (regular r) as Hreg by done.
    destruct (invert_coordinates_copy w self r Hr Hreg) as (w1 & l1 & Hrun & Hl1 & Hsub).
    exists w1, l1, (oriented r). split_and!; try done.
    + by eapply lookup_weaken.
    + apply oriented_canonical.
    + apply oriented_lon.
    + apply oriented_lat.
    + intros k y x. by apply oriented_sel.
    + intros self1 Hself1. rewrite <- Hself1 in Hl1.
      destruct (oriented_regular _ Hreg) as (_ & Hlon1 & Hlat1 & _).
      destruct (invert_coordinates_copy_canonical w1 self1 _ Hl1 Hlon1 Hlat1
                  (oriented_canonical r))
        as (w2 & l2 & Hrun2 & Hl2 & Hsub2).
      exists w2, l2. split_and!; try done.
      rewrite <- Hself1. by eapply lookup_weaken.
Qed.

Lemma preserving_ret {A} (a : A) : preserving (V:=V) (mret a).
Proof. intros w res w' [= <- <-]. done. Qed.

Lemma preserving_raise {A} e : preserving (V:=V) (raise (A:=A) e).
Proof. intros w res w' [= <- <-]. done. Qed.

Lemma preserving_lift {A} (x : Res A) : preserving (V:=V) (lift x).
Proof. intros w res w' [= <- <-]. done. Qed.

Lemma preserving_deref l : preserving (V:=V) (deref l).
Proof. intros w res w'. unfold deref. destruct (heap w !! l); by intros [= <- <-]. Qed.

Lemma preserving_alloc r : preserving (V:=V) (alloc r).
Proof.
  intros w res w' [= <- <-]. simpl. apply insert_subseteq, fresh_loc_None.
Qed.

Lemma preserving_logger lv msg : preserving (V:=V) (logger lv msg).
Proof. intros w res w' [= <- <-]. done. Qed.

Lemma preserving_bind {A B} (m : M World A) (f : A → M World B) :
  preserving m → (∀ a, preserving (V:=V) (f a)) → preserving (V:=V) (m ≫= f).
Proof.
  intros Hm Hf w res w'. unfold mbind, M_bind.
  destruct (m w) as [[a|e] w1] eqn:Hrun.
  - intros Hfa. etrans; [by eapply Hm|by eapply Hf].
  - intros [= <- <-]. by eapply Hm.
Qed.

Ltac preserving :=
  repeat first
    [ apply preserving_ret | apply preserving_raise | apply preserving_lift
    | apply preserving_deref | apply preserving_alloc | apply preserving_logger
    | apply preserving_bind; [|intros ?]
    | match goal with
      | |- preserving (V:=V) (if ?b then _ else _) => destruct b
      | |- preserving (V:=V) (match ?x with _ => _ end) => destruct x
      end ].

Lemma preserving_get_obj self inplace : preserving (V:=V) (_get_obj self inplace).
Proof. unfold _get_obj. preserving. Qed.

Lemma preserving_check_coords_inverted self : preserving (V:=V) (_check_coords_inverted self).
Proof. unfold _check_coords_inverted. preserving. Qed.

Lemma preserving_reindex l indexers : preserving (V:=V) (reindex l indexers).
Proof. unfold reindex. preserving. Qed.

Lemma preserving_invert_coordinates self inplace :
  preserving (V:=V) (invert_coordinates self inplace).
Proof.
  unfold invert_coordinates. preserving;
    auto using preserving_get_obj, preserving_check_coords_inverted, preserving_reindex.
Qed.

(** In-place mode never touches the receiver, whatever the call returns. *)
Lemma invert_coordinates_inplace_unchanged w self r res w' :
  heap w !! _obj self = Some r →
  invert_coordinates self true w = (res, w') →
  heap w' !! _obj self = Some r.
Proof.
  intros Hr Hrun. eapply lookup_weaken; [exact Hr|].
  by eapply preserving_invert_coordinates.
Qed.

(** ** Longitude range *)

Lemma foldl_max_spec (l : list Z) v :
  (foldl Z.max v l = v ∨ foldl Z.max v l ∈ l) ∧
  v ≤ foldl Z.max v l ∧ Forall (λ x, x ≤ foldl Z.max v l) l.
Proof.
  revert v. induction l as [|u l IH]; intros v; simpl.
  - split_and!; [by left|lia|constructor].
  - destruct (IH (Z.max v u)) as (Hm & Hle & Hall). split_and!.
    + destruct Hm as [Hm|Hm]; [|right; by constructor].
      rewrite Hm. destruct (Z.max_spec v u) as [[_ ->]|[_ ->]];
        [right; constructor|by left].
    + lia.
    + constructor; [lia|done].
Qed.

Lemma foldl_min_spec (l : list Z) v :
  (foldl Z.min v l = v ∨ foldl Z.min v l ∈ l) ∧
  foldl Z.min v l ≤ v ∧ Forall (λ x, foldl Z.min v l ≤ x) l.
Proof.
  revert v. induction l as [|u l IH]; intros v; simpl.
  - split_and!; [by left|lia|constructor].
  - destruct (IH (Z.min v u)) as (Hm & Hle & Hall). split_and!.
    + destruct Hm as [Hm|Hm]; [|right; by constructor].
      rewrite Hm. destruct (Z.min_spec v u) as [[_ ->]|[_ ->]];
        [by left|right; constructor].
    + lia.
    + constructor; [lia|done].
Qed.

Lemma gt_nan_max (l : list Z) b :
  gt_nan (index_max l) b = true ↔ Exists (λ x, b < x) l.
Proof.
  destruct l as [|v l]; simpl.
  - split; [done|]. by intros ?%Exists_nil.
  - destruct (foldl_max_spec l v) as (Hm & Hle & Hall).
    rewrite bool_decide_eq_true, Exists_exists. split.
    + intros Hlt. exists (foldl Z.max v l). split; [|done].
      destruct Hm as [->|Hm]; [constructor|by constructor].
    + intros (x & Hx & Hbx). apply elem_of_cons in Hx as [->|Hx]; [lia|].
      rewrite Forall_forall in Hall. specialize (Hall x Hx). lia.
Qed.

Lemma lt_nan_min (l : list Z) b :
  lt_nan (index_min l) b = true ↔ Exists (λ x, x < b) l.
Proof.
  destruct l as [|v l]; simpl.
  - split; [done|]. by intros ?%Exists_nil.
  - destruct (foldl_min_spec l v) as (Hm & Hle & Hall).
    rewrite bool_decide_eq_true, Exists_exists. split.
    + intros Hlt. exists (foldl Z.min v l). split; [|done].
      destruct Hm as [->|Hm]; [constructor|by constructor].
    + intros (x & Hx & Hbx). apply elem_of_cons in Hx as [->|Hx]; [lia|].
      rewrite Forall_forall in Hall. specialize (Hall x Hx). lia.
Qed.

Lemma np_sort_Permutation l : np_sort l ≡ₚ l.
Proof. apply merge_sort_Permutation. Qed.

Lemma np_sort_Sorted l : Sorted Z.le (np_sort l).
Proof. apply (Sorted_merge_sort Z.le). Qed.

Lemma np_sort_proper l1 l2 : l1 ≡ₚ l2 → np_sort l1 = np_sort l2.
Proof.
  intros Hp. apply (Sorted_unique Z.le); [apply np_sort_Sorted..|].
  by rewrite !np_sort_Permutation.
Qed.

Lemma np_sort_id l : Sorted Z.le l → np_sort l = l.
Proof.
  intros Hs. apply (Sorted_unique Z.le); [apply np_sort_Sorted|done|].
  apply np_sort_Permutation.
Qed.

Lemma np_sort_length l : length (np_sort l) = length l.
Proof. by rewrite np_sort_Permutation. Qed.

Lemma wrap64_id z : int64_min ≤ z ≤ int64_max → wrap64 z = z.
Proof.
  unfold wrap64, int64_min, int64_max. intros Hz.
  rewrite Z.mod_small; lia.
Qed.

(** Without overflow of the sum, [to_180] is the formula over the
    integers. *)
Lemma to_180_exact v :
  int64_min ≤ v → v + 180 ≤ int64_max → to_180 v = (v + 180) `mod` 360 - 180.
Proof.
  intros Hlo Hhi. unfold to_180.
  rewrite (wrap64_id (v + 180)) by (unfold int64_min, int64_max in *; lia).
  apply wrap64_id. unfold int64_min, int64_max.
  pose proof (Z.mod_pos_bound (v + 180) 360). lia.
Qed.

Lemma to_180_range v : -180 ≤ to_180 v < 180.
Proof.
  unfold to_180. rewrite (wrap64_id (_ - 180)).
  - pose proof (Z.mod_pos_bound (wrap64 (v + 180)) 360). lia.
  - unfold int64_min, int64_max.
    pose proof (Z.mod_pos_bound (wrap64 (v + 180)) 360). lia.
Qed.

Lemma to_180_low v : 0 ≤ v < 180 → to_180 v = v.
Proof.
  intros ?. rewrite to_180_exact by (unfold int64_min, int64_max; lia).
  Z.div_mod_to_equations. lia.
Qed.

Lemma to_180_high v : 180 ≤ v < 360 → to_180 v = v - 360.
Proof.
  intros ?. rewrite to_180_exact by (unfold int64_min, int64_max; lia).
  Z.div_mod_to_equations. lia.
Qed.

Lemma to_360_negative v : int64_min ≤ v < 0 → to_360 v = v + 360.
Proof.
  intros ?. unfold to_360. rewrite bool_decide_eq_true_2 by lia.
  apply wrap64_id. unfold int64_min, int64_max in *. lia.
Qed.

Lemma to_360_nonneg v : 0 ≤ v → to_360 v = v.
Proof. intros ?. unfold to_360. rewrite bool_decide_eq_false_2 by lia. done. Qed.

Lemma to_360_to_180 v : 0 ≤ v < 360 → to_360 (to_180 v) = v.
Proof.
  intros Hv. destruct (decide (v < 180)).
  - rewrite to_180_low by lia. apply to_360_nonneg. lia.
  - rewrite to_180_high by lia.
    rewrite to_360_negative by (unfold int64_min; lia). lia.
Qed.

Lemma to_180_to_360 v : -180 ≤ v < 180 → to_180 (to_360 v) = v.
Proof.
  intros Hv. destruct (decide (v < 0)).
  - rewrite to_360_negative by (unfold int64_min; lia). rewrite to_180_high; lia.
  - rewrite to_360_nonneg by lia. rewrite to_180_low; lia.
Qed.

Lemma change_longitude_range_run w self r (inplace : bool) :
  heap w !! _obj self = Some r →
  ∃ w1 res target,
    change_longitude_range self inplace w = (Ok res, w1) ∧
    (if inplace then res = None ∧ target = _obj self
     else res = Some target ∧ heap w !! target = None ∧
          heap w1 !! _obj self = Some r) ∧
    heap w1 !! target = Some (converted r).
Proof.
  intros Hr.
  pose proof (fresh_loc_None w) as Hfresh.
  pose proof (fresh_loc_ne w _ _ Hr) as Hne.
  unfold change_longitude_range, converted, _get_obj, set_x_index.
  destruct inplace; run; rewrite Hr; simpl.
  - destruct (gt_nan _ 180); simpl; [|destruct (lt_nan _ 0); simpl].
    + rewrite Hr. simpl. rewrite np_sort_length, length_fmap.
      rewrite bool_decide_eq_true_2 by done. simpl. rewrite Hr. simpl.
      eexists _, _, _. split; [reflexivity|]. simpl. split; [done|].
      by rewrite lookup_insert_eq.
    + rewrite Hr. simpl. rewrite np_sort_length, length_fmap.
      rewrite bool_decide_eq_true_2 by done. simpl. rewrite Hr. simpl.
      eexists _, _, _. split; [reflexivity|]. simpl. split; [done|].
      by rewrite lookup_insert_eq.
    + eexists _, _, _. split; [reflexivity|]. simpl. done.
  - rewrite lookup_insert_eq. simpl.
    destruct (gt_nan _ 180); simpl; [|destruct (lt_nan _ 0); simpl].
    + rewrite lookup_insert_eq. simpl.
      rewrite np_sort_length, length_fmap.
      rewrite bool_decide_eq_true_2 by done. simpl.
      rewrite lookup_insert_eq. simpl.
      eexists _, _, _. split; [reflexivity|]. simpl.
      rewrite lookup_insert_eq, !lookup_insert_ne by done. done.
    + rewrite lookup_insert_eq. simpl.
      rewrite np_sort_length, length_fmap.
      rewrite bool_decide_eq_true_2 by done. simpl.
      rewrite lookup_insert_eq. simpl.
      eexists _, _, _. split; [reflexivity|]. simpl.
      rewrite lookup_insert_eq, !lookup_insert_ne by done. done.
    + eexists _, _, _. split; [reflexivity|]. simpl.
      rewrite lookup_insert_eq, !lookup_insert_ne by done. done.
Qed.

Lemma converted_planes r : planes (converted r) = planes r ∧ lat (converted r) = lat r.
Proof. unfold converted. destruct (gt_nan _ _); [done|]. by destruct (lt_nan _ _). Qed.

Lemma converted_noop r : Forall (λ v, 0 ≤ v ≤ 180) (lon r) → converted r = r.
Proof.
  intros Hall. unfold converted.
  destruct (gt_nan _ 180) eqn:Hgt.
  { apply gt_nan_max, Exists_exists in Hgt as (x & Hx & Hlt).
    rewrite Forall_forall in Hall. specialize (Hall x Hx). lia. }
  destruct (lt_nan _ 0) eqn:Hlt; [|done].
  apply lt_nan_min, Exists_exists in Hlt as (x & Hx & Hlt).
  rewrite Forall_forall in Hall. specialize (Hall x Hx). lia.
Qed.

Lemma fmap_ext_Forall {A B} (f g : A → B) (P : A → Prop) l :
  Forall P l → (∀ x, P x → f x = g x) → f <$> l = g <$> l.
Proof.
  intros Hall Hfg. apply Forall_fmap_ext_1. eapply Forall_impl; eauto.
Qed.

Lemma converted_180 r :
  gt_nan (index_max (lon r)) 180 = true →
  converted r = with_lon (np_sort (to_180 <$> lon r)) r.
Proof. intros H. unfold converted. by rewrite H. Qed.

Lemma converted_360 r :
  gt_nan (index_max (lon r)) 180 = false → lt_nan (index_min (lon r)) 0 = true →
  converted r = with_lon (np_sort (to_360 <$> lon r)) r.
Proof. intros H1 H2. unfold converted. by rewrite H1, H2. Qed.

Lemma converted_id r :
  gt_nan (index_max (lon r)) 180 = false → lt_nan (index_min (lon r)) 0 = false →
  converted r = r.
Proof. intros H1 H2. unfold converted. by rewrite H1, H2. Qed.

Lemma converted_twice_lon r :
  toggles_back (lon r) →
  lon (converted (converted r)) = lon r ∨
  lon (converted (converted r)) = np_sort (lon r).
Proof.
  intros Hback.
  destruct (gt_nan (index_max (lon r)) 180) eqn:Hgt;
    [|destruct (lt_nan (index_min (lon r)) 0) eqn:Hlt].
  - (* first call: to [-180, 180) *)
    right. rewrite (converted_180 r Hgt).
    apply gt_nan_max, Exists_exists in Hgt as (x & Hx & Hx180).
    destruct Hback as [Hall|[Hall _]].
    2:{ rewrite Forall_forall in Hall. specialize (Hall x Hx). lia. }
    rewrite converted_360; simpl.
    + rewrite (np_sort_proper (to_360 <$> np_sort (to_180 <$> lon r))
                              (to_360 <$> (to_180 <$> lon r)))
        by (by rewrite np_sort_Permutation).
      rewrite <- list_fmap_compose.
      rewrite (fmap_ext_Forall _ id _ _ Hall), list_fmap_id; [done|].
      intros v Hv. simpl. by apply to_360_to_180.
    + apply not_true_iff_false. intros Hgt'.
      apply gt_nan_max, Exists_exists in Hgt' as (y & Hy & Hy180).
      rewrite np_sort_Permutation in Hy.
      apply list_elem_of_fmap in Hy as (v & -> & _).
      pose proof (to_180_range v). lia.
    + apply lt_nan_min, Exists_exists. exists (to_180 x). split.
      * rewrite np_sort_Permutation. by apply list_elem_of_fmap_2.
      * rewrite Forall_forall in Hall. specialize (Hall x Hx).
        rewrite to_180_high; lia.
  - (* first call: to [0, 360) *)
    right. rewrite (converted_360 r Hgt Hlt).
    apply lt_nan_min in Hlt.
    destruct Hback as [Hall|[Hall Hneg]].
    1:{ apply Exists_exists in Hlt as (x & Hx & Hx0).
        rewrite Forall_forall in Hall. specialize (Hall x Hx). lia. }
    apply Hneg, Exists_exists in Hlt as (x & Hx & Hx0).
    rewrite converted_180; simpl.
    + rewrite (np_sort_proper (to_180 <$> np_sort (to_360 <$> lon r))
                              (to_180 <$> (to_360 <$> lon r)))
        by (by rewrite np_sort_Permutation).
      rewrite <- list_fmap_compose.
      rewrite (fmap_ext_Forall _ id _ _ Hall), list_fmap_id; [done|].
      intros v Hv. simpl. by apply to_180_to_360.
    + apply gt_nan_max, Exists_exists. exists (to_360 x). split.
      * rewrite np_sort_Permutation. by apply list_elem_of_fmap_2.
      * rewrite to_360_negative by (unfold int64_min; lia). lia.
  - left. by rewrite !(converted_id r Hgt Hlt).
Qed.


End RasterProperties.

Lemma str_length_app (s t : string) :
  String.length (s +:+ t) = (String.length s + String.length t)%nat.
Proof. induction s as [|c s IH]; [done|]. rewrite str_app_cons. simpl. by rewrite IH. Qed.

Lemma str_app_assoc (s t u : string) : (s +:+ t) +:+ u = s +:+ (t +:+ u).
Proof. induction s as [|c s IH]; [done|]. rewrite !str_app_cons. by rewrite IH. Qed.

Lemma str_app_inj_r (s1 s2 t : string) : s1 +:+ t = s2 +:+ t → s1 = s2.
Proof.
  revert s2. induction s1 as [|c s1 IH]; intros [|c' s2] Heq; [done|..].
  - apply (f_equal String.length) in Heq.
    rewrite !str_length_app in Heq. simpl in Heq. lia.
  - apply (f_equal String.length) in Heq.
    rewrite !str_length_app in Heq. simpl in Heq. lia.
  - rewrite !str_app_cons in Heq. injection Heq as -> Heq. f_equal. by apply IH.
Qed.

Lemma stat_column_inj (stat1 stat2 feature_col : string) :
  stat1 +:+ "_" +:+ feature_col = stat2 +:+ "_" +:+ feature_col → stat1 = stat2.
Proof. apply str_app_inj_r. Qed.

Lemma quantile_column_inj (quant1 quant2 : Z) (feature_col : string) :
  pretty quant1 +:+ "quant_" +:+ feature_col = pretty quant2 +:+ "quant_" +:+ feature_col →
  quant1 = quant2.
Proof. intros Heq%str_app_inj_r. by apply (inj pretty). Qed.

Lemma stat_column_not_quantile (stat : string) (quant : Z) (feature_col : string) :
  stat ∈ default_stats →
  pretty quant +:+ "quant_" +:+ feature_col ≠ stat +:+ "_" +:+ feature_col.
Proof.
  intros Hstat Heq.
  change ("quant_" +:+ feature_col) with ("quant" +:+ ("_" +:+ feature_col)) in Heq.
  rewrite <- str_app_assoc in Heq. apply str_app_inj_r in Heq.
  pose proof (f_equal String.length Heq) as Hlen. rewrite str_length_app in Hlen.
  unfold default_stats in Hstat.
  repeat (apply elem_of_cons in Hstat as [->|Hstat]); try (simpl in Hlen; lia).
  - destruct (pretty quant); [discriminate Heq|]. simpl in Hlen. lia.
  - by apply elem_of_nil in Hstat.
Qed.

Lemma stat_column_not_feature (stat feature_col : string) :
  feature_col ≠ stat +:+ "_" +:+ feature_col.
Proof.
  intros Heq. apply (f_equal String.length) in Heq.
  rewrite !str_length_app in Heq. simpl in Heq. lia.
Qed.

Lemma quantile_column_not_feature (quant : Z) (feature_col : string) :
  feature_col ≠ pretty quant +:+ "quant_" +:+ feature_col.
Proof.
  intros Heq. apply (f_equal String.length) in Heq.
  rewrite !str_length_app in Heq. simpl in Heq. lia.
Qed.

Lemma stat_column_not_spatial_ref (stat feature_col : string) :
  stat ∈ default_stats → stat +:+ "_" +:+ feature_col ≠ "spatial_ref"%string.
Proof.
  intros Hstat. unfold default_stats in Hstat.
  repeat (apply elem_of_cons in Hstat as [->|Hstat]); [..|by apply elem_of_nil in Hstat];
    rewrite !str_app_cons; discriminate.
Qed.

Lemma quantile_column_not_spatial_ref (prefix feature_col : string) :
  prefix +:+ "quant_" +:+ feature_col ≠ "spatial_ref"%string.
Proof.
  intros Heq.
  assert (str_in "quant_" "spatial_ref" = true) as Hin.
  { apply str_in_spec. exists prefix, feature_col. by rewrite <- Heq. }
  vm_compute in Hin. discriminate Hin.
Qed.

Section StatisticsProperties.
Context {V : Type}.
Context (np_reduce : string → list V → option V) (np_quantile : Z → list V → option V).
Context {Geom : Type} (rio_clip : @DataArray V → list Geom → bool → Res (@DataArray V)).
Context (xr_other : @DataArray V → string → Kwargs → Res (list (@Entry V))).
Implicit Types (w : @World V) (r : @DataArray V) (self : Aat).

Lemma mapM_Res_ok {A B} (f : A → Res B) (l : list A) :
  Forall (λ x, ∃ y, f x = Ok y) l →
  ∃ ys, mapM f l = Ok ys ∧ Forall2 (λ x y, f x = Ok y) l ys.
Proof.
  induction 1 as [|x l [y Hy] _ (ys & Hys & Hall)].
  - exists []. split; [done|constructor].
  - exists (y :: ys). split; [|by constructor].
    change (mapM f (x :: l)) with (f x ≫= λ y, mapM f l ≫= λ k, mret (y :: k)).
    by rewrite Hy, Hys.
Qed.

Lemma stat_kwargs_sum : stat_kwargs "sum" = {| skipna := Some true; min_count := Some 1%nat |}.
Proof. reflexivity. Qed.

Lemma valid_all_missing (cells : list (option V)) :
  Forall (λ c, c = None) cells → valid cells = [].
Proof. induction 1 as [|c cells -> _ IH]; [done|]. exact IH. Qed.

Lemma xr_reduce_supported stat cells :
  stat ∈ default_stats →
  ∃ e, xr_reduce np_reduce stat (stat_kwargs stat) cells = Ok e.
Proof.
  intros Hstat. unfold default_stats in Hstat.
  repeat (apply elem_of_cons in Hstat as [->|Hstat]); [..|by apply elem_of_nil in Hstat];
    unfold xr_reduce; simpl.
  - destruct (valid cells); eauto.
  - destruct (valid cells); eauto.
  - destruct (valid cells); eauto.
  - destruct (valid cells); eauto.
  - case_bool_decide; eauto.
  - eauto.
Qed.

Lemma xr_reduce_sum_all_missing cells :
  Forall (λ c, c = None) cells →
  xr_reduce np_reduce "sum" (stat_kwargs "sum") cells = Ok NaN.
Proof. intros Hmissing. unfold xr_reduce. simpl. by rewrite valid_all_missing. Qed.

Lemma xr_quantile_supported quant cells :
  0 ≤ quant ≤ 100 → ∃ e, xr_quantile np_quantile quant cells = Ok e.
Proof.
  intros Hq. unfold xr_quantile. rewrite bool_decide_eq_true_2 by done.
  destruct (valid cells); eauto.
Qed.

Lemma reduce_spatial_ok (da_clip : @DataArray V) new_name f :
  (∀ cells, ∃ e, f cells = Ok e) →
  ∃ g, reduce_spatial da_clip new_name f = Ok g ∧
       name g = new_name ∧ rdims g = extra_dims da_clip ∧
       Forall2 (λ k e, f (window da_clip k) = Ok e)
               (seq 0 (length (combinations (extra_dims da_clip)))) (rvalues g).
Proof.
  intros Hf. unfold reduce_spatial.
  destruct (mapM_Res_ok (λ k, f (window da_clip k))
              (seq 0 (length (combinations (extra_dims da_clip))))) as (ys & Hys & Hall).
  { apply Forall_forall. intros k _. apply Hf. }
  rewrite Hys. simpl. eexists. split; [reflexivity|]. done.
Qed.

(** The result of one reduction of a clipped array. *)
Lemma reduce_spatial_inv (da_clip : @DataArray V) new_name f g :
  (∀ cells, ∃ e, f cells = Ok e) →
  reduce_spatial da_clip new_name f = Ok g →
  name g = new_name ∧ rdims g = extra_dims da_clip ∧
  ∀ k, (k < length (combinations (extra_dims da_clip)))%nat →
       ∃ e, rvalues g !! k = Some e ∧ f (window da_clip k) = Ok e.
Proof.
  intros Hf Hg.
  destruct (reduce_spatial_ok da_clip new_name f Hf) as (g' & Hg' & Hn & Hd & Hvals).
  assert (g' = g) as -> by congruence.
  split_and!; [done..|]. intros k Hk.
  destruct (Forall2_lookup_l _ _ _ k k Hvals) as (e & He & Hke); [by apply lookup_seq_lt|].
  eauto.
Qed.

(** ** The loop over features *)

Lemma combinations_step_length (d : string) (labels : list Z)
    (cs : list (list (string * Z))) :
  length (labels ≫= λ l, cs ≫= λ c, [(d, l) :: c]) = (length labels * length cs)%nat.
Proof.
  induction labels as [|l labels IH]; [done|].
  rewrite bind_cons, length_app, IH. simpl. f_equal.
  clear IH. induction cs as [|c cs IHc]; [done|].
  rewrite bind_cons. simpl. by f_equal.
Qed.

Lemma combinations_length (ds : list (string * list Z)) :
  length (combinations ds) = foldr (λ d n, (length d.2 * n)%nat) 1%nat ds.
Proof.
  induction ds as [|[d labels] ds IH]; [done|].
  simpl. rewrite <- IH. apply combinations_step_length.
Qed.

Lemma combinations_keys (ds : list (string * list Z)) combo :
  combo ∈ combinations ds → combo.*1 = ds.*1.
Proof.
  revert combo. induction ds as [|[d labels] ds IH]; intros combo; simpl.
  - by intros ->%list_elem_of_singleton.
  - intros (l & Hin & Hl)%list_elem_of_bind.
    apply list_elem_of_bind in Hin as (c & Hin & Hc).
    apply list_elem_of_singleton in Hin as ->. simpl. f_equal. by apply IH.
Qed.

Lemma columns_of_lookup (pairs : list (string * @Entry V)) (acc : gmap string (@Entry V))
    (k : string) (v : @Entry V) :
  (∃ p, p ∈ pairs ∧ p.1 = k) →
  (∀ p, p ∈ pairs → p.1 = k → p.2 = v) →
  foldl (λ row p, <[p.1 := p.2]> row) acc pairs !! k = Some v.
Proof.
  induction pairs as [|p pairs IH] using rev_ind; intros (p0 & Hp0 & Hk0) Hall.
  - by apply elem_of_nil in Hp0.
  - rewrite foldl_app. simpl.
    destruct (decide (p.1 = k)) as [Hpk|Hpk].
    + rewrite Hpk, lookup_insert_eq. f_equal. apply Hall; [|done].
      apply elem_of_app. right. constructor.
    + rewrite lookup_insert_ne by done. apply IH.
      * exists p0. split; [|done].
        apply elem_of_app in Hp0 as [?|Hp0]; [done|].
        apply list_elem_of_singleton in Hp0. congruence.
      * intros q Hq. apply Hall, elem_of_app. by left.
Qed.

Lemma unique_value_of_key {A} (l : list (string * A)) d z z' :
  NoDup (l.*1) → (d, z) ∈ l → (d, z') ∈ l → z = z'.
Proof.
  intros Hnd [i Hi]%list_elem_of_lookup [j Hj]%list_elem_of_lookup.
  assert (l.*1 !! i = Some d) as Hi1 by (by rewrite list_lookup_fmap, Hi).
  assert (l.*1 !! j = Some d) as Hj1 by (by rewrite list_lookup_fmap, Hj).
  pose proof (NoDup_lookup _ _ _ _ Hnd Hi1 Hj1) as ->. congruence.
Qed.

(** The frame built from the reduced arrays, when no array is named as
    one of its coordinates. *)
Lemma frame_rows (grid_stat_all : list (@Reduced V)) first :
  head grid_stat_all = Some first →
  Forall (λ da_stat, name da_stat ∉ coords da_stat) grid_stat_all →
  ∃ df_adm,
    match rdims first with
    | [] => Ok (scalar_frame grid_stat_all)
    | _ => merged_frame first grid_stat_all
    end = Ok df_adm ∧
    length df_adm = length (combinations (rdims first)) ∧
    ∀ k row, df_adm !! k = Some row →
      ∃ combo,
        combinations (rdims first) !! k = Some combo ∧
        row = columns_of (((λ p : string * Z, (p.1, Label p.2)) <$> combo) ++
                          ((λ da_stat, (name da_stat, default NaN (rvalues da_stat !! k)))
                             <$> grid_stat_all)).
Proof.
  intros Hhead Hfree.
  destruct (rdims first) as [|d ds] eqn:Hd.
  - eexists. split; [reflexivity|]. split; [done|].
    intros k row. unfold scalar_frame. destruct k as [|k]; [|done]. intros [= <-].
    exists []. split; [done|]. simpl. f_equal.
    apply list_fmap_ext. intros i g _. by rewrite head_lookup.
  - unfold merged_frame. rewrite bool_decide_eq_false_2.
    2:{ intros (g & Hg & Hin)%Exists_exists.
        rewrite Forall_forall in Hfree. by apply (Hfree g Hg). }
    rewrite Hd. eexists. split; [reflexivity|]. split; [by rewrite length_imap|].
    intros k row. rewrite list_lookup_imap.
    destruct (combinations (d :: ds) !! k) as [combo|]; [|done].
    intros [= <-]. by exists combo.
Qed.

Lemma feature_frame_skip w r gdf feature_col stats percentiles all_touched feature :
  clip_of rio_clip r gdf all_touched feature = Raise NoDataInBounds →
  feature_frame np_reduce np_quantile rio_clip xr_other r gdf feature_col stats
                percentiles all_touched feature w
  = (Ok None, {| heap := heap w; log := log w ++ [skip_warning feature] |}).
Proof.
  unfold clip_of. intros Hclip. unfold feature_frame, try_except. run.
  rewrite Hclip. done.
Qed.

(** The reduced arrays of one overlapping feature. *)
Lemma reduced_arrays (da_clip : @DataArray V) feature_col stats percentiles :
  supported_request stats percentiles →
  ∃ gs gq,
    mapM (λ stat, getattr_reduce np_reduce xr_other da_clip stat (stat_kwargs stat)
                                 (stat +:+ "_" +:+ feature_col)) stats
      = Ok gs ∧
    mapM (λ quant, reduce_spatial da_clip (pretty quant +:+ "quant_" +:+ feature_col)
                     (xr_quantile np_quantile quant)) (default [] percentiles)
      = Ok gq ∧
    (∀ stat, stat ∈ stats → ∃ g, g ∈ gs ∧ name g = stat +:+ "_" +:+ feature_col) ∧
    (∀ quant, quant ∈ default [] percentiles →
       ∃ g, g ∈ gq ∧ name g = pretty quant +:+ "quant_" +:+ feature_col) ∧
    (∀ g, g ∈ gs →
       ∃ stat, stat ∈ stats ∧ name g = stat +:+ "_" +:+ feature_col ∧
               rdims g = extra_dims da_clip ∧
               ∀ k, (k < length (combinations (extra_dims da_clip)))%nat →
                    ∃ e, rvalues g !! k = Some e ∧
                         xr_reduce np_reduce stat (stat_kwargs stat)
                                   (window da_clip k) = Ok e) ∧
    (∀ g, g ∈ gq →
       ∃ quant, quant ∈ default [] percentiles ∧
                name g = pretty quant +:+ "quant_" +:+ feature_col ∧
                rdims g = extra_dims da_clip ∧
                ∀ k, (k < length (combinations (extra_dims da_clip)))%nat →
                     ∃ e, rvalues g !! k = Some e ∧
                          xr_quantile np_quantile quant (window da_clip k) = Ok e) ∧
    (match percentiles with Some _ => gs ++ gq | None => gs end ≠ []).
Proof.
  intros (Hstats & Hpct & Hne).
  assert (∀ stat, stat ∈ stats →
            ∀ cells, ∃ e, xr_reduce np_reduce stat (stat_kwargs stat) cells
                          = Ok e) as Hred.
  { intros stat Hstat cells. apply xr_reduce_supported.
    rewrite Forall_forall in Hstats. by apply Hstats. }
  assert (∀ quant, quant ∈ default [] percentiles →
            ∀ cells, ∃ e, xr_quantile np_quantile quant cells = Ok e) as Hquant.
  { intros quant Hq cells. apply xr_quantile_supported.
    rewrite Forall_forall in Hpct. by apply Hpct. }
  assert (∀ stat, stat ∈ stats →
            getattr_reduce np_reduce xr_other da_clip stat (stat_kwargs stat)
                           (stat +:+ "_" +:+ feature_col)
            = reduce_spatial da_clip (stat +:+ "_" +:+ feature_col)
                             (xr_reduce np_reduce stat (stat_kwargs stat))) as Hget.
  { intros stat Hstat. unfold getattr_reduce.
    rewrite bool_decide_eq_true_2; [done|].
    rewrite Forall_forall in Hstats. by apply Hstats. }
  destruct (mapM_Res_ok (λ stat, getattr_reduce np_reduce xr_other da_clip stat
                                   (stat_kwargs stat) (stat +:+ "_" +:+ feature_col))
              stats) as (gs & Hgs & Hgs2).
  { apply Forall_forall. intros stat Hstat. rewrite (Hget stat Hstat).
    destruct (reduce_spatial_ok da_clip (stat +:+ "_" +:+ feature_col) _ (Hred stat Hstat))
      as (g & Hg & _). eauto. }
  destruct (mapM_Res_ok (λ quant, reduce_spatial da_clip
                                    (pretty quant +:+ "quant_" +:+ feature_col)
                                    (xr_quantile np_quantile quant))
              (default [] percentiles)) as (gq & Hgq & Hgq2).
  { apply Forall_forall. intros quant Hq.
    destruct (reduce_spatial_ok da_clip (pretty quant +:+ "quant_" +:+ feature_col) _
                (Hquant quant Hq)) as (g & Hg & _). eauto. }
  exists gs, gq. split_and!; [done|done|..].
  - intros stat Hstat. pose proof Hstat as [i Hi]%list_elem_of_lookup.
    destruct (Forall2_lookup_l _ _ _ _ _ Hgs2 Hi) as (g & Hgi & Hg').
    rewrite (Hget stat Hstat) in Hg'.
    destruct (reduce_spatial_inv _ _ _ _ (Hred stat Hstat) Hg') as (Hn & _).
    exists g. split; [by eapply list_elem_of_lookup_2|done].
  - intros quant Hq. pose proof Hq as [i Hi]%list_elem_of_lookup.
    destruct (Forall2_lookup_l _ _ _ _ _ Hgq2 Hi) as (g & Hgi & Hg').
    destruct (reduce_spatial_inv _ _ _ _ (Hquant quant Hq) Hg') as (Hn & _).
    exists g. split; [by eapply list_elem_of_lookup_2|done].
  - intros g [i Hi]%list_elem_of_lookup.
    destruct (Forall2_lookup_r _ _ _ _ _ Hgs2 Hi) as (stat & Hstat & Hg').
    apply list_elem_of_lookup_2 in Hstat.
    rewrite (Hget stat Hstat) in Hg'.
    destruct (reduce_spatial_inv _ _ _ _ (Hred stat Hstat) Hg') as (Hn & Hd & Hv).
    exists stat. done.
  - intros g [i Hi]%list_elem_of_lookup.
    destruct (Forall2_lookup_r _ _ _ _ _ Hgq2 Hi) as (quant & Hq & Hg').
    apply list_elem_of_lookup_2 in Hq.
    destruct (reduce_spatial_inv _ _ _ _ (Hquant quant Hq) Hg') as (Hn & Hd & Hv).
    exists quant. done.
  - pose proof (Forall2_length _ _ _ Hgs2) as Hl1.
    pose proof (Forall2_length _ _ _ Hgq2) as Hl2.
    destruct Hne as [Hne|Hne].
    + destruct stats; [done|]. destruct gs; [done|]. by destruct percentiles.
    + destruct percentiles as [pl|]; [|done]. simpl in *.
      destruct pl; [done|]. destruct gq; [done|]. by destruct gs.
Qed.

(** The block of one overlapping feature, cell by cell. *)
Lemma feature_frame_cells r (gdf : list (string * Geom)) feature_col stats percentiles
    all_touched feature da_clip :
  clip_of rio_clip r gdf all_touched feature = Ok da_clip →
  supported_request stats percentiles →
  clash_free feature_col stats percentiles (extra_dims da_clip) →
  ∃ block,
    (∀ w, feature_frame np_reduce np_quantile rio_clip xr_other r gdf feature_col stats
                        percentiles all_touched feature w = (Ok (Some block), w)) ∧
    block_of feature_col (length (combinations (extra_dims da_clip))) feature block ∧
    stat_cells np_reduce feature_col stats da_clip block ∧
    quantile_cells np_quantile feature_col percentiles da_clip block ∧
    (NoDup (extra_dims da_clip).*1 → label_cells feature_col da_clip block).
Proof.
  unfold clip_of. intros Hclip Hreq Hfree.
  destruct (reduced_arrays da_clip feature_col stats percentiles Hreq)
    as (gs & gq & Hgs & Hgq & Hhas_s & Hhas_q & Hfrom_s & Hfrom_q & Hnil).
  destruct Hreq as (Hstats & Hpct & _).
  rewrite Forall_forall in Hstats.
  set (grid_stat_all := match percentiles with Some _ => gs ++ gq | None => gs end) in *.
  assert (∀ g, g ∈ grid_stat_all → g ∈ gs ∨ (g ∈ gq ∧ percentiles ≠ None)) as Hsplit.
  { intros g Hg. subst grid_stat_all. destruct percentiles.
    - apply elem_of_app in Hg as [?|?]; [by left|by right].
    - by left. }
  assert (∀ g, g ∈ gs → g ∈ grid_stat_all) as Hin_s.
  { intros g Hg. subst grid_stat_all. destruct percentiles; [|done].
    apply elem_of_app. by left. }
  assert (∀ quant g, quant ∈ default [] percentiles → g ∈ gq → g ∈ grid_stat_all) as Hin_q.
  { intros quant g Hq Hg. subst grid_stat_all. destruct percentiles; [|by apply elem_of_nil in Hq].
    apply elem_of_app. by right. }
  assert (∀ g, g ∈ grid_stat_all →
            rdims g = extra_dims da_clip ∧
            name g ∈ column_names feature_col stats percentiles) as Hnames.
  { intros g Hg. unfold column_names.
    destruct (Hsplit g Hg) as [Hg'|[Hg' _]].
    - destruct (Hfrom_s g Hg') as (stat & Hstat & -> & Hd & _). split; [done|].
      apply elem_of_app. left.
      by apply (list_elem_of_fmap_2 (λ stat, stat +:+ "_" +:+ feature_col)).
    - destruct (Hfrom_q g Hg') as (quant & Hq & -> & Hd & _). split; [done|].
      apply elem_of_app. right.
      by apply (list_elem_of_fmap_2 (λ quant : Z, pretty quant +:+ "quant_" +:+ feature_col)). }
  assert (Forall (λ da_stat, name da_stat ∉ coords da_stat) grid_stat_all) as Hcoords.
  { apply Forall_forall. intros g Hg. destruct (Hnames g Hg) as [Hd Hname].
    unfold coords. rewrite Hd. intros [Hdim|Href]%elem_of_app.
    - unfold clash_free in Hfree. rewrite Forall_forall in Hfree.
      by apply (Hfree _ Hname).
    - apply list_elem_of_singleton in Href.
      destruct (Hsplit g Hg) as [Hg'|[Hg' _]].
      + destruct (Hfrom_s g Hg') as (stat & Hstat & Hn & _). rewrite Hn in Href.
        by apply stat_column_not_spatial_ref in Href; [|apply Hstats].
      + destruct (Hfrom_q g Hg') as (quant & Hq & Hn & _). rewrite Hn in Href.
        by apply quantile_column_not_spatial_ref in Href. }
  assert (∃ first, head grid_stat_all = Some first) as [first Hfirst].
  { destruct grid_stat_all; [done|]. eauto. }
  assert (rdims first = extra_dims da_clip) as Hfd.
  { apply Hnames. destruct grid_stat_all; [done|]. injection Hfirst as ->. constructor. }
  destruct (frame_rows grid_stat_all first Hfirst Hcoords) as (df_adm & Hframe & Hlen & Hrows).
  rewrite Hfd in Hlen, Hrows.
  exists (insert feature_col (Feature feature) <$> df_adm).
  assert (∀ k row, (insert feature_col (Feature feature) <$> df_adm) !! k = Some row →
            (k < length (combinations (extra_dims da_clip)))%nat ∧
            ∃ combo,
              combinations (extra_dims da_clip) !! k = Some combo ∧
              row = <[feature_col := Feature feature]>
                      (columns_of (((λ p : string * Z, (p.1, Label p.2)) <$> combo) ++
                                   ((λ da_stat, (name da_stat,
                                                 default NaN (rvalues da_stat !! k)))
                                      <$> grid_stat_all)))) as Hrow.
  { intros k row Hk. rewrite list_lookup_fmap in Hk.
    destruct (df_adm !! k) as [row0|] eqn:Hrow0; [|done]. injection Hk as <-.
    split; [rewrite <- Hlen; by eapply lookup_lt_Some|].
    destruct (Hrows k row0 Hrow0) as (combo & Hcombo & ->). by exists combo. }
  split_and!.
  - intros w. unfold feature_frame, try_except. run. rewrite Hclip. simpl.
    rewrite Hgs. simpl.
    destruct percentiles as [pl|]; simpl in *.
    + rewrite Hgq. simpl. fold grid_stat_all. rewrite Hfirst. simpl.
      rewrite Hframe. reflexivity.
    + fold grid_stat_all. rewrite Hfirst. simpl. rewrite Hframe. reflexivity.
  - split; [by rewrite length_fmap|].
    apply Forall_fmap, Forall_forall. intros row _. simpl. by rewrite lookup_insert_eq.
  - (* statistic columns *)
    intros k row stat Hk Hstat.
    destruct (Hrow k row Hk) as (Hlt & combo & Hcombo & ->).
    destruct (xr_reduce_supported stat (window da_clip k) (Hstats stat Hstat))
      as [e He].
    rewrite He. rewrite lookup_insert_ne by apply stat_column_not_feature.
    unfold columns_of. erewrite columns_of_lookup; [reflexivity| |].
    + destruct (Hhas_s stat Hstat) as (g & Hg & Hname).
      exists (name g, default NaN (rvalues g !! k)). split; [|done].
      apply elem_of_app. right.
      apply (list_elem_of_fmap_2 (λ da_stat, (name da_stat, default NaN (rvalues da_stat !! k)))).
      by apply Hin_s.
    + intros p Hp Hkey. apply elem_of_app in Hp as [Hp|Hp].
      * apply list_elem_of_fmap in Hp as ([d lbl] & -> & Hd). simpl in Hkey.
        exfalso. unfold clash_free in Hfree. rewrite Forall_forall in Hfree.
        apply (Hfree (stat +:+ "_" +:+ feature_col)).
        -- unfold column_names. apply elem_of_app. left.
           by apply (list_elem_of_fmap_2 (λ stat, stat +:+ "_" +:+ feature_col)).
        -- rewrite <- (combinations_keys _ combo) by (by eapply list_elem_of_lookup_2).
           rewrite <- Hkey. by apply (list_elem_of_fmap_2 fst _ (d, lbl)).
      * apply list_elem_of_fmap in Hp as (g & -> & Hg). simpl in *.
        destruct (Hsplit g Hg) as [Hg'|[Hg' _]].
        -- destruct (Hfrom_s g Hg') as (stat' & Hstat' & Hn & _ & Hv).
           rewrite Hn in Hkey. apply stat_column_inj in Hkey as ->.
           destruct (Hv k Hlt) as (e' & -> & He'). simpl. congruence.
        -- destruct (Hfrom_q g Hg') as (quant & Hq & Hn & _).
           rewrite Hn in Hkey. exfalso.
           eapply stat_column_not_quantile; [|exact Hkey]. by apply Hstats.
  - (* percentile columns *)
    intros k row quant Hk Hq.
    destruct (Hrow k row Hk) as (Hlt & combo & Hcombo & ->).
    rewrite Forall_forall in Hpct.
    destruct (xr_quantile_supported quant (window da_clip k) (Hpct quant Hq)) as [e He].
    rewrite He. rewrite lookup_insert_ne by apply quantile_column_not_feature.
    unfold columns_of. erewrite columns_of_lookup; [reflexivity| |].
    + destruct (Hhas_q quant Hq) as (g & Hg & Hname).
      exists (name g, default NaN (rvalues g !! k)). split; [|done].
      apply elem_of_app. right.
      apply (list_elem_of_fmap_2 (λ da_stat, (name da_stat, default NaN (rvalues da_stat !! k)))).
      by eapply Hin_q.
    + intros p Hp Hkey. apply elem_of_app in Hp as [Hp|Hp].
      * apply list_elem_of_fmap in Hp as ([d lbl] & -> & Hd). simpl in Hkey.
        exfalso. unfold clash_free in Hfree. rewrite Forall_forall in Hfree.
        apply (Hfree (pretty quant +:+ "quant_" +:+ feature_col)).
        -- unfold column_names. apply elem_of_app. right.
           by apply (list_elem_of_fmap_2
                       (λ quant : Z, pretty quant +:+ "quant_" +:+ feature_col)).
        -- rewrite <- (combinations_keys _ combo) by (by eapply list_elem_of_lookup_2).
           rewrite <- Hkey. by apply (list_elem_of_fmap_2 fst _ (d, lbl)).
      * apply list_elem_of_fmap in Hp as (g & -> & Hg). simpl in *.
        destruct (Hsplit g Hg) as [Hg'|[Hg' _]].
        -- destruct (Hfrom_s g Hg') as (stat & Hstat & Hn & _).
           rewrite Hn in Hkey. exfalso.
           eapply stat_column_not_quantile; [|symmetry; exact Hkey]. by apply Hstats.
        -- destruct (Hfrom_q g Hg') as (quant' & Hq' & Hn & _ & Hv).
           rewrite Hn in Hkey. apply quantile_column_inj in Hkey as ->.
           destruct (Hv k Hlt) as (e' & -> & He'). simpl. congruence.
  - (* label columns *)
    intros Hnd k row combo d z Hk Hcombo Hdz Hd.
    destruct (Hrow k row Hk) as (Hlt & combo' & Hcombo' & ->).
    assert (combo' = combo) as -> by congruence.
    pose proof (combinations_keys _ combo (list_elem_of_lookup_2 _ _ _ Hcombo)) as Hkeys.
    rewrite lookup_insert_ne by done.
    unfold columns_of. apply columns_of_lookup.
    + exists (d, Label z). split; [|done]. apply elem_of_app. left.
      by apply (list_elem_of_fmap_2 (λ p : string * Z, (p.1, Label p.2)) _ (d, z)).
    + intros p Hp Hkey. apply elem_of_app in Hp as [Hp|Hp].
      * apply list_elem_of_fmap in Hp as ([d' z'] & -> & Hd'). simpl in *. subst d'.
        f_equal. eapply unique_value_of_key; [|exact Hd'|exact Hdz]. by rewrite Hkeys.
      * apply list_elem_of_fmap in Hp as (g & -> & Hg). simpl in *.
        exfalso. destruct (Hnames g Hg) as [_ Hname].
        unfold clash_free in Hfree. rewrite Forall_forall in Hfree.
        apply (Hfree _ Hname). rewrite Hkey, <- Hkeys.
        by apply (list_elem_of_fmap_2 fst _ (d, z)).
Qed.

Lemma for_features_spec (body : string → M (@World V) (option (list (gmap string (@Entry V)))))
    (ok : string → bool) (P : string → list (gmap string (@Entry V)) → Prop)
    (features : list string) :
  (∀ f, f ∈ features → ok f = false →
     ∀ w, body f w = (Ok None, {| heap := heap w; log := log w ++ [skip_warning f] |})) →
  (∀ f, f ∈ features → ok f = true →
     ∃ block, (∀ w, body f w = (Ok (Some block), w)) ∧ P f block) →
  ∀ df_list w,
  ∃ blocks w',
    for_features body features df_list w = (Ok (df_list ++ blocks), w') ∧
    heap w' = heap w ∧
    log w' = log w ++ (skip_warning <$> filter (λ f, ok f = false) features) ∧
    Forall2 P (filter (λ f, ok f = true) features) blocks.
Proof.
  induction features as [|f fs IH]; intros Hskip Hok df_list w.
  - exists [], w. simpl. rewrite !app_nil_r. split_and!; by try constructor.
  - assert (∀ g, g ∈ fs → g ∈ f :: fs) as Hin by (intros; by right).
    specialize (IH (λ g Hg, Hskip g (Hin g Hg)) (λ g Hg, Hok g (Hin g Hg))).
    destruct (ok f) eqn:Hf.
    + destruct (Hok f (list_elem_of_here _ _) Hf) as (block & Hrun & HP).
      destruct (IH (df_list ++ [block]) w) as (blocks & w' & Hfor & Hheap & Hlog & Hall).
      exists (block :: blocks), w'.
      rewrite (filter_cons_True (λ f, ok f = true)) by done.
      rewrite (filter_cons_False (λ f, ok f = false)) by (rewrite Hf; done).
      split_and!; try done; [|by constructor].
      simpl. unfold mbind, M_bind. rewrite Hrun, Hfor.
      by rewrite <- app_assoc.
    + pose proof (Hskip f (list_elem_of_here _ _) Hf w) as Hrun.
      destruct (IH df_list {| heap := heap w; log := log w ++ [skip_warning f] |})
        as (blocks & w' & Hfor & Hheap & Hlog & Hall).
      exists blocks, w'.
      rewrite (filter_cons_False (λ f, ok f = true)) by (rewrite Hf; done).
      rewrite (filter_cons_True (λ f, ok f = false)) by done.
      split_and!; try done.
      * simpl. unfold mbind, M_bind. by rewrite Hrun, Hfor.
      * rewrite Hlog. simpl. by rewrite <- app_assoc.
Qed.

Lemma unique_spec (l : list string) :
  NoDup (unique l) ∧ ∀ x, x ∈ unique l ↔ x ∈ l.
Proof.
  unfold unique.
  assert (∀ seen, NoDup seen →
            NoDup (foldl (λ seen x, if bool_decide (x ∈ seen) then seen else seen ++ [x])
                         seen l) ∧
            ∀ x, x ∈ foldl (λ seen x, if bool_decide (x ∈ seen) then seen else seen ++ [x])
                           seen l ↔ x ∈ seen ∨ x ∈ l) as H.
  { induction l as [|y l IH]; intros seen Hnd; simpl.
    - split; [done|]. intros x. rewrite elem_of_nil. tauto.
    - case_bool_decide as Hy.
      + destruct (IH seen Hnd) as [Hnd' Hin]. split; [done|].
        intros x. rewrite Hin, elem_of_cons. split; [tauto|].
        intros [?|[->|?]]; tauto.
      + destruct (IH (seen ++ [y])) as [Hnd' Hin].
        { apply NoDup_app. split_and!; [done| |apply NoDup_singleton].
          intros x Hx ->%list_elem_of_singleton. done. }
        split; [done|]. intros x.
        rewrite Hin, elem_of_app, list_elem_of_singleton, elem_of_cons. tauto. }
  destruct (H [] (NoDup_nil_2)) as [Hnd Hin]. split; [done|].
  intros x. rewrite Hin, elem_of_nil. tauto.
Qed.

Lemma concat_blocks_length {A} (P : string → list A → Prop) n fs (blocks : list (list A)) :
  Forall2 (λ f block, length block = n ∧ P f block) fs blocks →
  length (concat blocks) = (length fs * n)%nat.
Proof.
  induction 1 as [|f block fs blocks [Hlen _] _ IH]; [done|].
  simpl. rewrite length_app, IH, Hlen. done.
Qed.

Lemma concat_blocks_lookup {A} n (blocks : list (list A)) i k block :
  Forall (λ b, length b = n) blocks →
  blocks !! i = Some block → (k < n)%nat →
  concat blocks !! (i * n + k)%nat = block !! k.
Proof.
  intros Hall. revert i. induction Hall as [|b bs Hb _ IH]; intros i Hi Hk; [done|].
  destruct i as [|i]; simpl in *.
  - injection Hi as ->. rewrite lookup_app_l by lia. done.
  - rewrite lookup_app_r by lia. rewrite <- (IH i Hi Hk). f_equal. lia.
Qed.

(** The table of one call: a block for each overlapping feature, a
    warning for each other one. *)
Lemma compute_raster_statistics_blocks
    w self r (c : string) (gdf : list (string * Geom)) (feature_col : string)
    (stats_list : option (list string)) (percentile_list : option (list Z))
    (all_touched : bool) :
  let features := unique (gdf.*1) in
  let stats := default default_stats stats_list in
  let n_combos := length (combinations (extra_dims r)) in
  let ok := overlaps rio_clip r gdf all_touched in
  heap w !! _obj self = Some r →
  crs r = Some c →
  supported_request stats percentile_list →
  clash_free feature_col stats percentile_list (extra_dims r) →
  (∀ f, f ∈ features →
     match clip_of rio_clip r gdf all_touched f with
     | Ok da_clip => extra_dims da_clip = extra_dims r
     | Raise e => e = NoDataInBounds
     end) →
  ∃ w' blocks,
    compute_raster_statistics np_reduce np_quantile rio_clip xr_other self gdf feature_col
                              stats_list percentile_list all_touched w
      = (pd_concat blocks, w') ∧
    log w' = log w ++ (skip_warning <$> filter (λ f, ok f = false) features) ∧
    Forall2 (λ f block,
               ∃ da_clip,
                 clip_of rio_clip r gdf all_touched f = Ok da_clip ∧
                 block_of feature_col n_combos f block ∧
                 stat_cells np_reduce feature_col stats da_clip block ∧
                 quantile_cells np_quantile feature_col percentile_list da_clip block ∧
                 (NoDup (extra_dims r).*1 → label_cells feature_col da_clip block))
            (filter (λ f, ok f = true) features) blocks.
Proof.
  intros features stats n_combos ok Hr Hcrs Hreq Hfree Hclip.
  destruct (get_obj_copy w self r Hr) as (l & w1 & Hrun & Hl & Hheap & Hlog).
  assert (heap w1 !! l = Some r) as Hl1 by (by rewrite Hheap, lookup_insert_eq).
  destruct (for_features_spec
              (feature_frame np_reduce np_quantile rio_clip xr_other r gdf feature_col
                 stats percentile_list all_touched)
              ok
              (λ f block,
                 ∃ da_clip,
                   clip_of rio_clip r gdf all_touched f = Ok da_clip ∧
                   block_of feature_col n_combos f block ∧
                   stat_cells np_reduce feature_col stats da_clip block ∧
                   quantile_cells np_quantile feature_col percentile_list da_clip block ∧
                   (NoDup (extra_dims r).*1 → label_cells feature_col da_clip block))
              features)
    with (df_list := @nil (list (gmap string (@Entry V)))) (w := w1)
    as (blocks & w' & Hfor & Hheap' & Hlog' & Hall).
  { intros f Hf Hok w0. apply feature_frame_skip.
    specialize (Hclip f Hf). subst ok. unfold overlaps in Hok.
    destruct (clip_of rio_clip r gdf all_touched f); [done|]. by subst. }
  { intros f Hf Hok. specialize (Hclip f Hf). subst ok. unfold overlaps in Hok.
    destruct (clip_of rio_clip r gdf all_touched f) as [da_clip|] eqn:Hc; [|done].
    destruct (feature_frame_cells r gdf feature_col stats percentile_list all_touched
                f da_clip Hc Hreq) as (block & Hb & Hblock & Hs & Hq & Hlab).
    { by rewrite Hclip. }
    exists block. split; [done|]. exists da_clip. subst n_combos.
    rewrite <- Hclip. done. }
  exists w', blocks. split_and!; [|by rewrite Hlog', Hlog|done].
  unfold compute_raster_statistics.
  rewrite (bind_ok _ _ _ _ _ Hrun).
  rewrite (bind_ok _ _ _ _ _ (deref_ok _ _ _ Hl1)).
  rewrite Hcrs.
  change (match stats_list with
          | Some l0 => l0
          | None => ["mean"; "std"; "min"; "max"; "sum"; "count"]%string
          end) with stats.
  fold features. by rewrite (bind_ok _ _ _ _ _ Hfor).
Qed.

Lemma filter_all {A} (P : A → Prop) `{∀ x, Decision (P x)} (l : list A) :
  Forall P l → filter P l = l.
Proof.
  induction 1 as [|x l Hx _ IH]; [done|].
  rewrite filter_cons_True by done. by rewrite IH.
Qed.

(** C5: when no requested column is named as a non-spatial dimension
    and the clip of each distinct feature either succeeds, keeping the
    non-spatial dimensions, or finds no overlapping cells, a warning is
    logged for exactly the features without overlap, which contribute no
    row, and every other feature contributes one block of rows, one row
    per combination of non-spatial labels; each row carries the feature
    and, for every requested statistic, the statistic of the cells of
    that combination in the feature's clipped array.  When at least one
    feature overlaps, the table of these blocks is returned, so N
    overlapping features give N times the number of combinations, which
    is N rows for a two-dimensional raster. *)
Theorem compute_raster_statistics_skips_and_counts
    w self r (c : string) (gdf : list (string * Geom)) (feature_col : string)
    (stats_list : option (list string)) (percentile_list : option (list Z))
    (all_touched : bool) :
  let features := unique (gdf.*1) in
  let stats := default default_stats stats_list in
  let n_combos := length (combinations (extra_dims r)) in
  let ok := overlaps rio_clip r gdf all_touched in
  heap w !! _obj self = Some r →
  crs r = Some c →
  supported_request stats percentile_list →
  clash_free feature_col stats percentile_list (extra_dims r) →
  (∀ f, f ∈ features →
     match clip_of rio_clip r gdf all_touched f with
     | Ok da_clip => extra_dims da_clip = extra_dims r
     | Raise e => e = NoDataInBounds
     end) →
  ∃ w' blocks,
    compute_raster_statistics np_reduce np_quantile rio_clip xr_other self gdf feature_col
                              stats_list percentile_list all_touched w
      = (pd_concat blocks, w') ∧
    NoDup features ∧
    log w' = log w ++ (skip_warning <$> filter (λ f, ok f = false) features) ∧
    Forall2 (λ f block,
               block_of feature_col n_combos f block ∧
               cells_of rio_clip np_reduce r gdf feature_col stats all_touched
                        f block)
            (filter (λ f, ok f = true) features) blocks ∧
    (Exists (λ f, ok f = true) features →
       pd_concat blocks = Ok (concat blocks) ∧
       length (concat blocks)
         = (length (filter (λ f, ok f = true) features) * n_combos)%nat ∧
       (Forall (λ f, ok f = true) features →
          length (concat blocks) = (length features * n_combos)%nat ∧
          (extra_dims r = [] → length (concat blocks) = length features))).
Proof.
  intros features stats n_combos ok Hr Hcrs Hreq Hfree Hclip.
  destruct (compute_raster_statistics_blocks w self r c gdf feature_col stats_list
              percentile_list all_touched Hr Hcrs Hreq Hfree Hclip)
    as (w' & blocks & Hrun & Hlog & Hall).
  fold features stats n_combos ok in Hrun, Hlog, Hall.
  assert (Forall2 (λ f block,
                     block_of feature_col n_combos f block ∧
                     cells_of rio_clip np_reduce r gdf feature_col stats
                              all_touched f block)
                  (filter (λ f, ok f = true) features) blocks) as Hblocks.
  { eapply Forall2_impl; [exact Hall|]. intros f block (da_clip & Hc & Hb & Hs & _).
    split; [done|]. by exists da_clip. }
  exists w', blocks. split_and!; [done|apply unique_spec|done|done|].
  intros Hsome.
  assert (blocks ≠ []) as Hne.
  { intros ->. apply Forall2_nil_inv_r in Hall.
    apply Exists_exists in Hsome as (f & Hf & Hokf).
    assert (f ∈ filter (λ f, ok f = true) features) as Hin
      by (by apply list_elem_of_filter).
    rewrite Hall in Hin. by apply elem_of_nil in Hin. }
  assert (length (concat blocks)
          = (length (filter (λ f, ok f = true) features) * n_combos)%nat) as Hlen.
  { eapply (concat_blocks_length
              (λ f block,
                 Forall (λ row, row !! feature_col = Some (Feature f)) block ∧
                 cells_of rio_clip np_reduce r gdf feature_col stats
                          all_touched f block)).
    eapply Forall2_impl; [exact Hblocks|]. by intros f block [[? ?] ?]. }
  split_and!; [by destruct blocks|done|].
  intros Hallok.
  rewrite Hlen, (filter_all (λ f, ok f = true) features Hallok). split; [done|].
  intros Hd. subst n_combos. rewrite Hd. simpl. lia.
Qed.

(** C6: in the table that [compute_raster_statistics] returns, the row
    of an overlapping feature and of a combination of non-spatial labels
    whose window in the feature's clipped array has every cell missing
    holds, in the column of "sum", the missing-value marker NaN and not a
    number.  The row is the one at position i * n + k for the i-th
    overlapping feature and the k-th of the n combinations. *)
Theorem sum_of_all_missing_window_is_nan
    w self r (c : string) (gdf : list (string * Geom)) (feature_col : string)
    (stats_list : option (list string)) (percentile_list : option (list Z))
    (all_touched : bool) :
  let features := unique (gdf.*1) in
  let stats := default default_stats stats_list in
  let n_combos := length (combinations (extra_dims r)) in
  let overlapping :=
    filter (λ f, overlaps rio_clip r gdf all_touched f = true) features in
  heap w !! _obj self = Some r →
  crs r = Some c →
  supported_request stats percentile_list →
  clash_free feature_col stats percentile_list (extra_dims r) →
  "sum"%string ∈ stats →
  (∀ f, f ∈ features →
     match clip_of rio_clip r gdf all_touched f with
     | Ok da_clip => extra_dims da_clip = extra_dims r
     | Raise e => e = NoDataInBounds
     end) →
  overlapping ≠ [] →
  ∃ w' df,
    compute_raster_statistics np_reduce np_quantile rio_clip xr_other self gdf feature_col
                              stats_list percentile_list all_touched w
      = (Ok df, w') ∧
    length df = (length overlapping * n_combos)%nat ∧
    ∀ i f da_clip k,
      overlapping !! i = Some f →
      clip_of rio_clip r gdf all_touched f = Ok da_clip →
      (k < n_combos)%nat →
      Forall (λ cell, cell = None) (window da_clip k) →
      ∃ row,
        df !! (i * n_combos + k)%nat = Some row ∧
        row !! feature_col = Some (Feature f) ∧
        row !! ("sum" +:+ "_" +:+ feature_col) = Some NaN.
Proof.
  intros features stats n_combos overlapping Hr Hcrs Hreq Hfree Hsum Hclip Hsome.
  destruct (compute_raster_statistics_blocks w self r c gdf feature_col stats_list
              percentile_list all_touched Hr Hcrs Hreq Hfree Hclip)
    as (w' & blocks & Hrun & Hlog & Hall).
  fold features stats n_combos overlapping in Hrun, Hlog, Hall.
  assert (blocks ≠ []) as Hne.
  { intros ->. by apply Forall2_nil_inv_r in Hall. }
  assert (pd_concat blocks = Ok (concat blocks)) as Hconcat by (by destruct blocks).
  assert (Forall (λ b, length b = n_combos) blocks) as Hlens.
  { clear -Hall. induction Hall as [|f b fs bs (da & _ & [Hlen _] & _) _ IH];
      constructor; done. }
  exists w', (concat blocks). rewrite <- Hconcat. split_and!; [done| |].
  - eapply (concat_blocks_length (λ _ _, True)).
    eapply Forall2_impl; [exact Hall|]. by intros f b (da & _ & [Hlen _] & _).
  - intros i f da_clip k Hi Hc Hk Hmissing.
    destruct (Forall2_lookup_l _ _ _ _ _ Hall Hi)
      as (block & Hblock & da' & Hc' & [Hlen Hfeat] & Hcells & _).
    assert (da' = da_clip) as -> by congruence.
    destruct (lookup_lt_is_Some_2 block k) as [row Hrow]; [lia|].
    exists row. split_and!.
    + rewrite (concat_blocks_lookup n_combos blocks i k block Hlens Hblock Hk). done.
    + rewrite Forall_forall in Hfeat. apply Hfeat. by eapply list_elem_of_lookup_2.
    + pose proof (Hcells k row "sum"%string Hrow Hsum) as Hcell.
      rewrite (xr_reduce_sum_all_missing _ Hmissing) in Hcell.
      destruct (row !! ("sum" +:+ "_" +:+ feature_col)) as [e|]; [|done].
      simpl in Hcell. congruence.
Qed.

(** When every feature is skipped, the warnings are logged and the
    concatenation raises. *)
Lemma compute_raster_statistics_all_skipped
    w self r (c : string) (gdf : list (string * Geom)) (feature_col : string)
    (stats_list : option (list string)) (percentile_list : option (list Z))
    (all_touched : bool) :
  heap w !! _obj self = Some r →
  crs r = Some c →
  (∀ f, f ∈ unique (gdf.*1) → clip_of rio_clip r gdf all_touched f = Raise NoDataInBounds) →
  ∃ w',
    compute_raster_statistics np_reduce np_quantile rio_clip xr_other self gdf feature_col
                              stats_list percentile_list all_touched w
      = (Raise ValueError, w') ∧
    log w' = log w ++ (skip_warning <$> unique (gdf.*1)).
Proof.
  intros Hr Hcrs Hclip.
  destruct (get_obj_copy w self r Hr) as (l & w1 & Hrun & Hl & Hheap & Hlog).
  assert (heap w1 !! l = Some r) as Hl1 by (by rewrite Hheap, lookup_insert_eq).
  destruct (for_features_spec
              (feature_frame np_reduce np_quantile rio_clip xr_other r gdf feature_col
                 (default default_stats stats_list) percentile_list all_touched)
              (λ _, false) (λ _ _, False) (unique (gdf.*1)))
    with (df_list := @nil (list (gmap string (@Entry V)))) (w := w1)
    as (blocks & w' & Hfor & Hheap' & Hlog' & Hall).
  { intros f Hf _ w0. apply feature_frame_skip. by apply Hclip. }
  { intros f _ [=]. }
  assert (filter (λ _ : string, false = true) (unique (gdf.*1)) = []) as Hnone.
  { generalize (unique (gdf.*1)). intros fs. induction fs as [|f fs IH]; [done|].
    by rewrite filter_cons_False. }
  assert (filter (λ _ : string, false = false) (unique (gdf.*1)) = unique (gdf.*1)) as Hevery.
  { generalize (unique (gdf.*1)). intros fs. induction fs as [|f fs IH]; [done|].
    rewrite filter_cons_True by done. by rewrite IH. }
  rewrite Hnone in Hall. apply Forall2_nil_inv_l in Hall as ->.
  exists w'. split.
  - unfold compute_raster_statistics.
    rewrite (bind_ok _ _ _ _ _ Hrun).
    rewrite (bind_ok _ _ _ _ _ (deref_ok _ _ _ Hl1)).
    rewrite Hcrs.
    change (match stats_list with
            | Some l0 => l0
            | None => ["mean"; "std"; "min"; "max"; "sum"; "count"]%string
            end) with (default default_stats stats_list).
    by rewrite (bind_ok _ _ _ _ _ Hfor).
  - by rewrite Hlog', Hevery, Hlog.
Qed.

End StatisticsProperties.

Section ForecastProperties.
Import Forecast.
Context {S : Type}.
Implicit Types (ds : @Dataset S) (file : @GribFile S).

Lemma is_monotonic_increasing_cons c (labels : list Z) :
  is_monotonic_increasing labels = true →
  Forall (λ v, c < v) labels →
  is_monotonic_increasing (c :: labels) = true.
Proof.
  intros Hm Hall. destruct labels as [|v labels]; [done|].
  apply Forall_cons in Hall as [Hv _].
  change (Z.leb c v && is_monotonic_increasing (v :: labels) = true).
  rewrite Hm, andb_true_r. by apply Z.leb_le, Z.lt_le_incl.
Qed.

Lemma dense_rank_pair c v :
  c < v →
  dense_rank true [c; v] c = 0%nat ∧ dense_rank true [c; v] v = 1%nat.
Proof.
  intros Hcv. unfold dense_rank. simpl.
  rewrite !filter_cons, !filter_nil.
  rewrite (decide_False (P := c < c)) by lia.
  rewrite (decide_False (P := v < c)) by lia.
  rewrite (decide_True (P := c < v)) by lia.
  rewrite (decide_False (P := v < v)) by lia.
  done.
Qed.

Lemma merge_attrs_first (a : gmap string string) :
  merge_attrs_step (∅, ∅) a = (a, ∅).
Proof.
  unfold merge_attrs_step. cbn [fst snd].
  match goal with |- (?r, _) = _ => assert (r = a) as -> end.
  { rewrite (left_id_L ∅ (∪)).
    rewrite (map_filter_id _ a) by (intros; apply not_elem_of_empty).
    apply map_filter_id. intros k x Hk. by right. }
  f_equal. rewrite difference_diag_L. by rewrite (left_id_L ∅ (∪)).
Qed.

Lemma merge_attrs_single (a : gmap string string) : merge_attrs [a] = a.
Proof. unfold merge_attrs. cbn [foldl]. by rewrite merge_attrs_first. Qed.

Lemma merge_with_vars_only ds : merge None (Some ds) = ds.
Proof. destruct ds. unfold merge. cbn -[merge_attrs]. by rewrite merge_attrs_single. Qed.

Lemma has_data_vars_index ds index :
  number ds = Dim (Some index) → has_data_vars ds = true.
Proof. intros H. unfold has_data_vars. by rewrite H. Qed.

Lemma has_data_vars_scalar ds c :
  number ds = Scalar (Some c) → has_data_vars ds = true.
Proof. intros H. unfold has_data_vars. by rewrite H. Qed.

Lemma has_data_vars_expand_dims ds ds' :
  expand_dims ds = Ok ds' → has_data_vars ds' = has_data_vars ds.
Proof.
  unfold expand_dims, has_data_vars.
  destruct (number ds) as [[c|]|] eqn:Hn; [| |done]; intros [= <-]; simpl; done.
Qed.

(** One dataset alone is its own hypercube. *)
Lemma hypercube_single ds : _combine_single_variable_hypercube [ds] = Ok ds.
Proof.
  unfold _combine_single_variable_hypercube, infer_concat_order.
  destruct (number ds) as [?|[index|]] eqn:Hn; [done| |done].
  cbn. unfold number_index. rewrite Hn. cbn.
  rewrite bool_decide_eq_true_2; [done|]. by repeat constructor.
Qed.

(** Datasets whose first has no member index cannot be ordered. *)
Lemma hypercube_unlabelled (control perturbed : @Dataset S) :
  number_index control = None →
  _combine_single_variable_hypercube [control; perturbed] = Raise ValueError.
Proof.
  unfold number_index. intros Hc.
  unfold _combine_single_variable_hypercube, infer_concat_order.
  by destruct (number control) as [?|[?|]].
Qed.

(** The groups of two datasets. *)
Lemma combine_by_coords_two (control perturbed : @Dataset S) :
  combine_by_coords [control; perturbed] =
    match has_data_vars control, has_data_vars perturbed with
    | true, true => _combine_single_variable_hypercube [control; perturbed]
    | false, true => Ok (merge (Some control) (Some perturbed))
    | true, false => Ok (merge (Some perturbed) (Some control))
    | false, false => Raise ValueError
    end.
Proof.
  unfold combine_by_coords. rewrite !filter_cons, !filter_nil.
  destruct (has_data_vars control) eqn:Hc, (has_data_vars perturbed) eqn:Hp;
    repeat case_decide; try done;
    cbv beta iota delta [mbind Res_bind mret Res_ret];
    rewrite ?hypercube_single; try reflexivity.
  - destruct (_combine_single_variable_hypercube [control; perturbed]); [|done].
    by rewrite merge_with_vars_only.
  - rewrite hypercube_unlabelled; [done|].
    unfold has_data_vars in Hc. unfold number_index.
    by destruct (number control) as [[?|]|[?|]].
Qed.

Lemma read_in_unfold file :
  _read_in_ensemble_and_perturbed_datasets file
  = match expand_dims (cf file) with
    | Ok control => combine_by_coords [control; pf file]
    | Raise e => Raise e
    end.
Proof.
  unfold _read_in_ensemble_and_perturbed_datasets, load_dataset. cbn [foldl].
  repeat case_bool_decide; try done.
  cbv beta iota delta [mbind Res_bind mret Res_ret].
  by destruct (expand_dims (cf file)).
Qed.

(** With a labelled control and a perturbed dataset that holds data, the
    assembly is the hypercube of the two. *)
Lemma read_in_labelled file c :
  number (cf file) = Scalar (Some c) →
  has_data_vars (pf file) = true →
  _read_in_ensemble_and_perturbed_datasets file
  = _combine_single_variable_hypercube
      [{| number := Dim (Some [c]); realizations := realizations (cf file);
          attrs := attrs (cf file) |}; pf file].
Proof.
  intros Hcf Hpf. rewrite read_in_unfold. unfold expand_dims. rewrite Hcf.
  rewrite combine_by_coords_two, Hpf. reflexivity.
Qed.

Lemma infer_concat_order_control_first ds0 ds1 c v labels :
  number ds0 = Dim (Some [c]) →
  number ds1 = Dim (Some (v :: labels)) →
  is_monotonic_increasing (v :: labels) = true →
  c < v →
  infer_concat_order [ds0; ds1] = Ok (Some [0%nat; 1%nat]).
Proof.
  intros H0 H1 Hmono Hcv. unfold infer_concat_order. rewrite H0.
  assert (mapM (λ ds, match number_index ds with
                      | Some index => Ok index
                      | None => Raise ValueError
                      end) [ds0; ds1] = Ok [[c]; v :: labels]) as ->.
  { cbn. unfold number_index. by rewrite H0, H1. }
  cbn -[dense_rank is_monotonic_increasing is_monotonic_decreasing bool_decide].
  rewrite bool_decide_eq_false_2.
  2:{ intros Hf. apply Forall_cons in Hf as [_ Hf].
      apply Forall_cons in Hf as [Hf _]. injection Hf as -> _. lia. }
  rewrite Hmono.
  cbn -[dense_rank]. by destruct (dense_rank_pair c v Hcv) as [-> ->].
Qed.

(** C4 (amended): the control dataset carries the scalar member label
    [c].  When the perturbed dataset has ["number"] as a dimension, as
    cfgrib delivers it for two or more perturbed members, with ascending
    labels all above [c] (in the GloFAS files: 0 for the control, 1..K
    for the perturbed members), the assembled ensemble has K+1 members
    and member 0 holds the values of the control.  When the perturbed
    dataset has ["number"] as a scalar label, as cfgrib delivers it for
    a single perturbed member, the assembly raises ValueError. *)
Theorem ensemble_control_is_member_zero file (c : Z) (control : S) :
  number (cf file) = Scalar (Some c) →
  realizations (cf file) = [control] →
  (∀ labels,
     number (pf file) = Dim (Some labels) →
     labels ≠ [] →
     is_monotonic_increasing labels = true →
     Forall (λ v, c < v) labels →
     ∃ ds,
       _read_in_ensemble_and_perturbed_datasets file = Ok ds ∧
       number ds = Dim (Some (c :: labels)) ∧
       realizations ds = control :: realizations (pf file) ∧
       length (realizations ds) = Datatypes.S (length (realizations (pf file))) ∧
       realizations ds !! 0%nat = Some control) ∧
  (∀ v,
     number (pf file) = Scalar (Some v) →
     _read_in_ensemble_and_perturbed_datasets file = Raise ValueError).
Proof.
  intros Hcf Hreal. split.
  - intros labels Hpf Hne Hmono Hall.
    destruct labels as [|v labels]; [done|].
    pose proof Hall as [Hcv _]%Forall_cons.
    rewrite (read_in_labelled file c Hcf (has_data_vars_index _ _ Hpf)).
    set (cf' := {| number := Dim (Some [c]); realizations := realizations (cf file);
                   attrs := attrs (cf file) |}).
    unfold _combine_single_variable_hypercube.
    rewrite (infer_concat_order_control_first cf' (pf file) c v labels eq_refl Hpf Hmono Hcv).
    cbn -[is_monotonic_increasing is_monotonic_decreasing concat_number].
    repeat case_decide; try done.
    cbn -[is_monotonic_increasing is_monotonic_decreasing concat_number].
    assert (number_index (concat_number [cf'; pf file]) = Some (c :: v :: labels)) as Hidx.
    { unfold concat_number, number_index. cbn. rewrite Hpf. cbn. by rewrite app_nil_r. }
    rewrite Hidx.
    rewrite (is_monotonic_increasing_cons c (v :: labels) Hmono Hall).
    cbn -[concat_number].
    eexists. split; [reflexivity|].
    unfold concat_number. cbn. unfold number_index. rewrite Hpf. cbn.
    rewrite Hreal, !app_nil_r. done.
  - intros v Hpf.
    rewrite (read_in_labelled file c Hcf (has_data_vars_scalar _ _ Hpf)).
    unfold _combine_single_variable_hypercube, infer_concat_order. cbn.
    unfold number_index. by rewrite Hpf.
Qed.

End ForecastProperties.

Section TimeDimension.
Context {V : Type}.

(** C10: at wrap time the default time dimension is looked for under the
    names "t", "T", "time" in that order and the last one found is kept, so
    "time" wins over "T", which wins over "t"; without any of them no time
    dimension is set. *)
Theorem default_time_dimension_last_wins (w : @World V) (l : loc) (r : @DataArray V) :
  heap w !! l = Some r →
  ∃ self,
    __init__ l w = (Ok self, w) ∧
    _obj self = l ∧
    ("time"%string ∈ dims r → _t_dim self = Some "time"%string) ∧
    ("time"%string ∉ dims r → "T"%string ∈ dims r → _t_dim self = Some "T"%string) ∧
    ("time"%string ∉ dims r → "T"%string ∉ dims r → "t"%string ∈ dims r →
       _t_dim self = Some "t"%string) ∧
    ("time"%string ∉ dims r → "T"%string ∉ dims r → "t"%string ∉ dims r →
       _t_dim self = None).
Proof.
  intros Hr. unfold __init__. rewrite (bind_ok _ _ _ _ _ (deref_ok _ _ _ Hr)).
  eexists. split; [reflexivity|]. simpl. rewrite default_t_dim_spec.
  split_and!; [done|..]; intros; repeat case_bool_decide; done.
Qed.

End TimeDimension.

(** ** The operations on the example inputs *)

(** C1: on longitudes [5, 120, 199, 360] the labels become
    [-161, 0, 5, 120] but the samples stay in their columns: the value that
    was at longitude 199 (now -161) is still in the third column, and
    longitude -161 shows the value that was at longitude 5. *)
Example change_longitude_range_relabels :
  ∃ w1 l1 r1,
    change_longitude_range (accessor_of wide_raster) false (world_of wide_raster)
      = (Ok (Some l1), w1) ∧
    heap w1 !! l1 = Some r1 ∧
    lon r1 = [-161; 0; 5; 120] ∧
    planes r1 = planes wide_raster ∧
    sel wide_raster 0 88 199 = Some (Some 2) ∧
    to_180 199 = -161 ∧
    sel r1 0 88 (-161) = Some (Some 0) ∧
    sel wide_raster 0 88 5 = Some (Some 0).
Proof.
  destruct (change_longitude_range_run (world_of wide_raster) (accessor_of wide_raster)
              wide_raster false eq_refl) as (w1 & res & l1 & Hrun & (-> & _ & _) & Hl1).
  exists w1, l1, (converted wide_raster). split_and!; try done.
Qed.

(** With a longitude above 180, every longitude is converted to
    [(v + 180) mod 360 - 180] and the labels are sorted ascending. *)
Lemma change_longitude_range_to_180 {V} (w : @World V) self (r : @DataArray V) :
  heap w !! _obj self = Some r →
  Exists (λ v, 180 < v) (lon r) →
  ∃ w1 l1 r1,
    change_longitude_range self false w = (Ok (Some l1), w1) ∧
    heap w1 !! l1 = Some r1 ∧
    lon r1 = np_sort (to_180 <$> lon r) ∧
    Sorted Z.le (lon r1) ∧
    lon r1 ≡ₚ to_180 <$> lon r.
Proof.
  intros Hr Hgt.
  destruct (change_longitude_range_run w self r false Hr)
    as (w1 & res & l1 & Hrun & (-> & _ & _) & Hl1).
  exists w1, l1, (converted r). split_and!; try done.
  - by rewrite converted_180 by (by apply gt_nan_max).
  - rewrite converted_180 by (by apply gt_nan_max). apply np_sort_Sorted.
  - rewrite converted_180 by (by apply gt_nan_max). apply np_sort_Permutation.
Qed.

(** The samples never move, whatever the longitudes. *)
Lemma change_longitude_range_keeps_planes {V} (w : @World V) self (r : @DataArray V)
    (inplace : bool) :
  heap w !! _obj self = Some r →
  ∃ w1 res target r1,
    change_longitude_range self inplace w = (Ok res, w1) ∧
    heap w1 !! target = Some r1 ∧
    (if inplace then target = _obj self else res = Some target) ∧
    planes r1 = planes r.
Proof.
  intros Hr.
  destruct (change_longitude_range_run w self r inplace Hr)
    as (w1 & res & target & Hrun & Hmode & Htarget).
  exists w1, res, target, (converted r). split_and!; try done.
  - destruct inplace; [by destruct Hmode|by destruct Hmode].
  - apply converted_planes.
Qed.

(** C2: with a single feature that does not overlap the array, the warning
    is logged and then the concatenation of the empty list of frames raises
    ValueError; no table is returned. *)
Example compute_raster_statistics_all_skipped_raises :
  ∃ w',
    compute_raster_statistics all_zero all_zero clip_flag no_other
      (accessor_of wide_raster) [("A"%string, false)] "name" None None false
      (world_of wide_raster)
    = (Raise ValueError, w') ∧
    log w' = [skip_warning "A"].
Proof.
  destruct (compute_raster_statistics_all_skipped all_zero all_zero clip_flag no_other
              (world_of wide_raster) (accessor_of wide_raster) wide_raster "EPSG:4326"
              [("A"%string, false)] "name" None None false eq_refl eq_refl)
    as (w' & Hrun & Hlog).
  - intros f Hf. apply list_elem_of_singleton in Hf as ->. reflexivity.
  - exists w'. split; [exact Hrun|exact Hlog].
Qed.

(** C3: in-place mode on a raster with inverted longitude returns no value
    and leaves that raster as it was, longitude still inverted. *)
Example invert_coordinates_inplace_leaves_raster :
  ∃ w',
    invert_coordinates (accessor_of inverted_raster) true (world_of inverted_raster)
      = (Ok None, w') ∧
    heap w' !! 0%nat = Some inverted_raster ∧
    lon inverted_raster = [70; 69; 68; 67] ∧
    lon_inverted inverted_raster = true.
Proof.
  eexists. split; [vm_compute; reflexivity|].
  split; [vm_compute; reflexivity|]. split; reflexivity.
Qed.


(** The round trip also needs ascending labels: from [350, 10] over the
    samples [1, 2] two calls give [10, 350] over the same samples, so
    longitude 350 no longer selects the sample it selected. *)
Lemma change_longitude_range_round_trip_unsorted :
  ∃ w1 l1 w2 l2 r2,
    Forall (λ v, 0 ≤ v < 360) (lon unsorted_raster) ∧
    change_longitude_range (accessor_of unsorted_raster) false (world_of unsorted_raster)
      = (Ok (Some l1), w1) ∧
    change_longitude_range {| _obj := l1; _t_dim := None |} false w1 = (Ok (Some l2), w2) ∧
    heap w2 !! l2 = Some r2 ∧
    lon r2 = [10; 350] ∧
    planes r2 = planes unsorted_raster ∧
    sel unsorted_raster 0 10 350 = Some (Some 1) ∧
    sel r2 0 10 350 = Some (Some 2).
Proof.
  eexists _, _, _, _, _. split_and!.
  - repeat constructor; simpl; lia.
  - vm_compute. reflexivity.
  - vm_compute. reflexivity.
  - vm_compute. reflexivity.
  - reflexivity.
  - reflexivity.
  - reflexivity.
  - reflexivity.
Qed.

(** On float64 labels the round trip fails on ordinary grids, because
    each conversion rounds: from [0.1, 90, 270.1] two applications of the
    label computation give [0.09999999999999432, 90, 270.1]. *)
Lemma float64_round_trip_changes_labels :
  let lon := [0x1.999999999999ap-4; 90; 0x1.0e1999999999ap+8]%float in
  Float64.change_longitude_labels lon
    = [-0x1.6799999999998p+6; 0x1.99999999998p-4; 90]%float ∧
  Float64.change_longitude_labels (Float64.change_longitude_labels lon)
    = [0x1.99999999998p-4; 90; 0x1.0e1999999999ap+8]%float ∧
  Float64.change_longitude_labels (Float64.change_longitude_labels lon) ≠ lon.
Proof.
  intros lon. split; [vm_compute; reflexivity|]. split; [vm_compute; reflexivity|].
  intros Heq.
  assert (head (Float64.change_longitude_labels (Float64.change_longitude_labels lon))
          = head lon) as Hhead by (by rewrite Heq).
  apply (f_equal (λ o, match o with
                       | Some f => PrimFloat.ltb f 0x1.999999999999ap-4
                       | None => false
                       end)) in Hhead.
  vm_compute in Hhead. discriminate Hhead.
Qed.

(** On float64 labels as well, longitudes of which none exceeds 180 and
    none is below 0 are left as they are: no arithmetic takes place. *)
Lemma float64_no_conversion (lon : list float) :
  Forall (λ v, PrimFloat.ltb 180 v = false ∧ PrimFloat.ltb v 0 = false) lon →
  Float64.change_longitude_labels lon = lon.
Proof.
  intros Hall. destruct lon as [|v rest]; [done|].
  assert (∀ (f : float → float → float) v0 l,
            (∀ a b, f a b = a ∨ f a b = b) → foldl f v0 l ∈ v0 :: l) as Hin.
  { intros f v0 l Hf. revert v0. induction l as [|x l IH]; intros v0; [by left|].
    simpl. specialize (IH (f v0 x)).
    apply elem_of_cons in IH as [->|IH]; [|by do 2 right].
    destruct (Hf v0 x) as [->| ->]; [by left|right; by left]. }
  rewrite Forall_forall in Hall.
  unfold Float64.change_longitude_labels.
  destruct (Hall (foldl Float64.fmax v rest)) as [-> _].
  { apply Hin. intros a b. unfold Float64.fmax. destruct (PrimFloat.ltb a b); auto. }
  destruct (Hall (foldl Float64.fmin v rest)) as [_ ->].
  { apply Hin. intros a b. unfold Float64.fmin. destruct (PrimFloat.ltb b a); auto. }
  done.
Qed.

(** At the largest 64-bit integer the sum lon + 180 wraps around: the
    code gives -9 where the formula over the integers gives 7. *)
Lemma to_180_wraps_at_int64_max :
  to_180 int64_max = -9 ∧ (int64_max + 180) `mod` 360 - 180 = 7.
Proof. split; vm_compute; reflexivity. Qed.

(** On float64 labels the images of the two conversions are not the
    half-open ranges: a longitude just below -180 is mapped to 180, and a
    tiny negative longitude to 360. *)
Lemma float64_conversions_reach_the_upper_bound :
  Float64.to_180 (-0x1.6800000000001p+7) = 180%float ∧
  Float64.to_360 (-0x1.203af9ee75616p-50) = 360%float ∧
  Float64.to_180 0x1.6833333333333p+7 = (-0x1.67cccccccccccp+7)%float.
Proof. split_and!; vm_compute; reflexivity. Qed.

(** C4, the claim as stated fails: with the control labelled 0 and two
    perturbed members labelled 0 and 1 the combination does not give three
    members with the control first. *)
Lemma ensemble_tie_counterexample :
  ¬ ∃ ds, Forecast._read_in_ensemble_and_perturbed_datasets tie_file = Ok ds ∧
          length (Forecast.realizations ds) = 3%nat ∧
          Forecast.realizations ds !! 0%nat = Some 100.
Proof.
  intros (ds & Hrun & Hlen & _).
  assert (Forecast.realizations <$>
            (match Forecast._read_in_ensemble_and_perturbed_datasets tie_file with
             | Ok d => Some d
             | Raise _ => None
             end) = Some [200; 300]) as H by (vm_compute; reflexivity).
  rewrite Hrun in H. simpl in H. injection H as H. rewrite H in Hlen. discriminate.
Qed.

(** The datasets are ordered by their labels, not by the order of the
    calls: a control labelled above the perturbed members comes last. *)
Lemma ensemble_order_follows_labels :
  Forecast.realizations <$>
    (match Forecast._read_in_ensemble_and_perturbed_datasets late_control_file with
     | Ok d => Some d
     | Raise _ => None
     end) = Some [200; 300; 100].
Proof. vm_compute. reflexivity. Qed.

(** A single perturbed member, whose member number is a scalar label,
    cannot be placed beside the control. *)
Lemma ensemble_single_perturbed_member_raises :
  Forecast._read_in_ensemble_and_perturbed_datasets single_member_file = Raise ValueError.
Proof. vm_compute. reflexivity. Qed.

(** Without perturbed message the control is returned alone, and without
    control message the perturbed members. *)
Lemma ensemble_with_one_data_type :
  Forecast.realizations <$>
    (match Forecast._read_in_ensemble_and_perturbed_datasets no_perturbed_file with
     | Ok d => Some d
     | Raise _ => None
     end) = Some [100] ∧
  Forecast.realizations <$>
    (match Forecast._read_in_ensemble_and_perturbed_datasets no_control_file with
     | Ok d => Some d
     | Raise _ => None
     end) = Some [200; 300].
Proof. split; vm_compute; reflexivity. Qed.

(** ** The general statements at the example inputs *)

Ltac by_compute := apply (bool_decide_unpack _); vm_compute; exact I.

Lemma default_time_dimension_last_wins_witness :
  heap (world_of monthly_raster) !! 0%nat = Some monthly_raster ∧
  ∃ self,
    __init__ 0%nat (world_of monthly_raster) = (Ok self, world_of monthly_raster) ∧
    _t_dim self = Some "T"%string.
Proof.
  split; [reflexivity|].
  destruct (default_time_dimension_last_wins (world_of monthly_raster) 0%nat
              monthly_raster eq_refl) as (self & Hrun & _ & _ & HT & _).
  exists self. split; [exact Hrun|]. apply HT; by_compute.
Defined.

Lemma correct_calendar_rules_witness :
  _t_dim (accessor_of monthly_raster) = Some "T"%string ∧
  heap (world_of monthly_raster) !! _obj (accessor_of monthly_raster) = Some monthly_raster ∧
  ∃ w' l r',
    correct_calendar (accessor_of monthly_raster) false (world_of monthly_raster)
      = (Ok (Some l), w') ∧
    heap w' !! l = Some r' ∧
    default ∅ (coord_attrs r' !! "T"%string) !! "calendar"%string = Some "360_day"%string.
Proof.
  split; [reflexivity|]. split; [reflexivity|].
  destruct (correct_calendar_rules (world_of monthly_raster) (accessor_of monthly_raster)
              "T" monthly_raster false eq_refl eq_refl)
    as (w' & res & l & r' & Hrun & (-> & _ & _) & Hl & _ & Hunits & _).
  exists w', l, r'. split; [exact Hrun|]. split; [exact Hl|].
  destruct Hunits as [_ ->].
  - by_compute.
  - exists "months since 1960-01-01"%string, ""%string, " 1960-01-01"%string.
    split; reflexivity.
  - apply lookup_insert_eq.
Defined.

Lemma invert_coordinates_idempotent_witness :
  heap (world_of inverted_raster) !! _obj (accessor_of inverted_raster) = Some inverted_raster ∧
  lon inverted_raster ≠ [] ∧ lat inverted_raster ≠ [] ∧
  regular inverted_raster ∧
  ∃ w1 l1 r1,
    invert_coordinates (accessor_of inverted_raster) false (world_of inverted_raster)
      = (Ok (Some l1), w1) ∧
    heap w1 !! l1 = Some r1 ∧
    lon r1 = [67; 68; 69; 70] ∧
    lat r1 = [90; 89; 88; 87] ∧
    sel r1 0 90 67 = Some (Some 3) ∧
    ∃ w2 l2,
      invert_coordinates {| _obj := l1; _t_dim := None |} false w1 = (Ok (Some l2), w2) ∧
      heap w2 !! l2 = Some r1.
Proof.
  assert (regular inverted_raster) as Hreg.
  { split_and!; [repeat constructor|done|done|by_compute|by_compute]. }
  split; [reflexivity|]. split; [done|]. split; [done|]. split; [exact Hreg|].
  destruct Hreg as (Hws & Hlon & Hlat & Hndx & Hndy).
  destruct (invert_coordinates_idempotent (world_of inverted_raster)
              (accessor_of inverted_raster) inverted_raster eq_refl Hlon Hlat)
    as [_ Hgrid].
  destruct (Hgrid Hws Hndx Hndy)
    as (w1 & l1 & r1 & Hrun & Hl1 & _ & _ & Hx & Hy & Hsel & Htwice).
  exists w1, l1, r1. split_and!; [exact Hrun|exact Hl1|exact Hx|exact Hy| |].
  - rewrite Hsel. reflexivity.
  - destruct (Htwice {| _obj := l1; _t_dim := None |} eq_refl) as (w2 & l2 & Hrun2 & Hl2 & _).
    exists w2, l2. split; [exact Hrun2|exact Hl2].
Defined.


Lemma sum_of_all_missing_window_is_nan_witness :
  let gdf := [("A"%string, true)] in
  supported_request (default default_stats None) None ∧
  clash_free "name" (default default_stats None) None (extra_dims monthly_raster) ∧
  Forall (λ cell, cell = None) (window monthly_raster 1) ∧
  ∃ w' df row,
    compute_raster_statistics all_zero all_zero clip_flag no_other
      (accessor_of monthly_raster) gdf "name" None None false
      (world_of monthly_raster) = (Ok df, w') ∧
    length df = 2%nat ∧
    df !! 1%nat = Some row ∧
    row !! "name"%string = Some (Feature "A") ∧
    row !! "sum_name"%string = Some NaN.
Proof.
  intros gdf.
  assert (supported_request (default default_stats None) None) as Hreq.
  { split_and!.
    - repeat (constructor; [by_compute|]). constructor.
    - constructor.
    - by left. }
  assert (clash_free "name" (default default_stats None) None (extra_dims monthly_raster))
    as Hfree by (repeat (constructor; [by_compute|]); constructor).
  assert (Forall (λ cell : option Z, cell = None) (window monthly_raster 1)) as Hmissing
    by (repeat constructor).
  split; [exact Hreq|]. split; [exact Hfree|]. split; [exact Hmissing|].
  destruct (sum_of_all_missing_window_is_nan all_zero all_zero clip_flag no_other
              (world_of monthly_raster) (accessor_of monthly_raster) monthly_raster
              "EPSG:4326" gdf "name" None None false eq_refl eq_refl Hreq Hfree)
    as (w' & df & Hrun & Hlen & Hrows).
  - by_compute.
  - intros f _. unfold clip_of, clip_flag. by case_bool_decide.
  - discriminate.
  - destruct (Hrows 0%nat "A"%string monthly_raster 1%nat eq_refl eq_refl)
      as (row & Hrow & Hfeature & Hsum); [vm_compute; lia|exact Hmissing|].
    exists w', df, row.
    split; [exact Hrun|]. split; [exact Hlen|].
    split; [exact Hrow|]. split; [exact Hfeature|exact Hsum].
Defined.

Lemma ensemble_control_is_member_zero_witness :
  Forecast.number (Forecast.cf glofas_file) = Forecast.Scalar (Some 0) ∧
  Forecast.realizations (Forecast.cf glofas_file) = [100] ∧
  Forecast.number (Forecast.pf glofas_file) = Forecast.Dim (Some [1; 2]) ∧
  Forecast.is_monotonic_increasing [1; 2] = true ∧
  Forall (λ v, 0 < v) [1; 2] ∧
  ∃ ds,
    Forecast._read_in_ensemble_and_perturbed_datasets glofas_file = Ok ds ∧
    Forecast.number ds = Forecast.Dim (Some [0; 1; 2]) ∧
    Forecast.realizations ds = [100; 200; 300].
Proof.
  assert (Forall (λ v, 0 < v) [1; 2]) as Hall by (repeat constructor; lia).
  split; [reflexivity|]. split; [reflexivity|]. split; [reflexivity|].
  split; [reflexivity|]. split; [exact Hall|].
  destruct (ensemble_control_is_member_zero glofas_file 0 100 eq_refl eq_refl)
    as [Hmembers _].
  destruct (Hmembers [1; 2] eq_refl ltac:(discriminate) eq_refl Hall)
    as (ds & Hrun & Hnum & Hreal & _).
  exists ds. split; [exact Hrun|]. split; [exact Hnum|exact Hreal].
Defined.

Lemma compute_raster_statistics_skips_and_counts_witness :
  let gdf := [("A"%string, true); ("B"%string, false); ("A"%string, true);
              ("C"%string, true)] in
  unique (gdf.*1) = ["A"; "B"; "C"]%string ∧
  supported_request (default default_stats None) (Some [50]) ∧
  clash_free "name" (default default_stats None) (Some [50]) (extra_dims monthly_raster) ∧
  Exists (λ f, overlaps clip_flag monthly_raster gdf false f = true) (unique (gdf.*1)) ∧
  ∃ w' df,
    compute_raster_statistics all_zero all_zero clip_flag no_other
      (accessor_of monthly_raster) gdf "name" None (Some [50]) false
      (world_of monthly_raster) = (Ok df, w') ∧
    log w' = [skip_warning "B"] ∧
    length df = 4%nat.
Proof.
  intros gdf.
  assert (supported_request (default default_stats None) (Some [50])) as Hreq.
  { split_and!.
    - repeat (constructor; [by_compute|]). constructor.
    - repeat constructor; simpl; lia.
    - by left. }
  assert (clash_free "name" (default default_stats None) (Some [50])
                     (extra_dims monthly_raster)) as Hfree
    by (repeat (constructor; [by_compute|]); constructor).
  assert (Exists (λ f, overlaps clip_flag monthly_raster gdf false f = true)
                 (unique (gdf.*1))) as Hsome.
  { apply Exists_cons_hd. reflexivity. }
  split; [reflexivity|]. split; [exact Hreq|]. split; [exact Hfree|]. split; [exact Hsome|].
  destruct (compute_raster_statistics_skips_and_counts all_zero all_zero
              clip_flag no_other (world_of monthly_raster) (accessor_of monthly_raster)
              monthly_raster "EPSG:4326" gdf "name" None (Some [50]) false
              eq_refl eq_refl Hreq Hfree)
    as (w' & blocks & Hrun & _ & Hlog & _ & Htable).
  - intros f _. unfold clip_of, clip_flag. by case_bool_decide.
  - destruct (Htable Hsome) as (Hconcat & Hlen & _).
    exists w', (concat blocks). rewrite Hconcat in Hrun.
    split; [exact Hrun|]. split; [exact Hlog|exact Hlen].
Defined.

(** * Further properties of the operations *)

(** ** Time dimension and calendar *)

Section TimeAndCalendar.
Context {V : Type}.
Implicit Types (w : @World V) (r : @DataArray V) (self : Aat).

Lemma correct_calendar_run w self t r (inplace : bool) :
  _t_dim self = Some t →
  heap w !! _obj self = Some r →
  ∃ w' res target,
    correct_calendar self inplace w = (Ok res, w') ∧
    (if inplace then res = None ∧ target = _obj self
     else res = Some target ∧ heap w !! target = None ∧
          heap w' !! _obj self = Some r) ∧
    heap w' !! target = Some (calendar_corrected t r).
Proof.
  intros Ht Hr.
  pose proof (fresh_loc_None w) as Hfresh.
  pose proof (fresh_loc_ne w _ _ Hr) as Hne.
  unfold correct_calendar, calendar_corrected, _get_obj, t_dim, get_attrs, set_attr.
  rewrite Ht. destruct inplace; run; rewrite Hr; simpl.
  - case_bool_decide as Hcal; simpl.
    + rewrite Hr. simpl. eexists _, _, _. split; [reflexivity|]. simpl.
      split; [done|]. by rewrite lookup_insert_eq.
    + destruct (match default ∅ (coord_attrs r !! t) !! "units"%string with
                | Some u => _ | None => _ end); simpl.
      * rewrite Hr. simpl. eexists _, _, _. split; [reflexivity|]. simpl.
        split; [done|]. by rewrite lookup_insert_eq.
      * eexists _, _, _. split; [reflexivity|]. done.
  - rewrite lookup_insert_eq. simpl. case_bool_decide as Hcal; simpl.
    + rewrite lookup_insert_eq. simpl. eexists _, _, _. split; [reflexivity|]. simpl.
      rewrite lookup_insert_eq, !lookup_insert_ne by done. done.
    + destruct (match default ∅ (coord_attrs r !! t) !! "units"%string with
                | Some u => _ | None => _ end); simpl.
      * rewrite lookup_insert_eq. simpl. eexists _, _, _. split; [reflexivity|]. simpl.
        rewrite lookup_insert_eq, !lookup_insert_ne by done. done.
      * eexists _, _, _. split; [reflexivity|]. simpl.
        rewrite lookup_insert_eq, !lookup_insert_ne by done. done.
Qed.

Lemma with_attr_lookup t k v r :
  default ∅ (coord_attrs (with_attr t k v r) !! t)
  = match coord_attrs r !! t with Some a => <[k := v]> a | None => ∅ end.
Proof. unfold with_attr. simpl. rewrite lookup_alter_eq. by destruct (coord_attrs r !! t). Qed.

Lemma with_attr_twice t k v r : with_attr t k v (with_attr t k v r) = with_attr t k v r.
Proof.
  unfold with_attr. simpl. f_equal. apply map_eq. intros c.
  destruct (decide (c = t)) as [->|Hc].
  - rewrite !lookup_alter_eq. destruct (coord_attrs r !! t); simpl; [|done].
    by rewrite insert_insert_eq.
  - by rewrite !lookup_alter_ne.
Qed.

Lemma calendar_corrected_calendar t r :
  default ∅ (coord_attrs (calendar_corrected t r) !! t) !! "calendar"%string
  ≠ Some "360"%string.
Proof.
  unfold calendar_corrected.
  case_bool_decide as Hcal.
  - rewrite with_attr_lookup. destruct (coord_attrs r !! t); simpl.
    + by rewrite lookup_insert_eq.
    + by rewrite lookup_empty.
  - destruct (match _ with Some u => _ | None => _ end); [|done].
    rewrite with_attr_lookup. destruct (coord_attrs r !! t); simpl.
    + by rewrite lookup_insert_eq.
    + by rewrite lookup_empty.
Qed.

Lemma calendar_corrected_units t r :
  default ∅ (coord_attrs (calendar_corrected t r) !! t) !! "units"%string
  = default ∅ (coord_attrs r !! t) !! "units"%string.
Proof.
  unfold calendar_corrected.
  case_bool_decide as Hcal;
    [|destruct (match _ with Some u => _ | None => _ end); [|done]];
    rewrite with_attr_lookup; destruct (coord_attrs r !! t); simpl;
    by rewrite ?lookup_insert_ne.
Qed.

Lemma calendar_corrected_twice t r :
  calendar_corrected t (calendar_corrected t r) = calendar_corrected t r.
Proof.
  pose proof (calendar_corrected_calendar t r) as Hcal.
  pose proof (calendar_corrected_units t r) as Hunits.
  unfold calendar_corrected at 1.
  rewrite bool_decide_eq_false_2 by done. rewrite Hunits.
  destruct (match default ∅ (coord_attrs r !! t) !! "units"%string with
            | Some u => _ | None => _ end) eqn:Hm; [|done].
  unfold calendar_corrected.
  case_bool_decide; [by rewrite with_attr_twice|].
  rewrite Hm. by rewrite with_attr_twice.
Qed.

(** X1: called twice in place on an array with a time dimension,
    [correct_calendar] leaves after the second call the array the first
    call left; in that array the calendar attribute of the time coordinate
    is never "360". *)
Theorem correct_calendar_in_place_twice w self t r :
  _t_dim self = Some t →
  heap w !! _obj self = Some r →
  ∃ w1 r1 w2,
    correct_calendar self true w = (Ok None, w1) ∧
    heap w1 !! _obj self = Some r1 ∧
    correct_calendar self true w1 = (Ok None, w2) ∧
    heap w2 !! _obj self = Some r1 ∧
    default ∅ (coord_attrs r1 !! t) !! "calendar"%string ≠ Some "360"%string.
Proof.
  intros Ht Hr.
  destruct (correct_calendar_run w self t r true Ht Hr)
    as (w1 & res & target & Hrun & (-> & ->) & Hl1).
  destruct (correct_calendar_run w1 self t _ true Ht Hl1)
    as (w2 & res & target & Hrun2 & (-> & ->) & Hl2).
  rewrite calendar_corrected_twice in Hl2.
  exists w1, (calendar_corrected t r), w2. split_and!; try done.
  apply calendar_corrected_calendar.
Qed.

(** X2: in either mode [correct_calendar] changes at most the
    "calendar" attribute of the time coordinate of the array it works on:
    the names of the dimensions, the labels of the spatial and of the
    non-spatial dimensions, samples, CRS, the attributes of every other
    coordinate and every other attribute of the time coordinate are those
    of the receiver, and every other object of the store is left as it
    was. *)
Theorem correct_calendar_touches_only_calendar w self t r (inplace : bool) :
  _t_dim self = Some t →
  heap w !! _obj self = Some r →
  ∃ w' res target r',
    correct_calendar self inplace w = (Ok res, w') ∧
    (if inplace then target = _obj self else res = Some target) ∧
    heap w' !! target = Some r' ∧
    x_dim r' = x_dim r ∧ y_dim r' = y_dim r ∧ extra_dims r' = extra_dims r ∧
    dims r' = dims r ∧ lon r' = lon r ∧ lat r' = lat r ∧
    planes r' = planes r ∧ crs r' = crs r ∧
    (∀ name, name ≠ t → coord_attrs r' !! name = coord_attrs r !! name) ∧
    (∀ key, key ≠ "calendar"%string →
       default ∅ (coord_attrs r' !! t) !! key = default ∅ (coord_attrs r !! t) !! key) ∧
    (∀ l r0, l ≠ target → heap w !! l = Some r0 → heap w' !! l = Some r0).
Proof.
  intros Ht Hr.
  assert (∀ r0 : @DataArray V,
            dims (with_attr t "calendar" "360_day" r0) = dims r0 ∧
            (∀ name, name ≠ t →
               coord_attrs (with_attr t "calendar" "360_day" r0) !! name
               = coord_attrs r0 !! name) ∧
            (∀ key, key ≠ "calendar"%string →
               default ∅ (coord_attrs (with_attr t "calendar" "360_day" r0) !! t) !! key
               = default ∅ (coord_attrs r0 !! t) !! key)) as Hwith.
  { intros r0. split_and!; [done| |].
    - intros name Hname. unfold with_attr. simpl. by rewrite lookup_alter_ne.
    - intros key Hkey. rewrite with_attr_lookup.
      destruct (coord_attrs r0 !! t); simpl; [|done]. by rewrite lookup_insert_ne. }
  assert (dims (calendar_corrected t r) = dims r ∧
          lon (calendar_corrected t r) = lon r ∧ lat (calendar_corrected t r) = lat r ∧
          planes (calendar_corrected t r) = planes r ∧
          crs (calendar_corrected t r) = crs r ∧
          (∀ name, name ≠ t →
             coord_attrs (calendar_corrected t r) !! name = coord_attrs r !! name) ∧
          (∀ key, key ≠ "calendar"%string →
             default ∅ (coord_attrs (calendar_corrected t r) !! t) !! key
             = default ∅ (coord_attrs r !! t) !! key)) as Hsame.
  { destruct (Hwith r) as (Hd & Hn & Hk). unfold calendar_corrected.
    case_bool_decide; [done|].
    by destruct (match _ with Some u => _ | None => _ end). }
  assert (x_dim (calendar_corrected t r) = x_dim r ∧
          y_dim (calendar_corrected t r) = y_dim r ∧
          extra_dims (calendar_corrected t r) = extra_dims r) as Hstruct.
  { unfold calendar_corrected. case_bool_decide; [done|].
    by destruct (match _ with Some u => _ | None => _ end). }
  unfold correct_calendar, _get_obj, t_dim, get_attrs, set_attr.
  pose proof (fresh_loc_None w) as Hfresh.
  pose proof (fresh_loc_ne w _ _ Hr) as Hne.
  destruct (correct_calendar_run w self t r inplace Ht Hr)
    as (w' & res & target & Hrun & Hmode & Htarget).
  exists w', res, target, (calendar_corrected t r).
  destruct Hsame as (? & ? & ? & ? & ? & ? & ?).
  destruct Hstruct as (? & ? & ?).
  split_and!; try done.
  - destruct inplace; by destruct Hmode.
  - (* every other object is as before *)
    revert Hrun. unfold correct_calendar, _get_obj, t_dim, get_attrs, set_attr.
    rewrite Ht. intros Hrun l r0 Hl Hl0.
    destruct inplace; revert Hrun; run; rewrite Hr; simpl.
    + destruct Hmode as [_ ->].
      case_bool_decide; simpl;
        [|destruct (match _ with Some u => _ | None => _ end); simpl];
        rewrite ?Hr; simpl; intros [= _ <-]; simpl;
        by rewrite ?lookup_insert_ne.
    + destruct Hmode as (-> & Hnone & _).
      rewrite lookup_insert_eq. simpl.
      case_bool_decide; simpl;
        [|destruct (match _ with Some u => _ | None => _ end); simpl];
        rewrite ?lookup_insert_eq; simpl; intros [= Heq <-]; simpl;
        subst target; by rewrite ?lookup_insert_ne.
Qed.

(** X3: on an array with none of the dimensions "t", "T", "time",
    wrapping sets no time dimension, reading [t_dim] raises DimensionError
    and so does [correct_calendar] in either mode, logging nothing and
    leaving the array as it was. *)
Theorem correct_calendar_without_time_dimension w l r (inplace : bool) :
  heap w !! l = Some r →
  "t"%string ∉ dims r → "T"%string ∉ dims r → "time"%string ∉ dims r →
  ∃ self w',
    __init__ l w = (Ok self, w) ∧
    t_dim self w = (Raise DimensionError, w) ∧
    correct_calendar self inplace w = (Raise DimensionError, w') ∧
    heap w' !! l = Some r ∧
    log w' = log w.
Proof.
  intros Hr H1 H2 H3.
  assert (default_t_dim (dims r) = None) as Hnone.
  { rewrite default_t_dim_spec. by rewrite !bool_decide_eq_false_2. }
  exists {| _obj := l; _t_dim := None |}.
  unfold __init__, correct_calendar, _get_obj, t_dim.
  destruct inplace; run; rewrite Hr; simpl; rewrite Hnone.
  - exists w. done.
  - eexists. split_and!; try done. simpl.
    rewrite lookup_insert_ne; [done|]. by eapply fresh_loc_ne.
Qed.

(** X4: [set_time_dim] with a name that is not a dimension of the
    array raises DimensionError in either mode, logging nothing and leaving
    the array as it was. *)
Theorem set_time_dim_unknown_dimension w self r (name : string) (inplace : bool) :
  heap w !! _obj self = Some r →
  name ∉ dims r →
  ∃ w',
    set_time_dim self name inplace w = (Raise DimensionError, w') ∧
    heap w' !! _obj self = Some r ∧
    log w' = log w.
Proof.
  intros Hr Hname. unfold set_time_dim, _get_obj.
  destruct inplace; run; rewrite Hr; simpl.
  - rewrite bool_decide_eq_false_2 by done. by exists w.
  - rewrite lookup_insert_eq. simpl. rewrite bool_decide_eq_false_2 by done.
    eexists. split_and!; try done. simpl.
    rewrite lookup_insert_ne; [done|]. by eapply fresh_loc_ne.
Qed.

(** X5: [set_time_dim] with the name of a dimension succeeds; the
    accessor of the array it worked on then reports that name as the time
    dimension; the contents of the arrays are untouched; in place nothing
    is returned and the accessor is the receiver's, otherwise the accessor
    is that of a new copy, which is returned. *)
Theorem set_time_dim_declares w self r (name : string) (inplace : bool) :
  heap w !! _obj self = Some r →
  name ∈ dims r →
  ∃ w' aat res,
    set_time_dim self name inplace w = (Ok (aat, res), w') ∧
    t_dim aat w' = (Ok name, w') ∧
    heap w' !! _obj aat = Some r ∧
    heap w' !! _obj self = Some r ∧
    log w' = log w ∧
    (if inplace then res = None ∧ _obj aat = _obj self
     else res = Some (_obj aat) ∧ heap w !! _obj aat = None).
Proof.
  intros Hr Hname. unfold set_time_dim, _get_obj, __init__, t_dim.
  destruct inplace; run; rewrite Hr; simpl.
  - rewrite bool_decide_eq_true_2 by done. simpl.
    eexists _, _, _. split; [reflexivity|]. simpl. by split_and!.
  - rewrite lookup_insert_eq. simpl. rewrite bool_decide_eq_true_2 by done. simpl.
    rewrite lookup_insert_eq. simpl.
    eexists _, _, _. split; [reflexivity|]. simpl.
    rewrite lookup_insert_eq. split_and!; try done.
    + rewrite lookup_insert_ne; [done|]. by eapply fresh_loc_ne.
    + apply fresh_loc_None.
Qed.

End TimeAndCalendar.

(** ** Errors of the inversion *)

Section InversionErrors.
Context {V : Type}.
Implicit Types (w : @World V) (r : @DataArray V) (self : Aat).

Lemma check_coords_inverted_empty w self r :
  heap w !! _obj self = Some r →
  lon r = [] ∨ lat r = [] →
  ∃ w', _check_coords_inverted self w = (Raise IndexError, w').
Proof.
  intros Hr Hempty.
  destruct (get_obj_copy w self r Hr) as (l & w' & Hrun & Hl & Hheap & Hlog).
  assert (heap w' !! l = Some r) as Hl' by (by rewrite Hheap, lookup_insert_eq).
  exists w'. unfold _check_coords_inverted.
  rewrite (bind_ok _ _ _ _ _ Hrun), (bind_ok _ _ _ _ _ (deref_ok _ _ _ Hl')).
  unfold first_label, last_label. run.
  destruct Hempty as [-> | Hlat]; [done|]. rewrite Hlat.
  destruct (head (lon r)); [|done]. by destruct (last (lon r)).
Qed.

(** X6: on an array with an empty longitude or latitude axis,
    [invert_coordinates] raises IndexError in either mode and leaves the
    receiver as it was. *)
Theorem invert_coordinates_empty_axis w self r (inplace : bool) :
  heap w !! _obj self = Some r →
  lon r = [] ∨ lat r = [] →
  ∃ w',
    invert_coordinates self inplace w = (Raise IndexError, w') ∧
    heap w' !! _obj self = Some r.
Proof.
  intros Hr Hempty.
  assert (∃ w', invert_coordinates self inplace w = (Raise IndexError, w')) as [w' Hrun].
  { unfold invert_coordinates.
    destruct inplace.
    - destruct (check_coords_inverted_empty w self r Hr Hempty) as [w' Hchk].
      exists w'. unfold _get_obj. run. by rewrite Hchk.
    - destruct (get_obj_copy w self r Hr) as (l & w1 & Hcopy & Hl & Hheap & Hlog).
      assert (heap w1 !! _obj self = Some r) as Hr1.
      { rewrite Hheap, lookup_insert_ne; [done|]. intros ->. congruence. }
      destruct (check_coords_inverted_empty w1 self r Hr1 Hempty) as [w' Hchk].
      exists w'. rewrite (bind_ok _ _ _ _ _ Hcopy). run. by rewrite Hchk. }
  exists w'. split; [done|].
  eapply lookup_weaken; [exact Hr|]. by eapply preserving_invert_coordinates.
Qed.

Lemma reindex_all_repeated r :
  (lon_inverted r = true ∧ ¬ NoDup (lon r)) ∨
  (lat_inverted r = true ∧ ¬ NoDup (lat r)) →
  reindex_all r ((if lon_inverted r then [(X, reverse (lon r))] else []) ++
                 (if lat_inverted r then [(Y, reverse (lat r))] else []))
  = Raise ValueError.
Proof.
  intros Hdup.
  assert (∀ r0 : @DataArray V, lat_inverted r0 = true → ¬ NoDup (lat r0) →
            reindex_axis r0 Y (reverse (lat r0)) = Raise ValueError) as HY.
  { intros r0 Hinv Hnd. unfold reindex_axis. simpl.
    rewrite bool_decide_eq_false_2 by (by apply lat_inverted_ne).
    by rewrite bool_decide_eq_false_2. }
  destruct (lon_inverted r) eqn:Hx; simpl.
  - unfold reindex_axis at 1. simpl.
    rewrite bool_decide_eq_false_2 by (by apply lon_inverted_ne).
    destruct (decide (NoDup (lon r))) as [Hnd|Hnd].
    + rewrite bool_decide_eq_true_2 by done.
      destruct Hdup as [[_ ?]|[Hy Hndy]]; [done|]. rewrite Hy. simpl.
      match goal with
      | |- context [reindex_axis ?r1 Y _] =>
          let H := fresh in pose proof (HY r1) as H; simpl in H; by rewrite H
      end.
    + by rewrite bool_decide_eq_false_2.
  - destruct Hdup as [[? _]|[Hy Hndy]]; [done|]. rewrite Hy. simpl.
    by rewrite HY.
Qed.

(** X7: when an axis that would be reversed carries a label twice,
    [invert_coordinates] raises ValueError in either mode (reindexing
    needs unique labels) and leaves the receiver as it was. *)
Theorem invert_coordinates_repeated_labels w self r (inplace : bool) :
  heap w !! _obj self = Some r →
  lon r ≠ [] → lat r ≠ [] →
  (lon_inverted r = true ∧ ¬ NoDup (lon r)) ∨
  (lat_inverted r = true ∧ ¬ NoDup (lat r)) →
  ∃ w',
    invert_coordinates self inplace w = (Raise ValueError, w') ∧
    heap w' !! _obj self = Some r.
Proof.
  intros Hr Hlon Hlat Hdup.
  pose proof (reindex_all_repeated r Hdup) as Hre.
  assert (∃ w', invert_coordinates self inplace w = (Raise ValueError, w')) as [w' Hrun].
  { assert (∃ l w1, _get_obj self inplace w = (Ok l, w1) ∧ heap w1 !! l = Some r ∧
                    heap w1 !! _obj self = Some r) as (l & w1 & Hget & Hl & Hr1).
    { destruct inplace.
      - exists (_obj self), w. done.
      - destruct (get_obj_copy w self r Hr) as (l & w1 & Hcopy & Hl & Hheap & Hlog).
        exists l, w1. split; [done|]. rewrite Hheap.
        split; [by rewrite lookup_insert_eq|].
        rewrite lookup_insert_ne; [done|]. intros ->. congruence. }
    destruct (check_coords_inverted_ok w1 self r Hr1 Hlon Hlat)
      as (w2 & Hchk & Hsub & Hlog).
    pose proof (lookup_weaken _ _ _ _ Hl Hsub) as Hl2.
    unfold invert_coordinates.
    rewrite (bind_ok _ _ _ _ _ Hget), (bind_ok _ _ _ _ _ Hchk).
    unfold reindex.
    destruct (lon_inverted r) eqn:Hx, (lat_inverted r) eqn:Hy; simpl in Hre.
    - run. rewrite Hl2. simpl. rewrite Hl2. simpl. rewrite Hl2. simpl.
      simpl in Hre. rewrite Hre. eauto.
    - run. rewrite Hl2. simpl. rewrite Hl2. simpl. simpl in Hre. rewrite Hre. eauto.
    - run. rewrite Hl2. simpl. rewrite Hl2. simpl. simpl in Hre. rewrite Hre. eauto.
    - destruct Hdup as [[? _]|[? _]]; done. }
  exists w'. split; [done|].
  eapply lookup_weaken; [exact Hr|]. by eapply preserving_invert_coordinates.
Qed.

End InversionErrors.

(** ** The two conversions of the longitude range *)

Section LongitudeRanges.
Context {V : Type}.
Implicit Types (w : @World V) (r : @DataArray V) (self : Aat).

(** X8: for 64-bit integer longitude labels.  When some longitude
    exceeds 180, [change_longitude_range] leaves on the array it works on
    the longitudes mapped by the conversion of the code, in ascending
    order and all within [-180, 180); the conversion is
    ((lon + 180) mod 360) - 180 when no lon + 180 exceeds the largest
    64-bit integer (the sum wraps around otherwise); latitudes and
    samples are not touched.  In place that array is the receiver and
    nothing is returned; otherwise it is a new copy, and the receiver
    keeps its contents. *)
Theorem change_longitude_range_into_minus180_180 w self r (inplace : bool) :
  heap w !! _obj self = Some r →
  Exists (λ v, 180 < v) (lon r) →
  ∃ w1 res target r1,
    change_longitude_range self inplace w = (Ok res, w1) ∧
    (if inplace then res = None ∧ target = _obj self
     else res = Some target ∧ heap w !! target = None ∧ heap w1 !! _obj self = Some r) ∧
    heap w1 !! target = Some r1 ∧
    lon r1 ≡ₚ to_180 <$> lon r ∧
    (Forall (λ v, int64_min ≤ v ≤ int64_max - 180) (lon r) →
       lon r1 ≡ₚ (λ v, (v + 180) `mod` 360 - 180) <$> lon r) ∧
    Sorted Z.le (lon r1) ∧
    Forall (λ v, -180 ≤ v < 180) (lon r1) ∧
    lat r1 = lat r ∧ planes r1 = planes r.
Proof.
  intros Hr Hgt.
  destruct (change_longitude_range_run w self r inplace Hr)
    as (w1 & res & target & Hrun & Hmode & Htarget).
  exists w1, res, target, (converted r).
  destruct (converted_planes r) as [Hp Hy].
  rewrite (converted_180 r) in * by (by apply gt_nan_max). simpl.
  split_and!; try done.
  - apply np_sort_Permutation.
  - intros Hbounds. rewrite np_sort_Permutation.
    assert (to_180 <$> lon r = (λ v, (v + 180) `mod` 360 - 180) <$> lon r) as ->; [|done].
    apply (fmap_ext_Forall _ _ _ _ Hbounds).
    intros v Hv. simpl in Hv. apply to_180_exact; lia.
  - apply np_sort_Sorted.
  - rewrite np_sort_Permutation. apply Forall_fmap, Forall_forall.
    intros v _. apply to_180_range.
Qed.

(** X9: for 64-bit integer longitude labels.  When no longitude
    exceeds 180, none is below -360 and some longitude is negative,
    [change_longitude_range] leaves on the array it works on the
    longitudes with 360 added to the negative ones, in ascending order
    and all within [0, 360); latitudes and samples are not touched.  In
    place that array is the receiver and nothing is returned; otherwise
    it is a new copy, and the receiver keeps its contents. *)
Theorem change_longitude_range_into_0_360 w self r (inplace : bool) :
  heap w !! _obj self = Some r →
  Forall (λ v, -360 ≤ v ≤ 180) (lon r) →
  Exists (λ v, v < 0) (lon r) →
  ∃ w1 res target r1,
    change_longitude_range self inplace w = (Ok res, w1) ∧
    (if inplace then res = None ∧ target = _obj self
     else res = Some target ∧ heap w !! target = None ∧ heap w1 !! _obj self = Some r) ∧
    heap w1 !! target = Some r1 ∧
    lon r1 ≡ₚ (λ v, if bool_decide (v < 0) then v + 360 else v) <$> lon r ∧
    Sorted Z.le (lon r1) ∧
    Forall (λ v, 0 ≤ v < 360) (lon r1) ∧
    lat r1 = lat r ∧ planes r1 = planes r.
Proof.
  intros Hr Hall Hneg.
  destruct (change_longitude_range_run w self r inplace Hr)
    as (w1 & res & target & Hrun & Hmode & Htarget).
  exists w1, res, target, (converted r).
  destruct (converted_planes r) as [Hp Hy].
  assert (gt_nan (index_max (lon r)) 180 = false) as Hgt.
  { apply not_true_iff_false. intros Hgt.
    apply gt_nan_max, Exists_exists in Hgt as (x & Hx & Hx180).
    rewrite Forall_forall in Hall. specialize (Hall x Hx). lia. }
  rewrite (converted_360 r Hgt) in * by (by apply lt_nan_min). simpl.
  split_and!; try done.
  - rewrite np_sort_Permutation.
    assert (to_360 <$> lon r
            = (λ v, if bool_decide (v < 0) then v + 360 else v) <$> lon r) as ->; [|done].
    apply (fmap_ext_Forall _ _ _ _ Hall).
    intros v Hv. simpl in Hv. case_bool_decide.
    + apply to_360_negative; unfold int64_min; lia.
    + apply to_360_nonneg. lia.
  - apply np_sort_Sorted.
  - rewrite np_sort_Permutation. apply Forall_fmap.
    eapply Forall_impl; [exact Hall|]. intros v Hv.
    unfold compose. simpl in Hv. destruct (decide (v < 0)).
    + rewrite to_360_negative by (unfold int64_min; lia). lia.
    + rewrite to_360_nonneg by lia. lia.
Qed.

Lemma get_loc_shift (l : list Z) (c x : Z) :
  get_loc ((λ v, v + c) <$> l) (x + c) = get_loc l x.
Proof.
  induction l as [|u l IH]; [done|]. rewrite fmap_cons. cbn [get_loc].
  destruct (decide (u = x)) as [->|Hne].
  - by rewrite !bool_decide_eq_true_2.
  - rewrite !bool_decide_eq_false_2 by lia. by rewrite IH.
Qed.

Lemma np_sort_shift (l : list Z) (c : Z) :
  Sorted Z.le l → np_sort ((λ v, v + c) <$> l) = (λ v, v + c) <$> l.
Proof.
  intros Hs. apply np_sort_id.
  eapply (Sorted_fmap _ Z.le Z.le); [|exact Hs]. intros x y Hxy. simpl. lia.
Qed.

Lemma sel_with_lon_shift r (c : Z) k y x :
  sel (with_lon ((λ v, v + c) <$> lon r) r) k y (x + c) = sel r k y x.
Proof. unfold sel. simpl. by rewrite get_loc_shift. Qed.

(** X10: for 64-bit integer longitude labels.  For ascending
    longitudes that lie all on one side, the conversion is a shift that
    keeps every sample under its longitude:
    all within (180, 360] gives lon - 360, all within [-180, 0) gives
    lon + 360, and selecting by the shifted longitude gives the sample
    that the original longitude selected. *)
Theorem change_longitude_range_one_sided w self r :
  heap w !! _obj self = Some r →
  lon r ≠ [] →
  Sorted Z.le (lon r) →
  (Forall (λ v, 180 < v ≤ 360) (lon r) →
     ∃ w1 l1 r1,
       change_longitude_range self false w = (Ok (Some l1), w1) ∧
       heap w1 !! l1 = Some r1 ∧
       lon r1 = (λ v, v - 360) <$> lon r ∧
       ∀ k y x, sel r1 k y (x - 360) = sel r k y x) ∧
  (Forall (λ v, -180 ≤ v < 0) (lon r) →
     ∃ w1 l1 r1,
       change_longitude_range self false w = (Ok (Some l1), w1) ∧
       heap w1 !! l1 = Some r1 ∧
       lon r1 = (λ v, v + 360) <$> lon r ∧
       ∀ k y x, sel r1 k y (x + 360) = sel r k y x).
Proof.
  intros Hr Hne Hsorted.
  destruct (change_longitude_range_run w self r false Hr)
    as (w1 & res & l1 & Hrun & (-> & _ & _) & Hl1).
  assert (∃ x, x ∈ lon r) as [x0 Hx0].
  { destruct (lon r) as [|x ?]; [done|]. exists x. constructor. }
  split; intros Hall.
  - assert (to_180 <$> lon r = (λ v, v + -360) <$> lon r) as Hmap.
    { apply (fmap_ext_Forall _ _ _ _ Hall). intros v Hv.
      destruct (decide (v = 360)) as [->|?]; [done|]. rewrite to_180_high; lia. }
    assert (converted r = with_lon ((λ v, v + -360) <$> lon r) r) as Hconv.
    { rewrite converted_180.
      - by rewrite Hmap, np_sort_shift.
      - apply gt_nan_max, Exists_exists. exists x0. split; [done|].
        rewrite Forall_forall in Hall. specialize (Hall x0 Hx0). lia. }
    exists w1, l1, (converted r). split_and!; try done.
    + by rewrite Hconv.
    + intros k y x. rewrite Hconv.
      change (x - 360) with (x + -360). apply sel_with_lon_shift.
  - assert (to_360 <$> lon r = (λ v, v + 360) <$> lon r) as Hmap.
    { apply (fmap_ext_Forall _ _ _ _ Hall). intros v Hv.
      rewrite to_360_negative; [lia|]. unfold int64_min. lia. }
    assert (converted r = with_lon ((λ v, v + 360) <$> lon r) r) as Hconv.
    { rewrite converted_360.
      - by rewrite Hmap, np_sort_shift.
      - apply not_true_iff_false. intros Hgt.
        apply gt_nan_max, Exists_exists in Hgt as (x & Hx & Hx180).
        rewrite Forall_forall in Hall. specialize (Hall x Hx). lia.
      - apply lt_nan_min, Exists_exists. exists x0. split; [done|].
        rewrite Forall_forall in Hall. specialize (Hall x0 Hx0). lia. }
    exists w1, l1, (converted r). split_and!; try done.
    + by rewrite Hconv.
    + intros k y x. rewrite Hconv. apply sel_with_lon_shift.
Qed.

End LongitudeRanges.

(** ** Statistics: errors, the store, and the other cells of the table *)

Section StatisticsTable.
Context {V : Type}.
Context (np_reduce : string → list V → option V) (np_quantile : Z → list V → option V).
Context {Geom : Type} (rio_clip : @DataArray V → list Geom → bool → Res (@DataArray V)).
Context (xr_other : @DataArray V → string → Kwargs → Res (list (@Entry V))).
Implicit Types (w : @World V) (r : @DataArray V) (self : Aat).

(** X11: on an array without CRS, [compute_raster_statistics] raises
    MissingCRS before looking at any feature: nothing is logged and the
    receiver is unchanged. *)
Theorem compute_raster_statistics_missing_crs w self r (gdf : list (string * Geom))
    (feature_col : string) (stats_list : option (list string))
    (percentile_list : option (list Z)) (all_touched : bool) :
  heap w !! _obj self = Some r →
  crs r = None →
  ∃ w',
    compute_raster_statistics np_reduce np_quantile rio_clip xr_other self gdf feature_col
                              stats_list percentile_list all_touched w
      = (Raise MissingCRS, w') ∧
    log w' = log w ∧
    heap w' !! _obj self = Some r.
Proof.
  intros Hr Hcrs.
  destruct (get_obj_copy w self r Hr) as (l & w1 & Hrun & Hl & Hheap & Hlog).
  assert (heap w1 !! l = Some r) as Hl1 by (by rewrite Hheap, lookup_insert_eq).
  exists w1. split_and!; [|done|].
  - unfold compute_raster_statistics.
    rewrite (bind_ok _ _ _ _ _ Hrun), (bind_ok _ _ _ _ _ (deref_ok _ _ _ Hl1)).
    by rewrite Hcrs.
  - rewrite Hheap, lookup_insert_ne; [done|]. intros ->. congruence.
Qed.

Lemma preserving_try_except {A} (m handler : M (@World V) A) e :
  preserving m → preserving handler → preserving (try_except m e handler).
Proof.
  intros Hm Hh w res w'. unfold try_except.
  destruct (m w) as [[a|e'] w1] eqn:Hrun.
  - intros [= <- <-]. by eapply Hm.
  - case_bool_decide.
    + intros Hhandler. etrans; [by eapply Hm|by eapply Hh].
    + intros [= <- <-]. by eapply Hm.
Qed.

Lemma preserving_feature_frame r (gdf : list (string * Geom)) feature_col stats
    percentiles all_touched feature :
  preserving (V:=V) (feature_frame np_reduce np_quantile rio_clip xr_other r gdf
                       feature_col stats percentiles all_touched feature).
Proof.
  unfold feature_frame. apply preserving_bind.
  - apply preserving_try_except.
    + apply preserving_bind; [apply preserving_lift|]. intros ?. apply preserving_ret.
    + apply preserving_bind; [apply preserving_logger|]. intros ?. apply preserving_ret.
  - intros [da_clip|]; [|apply preserving_ret].
    apply preserving_bind; [apply preserving_lift|]. intros gs.
    apply preserving_bind.
    + destruct percentiles; [|apply preserving_ret].
      apply preserving_bind; [apply preserving_lift|]. intros ?. apply preserving_ret.
    + intros ?. apply preserving_bind; [apply preserving_lift|]. intros ?.
      apply preserving_bind; [apply preserving_lift|]. intros ?.
      apply preserving_ret.
Qed.

Lemma preserving_for_features
    (body : string → M (@World V) (option (list (gmap string (@Entry V))))) features df_list :
  (∀ f, preserving (body f)) → preserving (for_features body features df_list).
Proof.
  intros Hbody. revert df_list. induction features as [|f fs IH]; intros df_list; simpl.
  - apply preserving_ret.
  - apply preserving_bind; [apply Hbody|]. intros ?. apply IH.
Qed.

(** X12: [compute_raster_statistics] never modifies or removes an
    object of the store, whatever its arguments and its outcome: every
    array present before the call is present, unchanged, after it. *)
Theorem compute_raster_statistics_reads_only w self (gdf : list (string * Geom))
    (feature_col : string) (stats_list : option (list string))
    (percentile_list : option (list Z)) (all_touched : bool) :
  heap w ⊆
  heap (compute_raster_statistics np_reduce np_quantile rio_clip xr_other self gdf
          feature_col stats_list percentile_list all_touched w).2.
Proof.
  assert (preserving (V:=V)
            (compute_raster_statistics np_reduce np_quantile rio_clip xr_other self gdf
               feature_col stats_list percentile_list all_touched)) as Hp.
  { unfold compute_raster_statistics.
    apply preserving_bind; [apply preserving_get_obj|]. intros l.
    apply preserving_bind; [apply preserving_deref|]. intros r.
    destruct (crs r); [|apply preserving_raise].
    apply preserving_bind; [|intros ?; apply preserving_lift].
    apply preserving_for_features. intros f. apply preserving_feature_frame. }
  destruct (compute_raster_statistics _ _ _ _ _ _ _ _ _ _ w) as [res w'] eqn:Hrun.
  by eapply Hp.
Qed.

Lemma feature_frame_empty_request w r (gdf : list (string * Geom)) feature_col percentiles
    all_touched feature da_clip :
  clip_of rio_clip r gdf all_touched feature = Ok da_clip →
  default [] percentiles = [] →
  feature_frame np_reduce np_quantile rio_clip xr_other r gdf feature_col []
                percentiles all_touched feature w = (Raise IndexError, w).
Proof.
  unfold clip_of. intros Hclip Hpct. unfold feature_frame, try_except. run.
  rewrite Hclip. simpl. destruct percentiles as [pl|]; simpl in *; [subst pl|]; done.
Qed.

(** A loop whose first overlapping feature raises: the features before
    it are skipped, and the error ends the call. *)
Lemma for_features_raises
    (body : string → M (@World V) (option (list (gmap string (@Entry V)))))
    (ok : string → bool) (e : Exn) (features : list string) :
  (∀ f, f ∈ features → ok f = false →
     ∀ w, body f w = (Ok None, {| heap := heap w; log := log w ++ [skip_warning f] |})) →
  (∀ f, f ∈ features → ok f = true → ∀ w, body f w = (Raise e, w)) →
  Exists (λ f, ok f = true) features →
  ∀ df_list w, ∃ w', for_features body features df_list w = (Raise e, w').
Proof.
  induction features as [|f fs IH]; intros Hskip Hraise Hex df_list w.
  - by apply Exists_nil in Hex.
  - simpl. unfold mbind at 1, M_bind.
    destruct (ok f) eqn:Hf.
    + rewrite (Hraise f (list_elem_of_here _ _) Hf). eauto.
    + rewrite (Hskip f (list_elem_of_here _ _) Hf).
      apply IH.
      * intros g Hg. apply Hskip. by right.
      * intros g Hg. apply Hraise. by right.
      * apply Exists_cons in Hex as [Hex|Hex]; [congruence|done].
Qed.

Lemma compute_raster_statistics_raises
    w self r (c : string) (gdf : list (string * Geom)) (feature_col : string)
    (stats_list : option (list string)) (percentile_list : option (list Z))
    (all_touched : bool) (e : Exn) :
  heap w !! _obj self = Some r →
  crs r = Some c →
  (∀ f, f ∈ unique (gdf.*1) →
     match clip_of rio_clip r gdf all_touched f with
     | Ok _ => ∀ w0, feature_frame np_reduce np_quantile rio_clip xr_other r gdf feature_col
                       (default default_stats stats_list) percentile_list all_touched f w0
                     = (Raise e, w0)
     | Raise e' => e' = NoDataInBounds
     end) →
  Exists (λ f, overlaps rio_clip r gdf all_touched f = true) (unique (gdf.*1)) →
  ∃ w',
    compute_raster_statistics np_reduce np_quantile rio_clip xr_other self gdf feature_col
                              stats_list percentile_list all_touched w
      = (Raise e, w').
Proof.
  intros Hr Hcrs Hclip Hsome.
  destruct (get_obj_copy w self r Hr) as (l & w1 & Hrun & Hl & Hheap & Hlog).
  assert (heap w1 !! l = Some r) as Hl1 by (by rewrite Hheap, lookup_insert_eq).
  destruct (for_features_raises
              (feature_frame np_reduce np_quantile rio_clip xr_other r gdf feature_col
                 (default default_stats stats_list) percentile_list all_touched)
              (overlaps rio_clip r gdf all_touched) e (unique (gdf.*1)))
    with (df_list := @nil (list (gmap string (@Entry V)))) (w := w1) as [w' Hfor].
  { intros f Hf Hok w0. apply feature_frame_skip.
    specialize (Hclip f Hf). unfold overlaps in Hok.
    destruct (clip_of rio_clip r gdf all_touched f); [done|]. by subst. }
  { intros f Hf Hok w0. specialize (Hclip f Hf). unfold overlaps in Hok.
    destruct (clip_of rio_clip r gdf all_touched f); [done|done]. }
  { done. }
  exists w'. unfold compute_raster_statistics.
  rewrite (bind_ok _ _ _ _ _ Hrun), (bind_ok _ _ _ _ _ (deref_ok _ _ _ Hl1)).
  rewrite Hcrs.
  change (match stats_list with
          | Some l0 => l0
          | None => ["mean"; "std"; "min"; "max"; "sum"; "count"]%string
          end) with (default default_stats stats_list).
  unfold mbind, M_bind. by rewrite Hfor.
Qed.

(** X13: with an empty list of statistics and no percentile,
    [compute_raster_statistics] raises IndexError as soon as a feature
    overlaps the raster: there is no first reduced array to look at. *)
Theorem compute_raster_statistics_empty_request w self r (c : string)
    (gdf : list (string * Geom)) (feature_col : string)
    (percentile_list : option (list Z)) (all_touched : bool) :
  heap w !! _obj self = Some r →
  crs r = Some c →
  default [] percentile_list = [] →
  (∀ f, f ∈ unique (gdf.*1) →
     match clip_of rio_clip r gdf all_touched f with
     | Ok _ => True
     | Raise e => e = NoDataInBounds
     end) →
  Exists (λ f, overlaps rio_clip r gdf all_touched f = true) (unique (gdf.*1)) →
  ∃ w',
    compute_raster_statistics np_reduce np_quantile rio_clip xr_other self gdf feature_col
                              (Some []) percentile_list all_touched w
      = (Raise IndexError, w').
Proof.
  intros Hr Hcrs Hpct Hclip Hsome.
  apply (compute_raster_statistics_raises w self r c); [done..| |done].
  intros f Hf. specialize (Hclip f Hf).
  destruct (clip_of rio_clip r gdf all_touched f) as [da_clip|] eqn:Hc; [|done].
  intros w0. by eapply feature_frame_empty_request.
Qed.

(** X14: the other cells of the table.  Under the hypotheses of the
    count of rows, and when the non-spatial dimensions have distinct
    names, row k of the block of an overlapping feature holds, for each
    requested percentile, the percentile of the cells of the k-th window
    of the feature's clipped array, and under the name of each
    non-spatial dimension (other than the feature column) the label of
    the k-th combination. *)
Theorem compute_raster_statistics_cells
    w self r (c : string) (gdf : list (string * Geom)) (feature_col : string)
    (stats_list : option (list string)) (percentile_list : option (list Z))
    (all_touched : bool) :
  let features := unique (gdf.*1) in
  let stats := default default_stats stats_list in
  let ok := overlaps rio_clip r gdf all_touched in
  heap w !! _obj self = Some r →
  crs r = Some c →
  supported_request stats percentile_list →
  clash_free feature_col stats percentile_list (extra_dims r) →
  NoDup (extra_dims r).*1 →
  (∀ f, f ∈ features →
     match clip_of rio_clip r gdf all_touched f with
     | Ok da_clip => extra_dims da_clip = extra_dims r
     | Raise e => e = NoDataInBounds
     end) →
  ∃ w' blocks,
    compute_raster_statistics np_reduce np_quantile rio_clip xr_other self gdf feature_col
                              stats_list percentile_list all_touched w
      = (pd_concat blocks, w') ∧
    Forall2 (other_cells_of rio_clip np_quantile r gdf feature_col percentile_list
                            all_touched)
            (filter (λ f, ok f = true) features) blocks.
Proof.
  intros features stats ok Hr Hcrs Hreq Hfree Hnd Hclip.
  destruct (compute_raster_statistics_blocks np_reduce np_quantile rio_clip xr_other
              w self r c gdf feature_col stats_list percentile_list all_touched
              Hr Hcrs Hreq Hfree Hclip) as (w' & blocks & Hrun & _ & Hall).
  exists w', blocks. split; [done|].
  eapply Forall2_impl; [exact Hall|].
  intros f block (da_clip & Hc & _ & _ & Hq & Hlab).
  exists da_clip. split_and!; [done|done|by apply Hlab].
Qed.

(** X20: a requested statistic whose column would be named as a
    non-spatial dimension of the raster stops the call: when the raster
    has such dimensions, [xr.merge] refuses the reduced array that is
    named as one of its coordinates, and [compute_raster_statistics]
    raises ValueError at the first overlapping feature. *)
Theorem compute_raster_statistics_name_clash
    w self r (c : string) (gdf : list (string * Geom)) (feature_col : string)
    (stats_list : option (list string)) (percentile_list : option (list Z))
    (all_touched : bool) (stat : string) :
  let stats := default default_stats stats_list in
  heap w !! _obj self = Some r →
  crs r = Some c →
  supported_request stats percentile_list →
  stat ∈ stats →
  stat +:+ "_" +:+ feature_col ∈ (extra_dims r).*1 →
  (∀ f, f ∈ unique (gdf.*1) →
     match clip_of rio_clip r gdf all_touched f with
     | Ok da_clip => extra_dims da_clip = extra_dims r
     | Raise e => e = NoDataInBounds
     end) →
  Exists (λ f, overlaps rio_clip r gdf all_touched f = true) (unique (gdf.*1)) →
  ∃ w',
    compute_raster_statistics np_reduce np_quantile rio_clip xr_other self gdf feature_col
                              stats_list percentile_list all_touched w
      = (Raise ValueError, w').
Proof.
  intros stats Hr Hcrs Hreq Hstat Hdim Hclip Hsome.
  apply (compute_raster_statistics_raises w self r c); [done..| |done].
  intros f Hf. specialize (Hclip f Hf).
  destruct (clip_of rio_clip r gdf all_touched f) as [da_clip|] eqn:Hc; [|done].
  intros w0. fold stats.
  destruct (reduced_arrays np_reduce np_quantile xr_other da_clip feature_col stats
              percentile_list Hreq)
    as (gs & gq & Hgs & Hgq & Hhas_s & _ & Hfrom_s & Hfrom_q & Hnil).
  set (grid_stat_all := match percentile_list with Some _ => gs ++ gq | None => gs end) in *.
  assert (∃ first, head grid_stat_all = Some first) as [first Hfirst].
  { destruct grid_stat_all; [done|]. eauto. }
  assert (rdims first = extra_dims r) as Hfd.
  { assert (first ∈ grid_stat_all) as Hin.
    { destruct grid_stat_all; [done|]. injection Hfirst as ->. constructor. }
    rewrite <- Hclip. subst grid_stat_all.
    destruct percentile_list.
    - apply elem_of_app in Hin as [Hin|Hin].
      + by destruct (Hfrom_s first Hin) as (? & _ & _ & ? & _).
      + by destruct (Hfrom_q first Hin) as (? & _ & _ & ? & _).
    - by destruct (Hfrom_s first Hin) as (? & _ & _ & ? & _). }
  assert (Exists (λ da_stat, name da_stat ∈ coords da_stat) grid_stat_all) as Hclash.
  { destruct (Hhas_s stat Hstat) as (g & Hg & Hname).
    destruct (Hfrom_s g Hg) as (_ & _ & _ & Hd & _).
    apply Exists_exists. exists g. split.
    - subst grid_stat_all. destruct percentile_list; [apply elem_of_app; by left|done].
    - unfold coords. rewrite Hname, Hd, Hclip. apply elem_of_app. by left. }
  unfold clip_of in Hc. unfold feature_frame, try_except. run. rewrite Hc. simpl.
  rewrite Hgs. simpl.
  assert (merged_frame first grid_stat_all = Raise ValueError) as Hmerge.
  { unfold merged_frame. by rewrite bool_decide_eq_true_2. }
  destruct (rdims first) as [|d ds] eqn:Hd.
  { rewrite <- Hfd in Hdim. by apply elem_of_nil in Hdim. }
  destruct percentile_list as [pl|]; simpl in *.
  - rewrite Hgq. simpl. fold grid_stat_all. rewrite Hfirst. simpl.
    rewrite Hd, Hmerge. reflexivity.
  - fold grid_stat_all. rewrite Hfirst. simpl. rewrite Hd, Hmerge. reflexivity.
Qed.

Lemma mapM_Res_first_raise {A B} (f : A → Res B) (before after : list A) (x : A) e :
  Forall (λ x, ∃ y, f x = Ok y) before →
  f x = Raise e →
  mapM f (before ++ x :: after) = Raise e.
Proof.
  intros Hbefore Hx. induction Hbefore as [|a before [y Hy] _ IH].
  - change (mapM f ([] ++ x :: after))
      with (f x ≫= λ y, mapM f after ≫= λ k, mret (y :: k)).
    by rewrite Hx.
  - change (mapM f ((a :: before) ++ x :: after))
      with (f a ≫= λ y, mapM f (before ++ x :: after) ≫= λ k, mret (y :: k)).
    by rewrite Hy, IH.
Qed.

Lemma stat_kwargs_other (stat : string) :
  stat ∉ default_stats →
  stat_kwargs stat = {| skipna := Some true; min_count := None |}.
Proof.
  intros Hstat. unfold stat_kwargs.
  assert (stat ≠ "count"%string) as Hcount.
  { intros ->. apply Hstat. by_compute. }
  assert (stat ≠ "sum"%string) as Hsum.
  { intros ->. apply Hstat. by_compute. }
  rewrite (bool_decide_eq_true_2 _ Hcount).
  by rewrite (bool_decide_eq_false_2 _ Hsum).
Qed.


End StatisticsTable.

(** ** Ensemble assembly: placement of the control, errors, attributes *)

Section EnsembleAssembly.
Import Forecast.
Context {S : Type}.
Implicit Types (ds : @Dataset S) (file : @GribFile S).

Lemma dense_rank_two (ascending : bool) (c v : Z) :
  dense_rank ascending [c; v] c
    = (if (if ascending then bool_decide (v < c) else bool_decide (c < v))
       then 1%nat else 0%nat) ∧
  dense_rank ascending [c; v] v
    = (if (if ascending then bool_decide (c < v) else bool_decide (v < c))
       then 1%nat else 0%nat).
Proof.
  unfold dense_rank. destruct ascending; simpl;
    rewrite !filter_cons, !filter_nil;
    repeat case_decide; repeat case_bool_decide; try lia; done.
Qed.

Lemma combine_two control perturbed c v labels ds :
  number control = Dim (Some [c]) →
  number perturbed = Dim (Some (v :: labels)) →
  _combine_single_variable_hypercube [control; perturbed] = Ok ds →
  ∃ p, ds = assembled p control perturbed ∧
       (∃ index, number ds = Dim (Some index) ∧ monotonic index = true) ∧
       match p with
       | ControlFirst => c ≠ v
       | ControlLast => c ≠ v
       | ControlDropped => c = v ∧ labels ≠ []
       end.
Proof.
  intros Hc Hp. unfold _combine_single_variable_hypercube, infer_concat_order. rewrite Hc.
  assert (mapM (λ ds, match number_index ds with
                      | Some index => Ok index
                      | None => Raise ValueError
                      end) [control; perturbed] = Ok [[c]; v :: labels]) as ->.
  { cbn. unfold number_index. by rewrite Hc, Hp. }
  cbn -[dense_rank is_monotonic_increasing is_monotonic_decreasing bool_decide concat_number].
  case_bool_decide as Heq; [done|].
  assert (¬ (c = v ∧ labels = [])) as Hne.
  { intros [-> ->]. apply Heq. by repeat constructor. }
  set (ascending := if is_monotonic_increasing (v :: labels) then Ok true
                    else if is_monotonic_decreasing (v :: labels) then Ok false
                    else Raise ValueError).
  assert ((if is_monotonic_increasing [c] && (is_monotonic_increasing (v :: labels) && true)
           then Ok true
           else if is_monotonic_decreasing [c] && (is_monotonic_decreasing (v :: labels) && true)
                then Ok false else Raise ValueError) = ascending) as ->.
  { subst ascending. change (is_monotonic_increasing [c]) with true.
    change (is_monotonic_decreasing [c]) with true. by rewrite !andb_true_r. }
  destruct ascending as [asc|]; [|done].
  cbn -[dense_rank is_monotonic_increasing is_monotonic_decreasing concat_number].
  destruct (dense_rank_two asc c v) as [-> ->].
  destruct (Z.lt_total c v) as [Hlt|[Heqv|Hgt]]; destruct asc;
    repeat case_bool_decide; try lia;
    cbn -[is_monotonic_increasing is_monotonic_decreasing concat_number];
    repeat case_decide; try done;
    cbn -[is_monotonic_increasing is_monotonic_decreasing concat_number];
    match goal with
    | |- context [number_index (concat_number ?l)] =>
        change (number_index (concat_number l)) with (Some (concat (omap number_index l)));
        cbv beta iota;
        fold (monotonic (concat (omap number_index l)));
        destruct (monotonic (concat (omap number_index l))) eqn:Hmono; [|done]
    end;
    intros [= <-].
  - exists ControlFirst. split_and!; [done|by eexists|lia].
  - exists ControlLast. split_and!; [done|by eexists|lia].
  - exists ControlDropped. split_and!; [done|by eexists|done|]. intros ->. by apply Hne.
  - exists ControlDropped. split_and!; [done|by eexists|done|]. intros ->. by apply Hne.
  - exists ControlLast. split_and!; [done|by eexists|lia].
  - exists ControlFirst. split_and!; [done|by eexists|lia].
Qed.

(** X16: a control dataset whose ["number"] is already a dimension makes
    the assembly raise ValueError, and so does a control dataset that
    holds data but no member label, when the perturbed dataset holds data
    as well. *)
Theorem ensemble_needs_control_label file :
  (∃ index, number (cf file) = Dim index) ∨
  (number (cf file) = Scalar None ∧
   has_data_vars (cf file) = true ∧ has_data_vars (pf file) = true) →
  _read_in_ensemble_and_perturbed_datasets file = Raise ValueError.
Proof.
  intros [[index Hcf]|(Hcf & Hdata & Hpf)]; rewrite read_in_unfold; unfold expand_dims;
    rewrite Hcf; [done|].
  rewrite combine_by_coords_two, Hpf.
  assert (has_data_vars {| number := Dim ((λ v : Z, [v]) <$> None);
                           realizations := realizations (cf file);
                           attrs := attrs (cf file) |} = true) as ->.
  { unfold has_data_vars in *. rewrite Hcf in Hdata. simpl.
    by destruct (realizations (cf file)). }
  by apply hypercube_unlabelled.
Qed.

(** X17: whenever the assembly succeeds, one of three things happened.
    The control dataset is empty and the result holds the perturbed
    members; or the perturbed dataset is empty and the result holds the
    control alone, along a member dimension of length one; or both hold
    data, the control carries a scalar label, the perturbed dataset a
    non-empty labelled ["number"] dimension, the member labels of the
    result are monotonic, and the control is not placed among the
    perturbed members: its label differs from the first perturbed label
    and the result is the control followed by the perturbed members or
    the perturbed members followed by the control, or the two labels tie
    and the result holds the perturbed members only, with the attributes
    of the perturbed dataset. *)
Theorem ensemble_placement file ds :
  _read_in_ensemble_and_perturbed_datasets file = Ok ds →
  (has_data_vars (cf file) = false ∧ has_data_vars (pf file) = true ∧
   number ds = number (pf file) ∧ realizations ds = realizations (pf file)) ∨
  (has_data_vars (cf file) = true ∧ has_data_vars (pf file) = false ∧
   (∃ value, number (cf file) = Scalar value ∧ number ds = Dim ((λ v, [v]) <$> value)) ∧
   realizations ds = realizations (cf file)) ∨
  (has_data_vars (cf file) = true ∧ has_data_vars (pf file) = true ∧
   ∃ c labels index,
     number (cf file) = Scalar (Some c) ∧
     number (pf file) = Dim (Some labels) ∧
     labels ≠ [] ∧
     number ds = Dim (Some index) ∧
     monotonic index = true ∧
     ((head labels ≠ Some c ∧
       ((index = c :: labels ∧
         realizations ds = realizations (cf file) ++ realizations (pf file)) ∨
        (index = labels ++ [c] ∧
         realizations ds = realizations (pf file) ++ realizations (cf file)))) ∨
      (head labels = Some c ∧ labels ≠ [c] ∧ index = labels ∧
       realizations ds = realizations (pf file) ∧ attrs ds = attrs (pf file)))).
Proof.
  rewrite read_in_unfold.
  destruct (expand_dims (cf file)) as [control|] eqn:Hexp; [|done].
  pose proof (has_data_vars_expand_dims _ _ Hexp) as Hdata.
  rewrite combine_by_coords_two, Hdata.
  unfold expand_dims in Hexp.
  destruct (number (cf file)) as [value|] eqn:Hcf; [|done].
  injection Hexp as <-.
  destruct (has_data_vars (cf file)) eqn:Hc, (has_data_vars (pf file)) eqn:Hp.
  - (* both hold data *)
    intros Hrun. right. right. split_and!; [done..|].
    destruct value as [c|]; [|by rewrite hypercube_unlabelled in Hrun].
    destruct (number (pf file)) as [?|[[|v labels]|]] eqn:Hpf.
    + exfalso. revert Hrun.
      unfold _combine_single_variable_hypercube, infer_concat_order. cbn.
      unfold number_index. by rewrite Hpf.
    + exfalso. revert Hrun.
      unfold _combine_single_variable_hypercube, infer_concat_order. cbn.
      unfold number_index. rewrite Hpf. cbn. case_bool_decide as Heq; [done|].
      done.
    + pose proof (λ H, combine_two _ _ c v labels ds H Hpf Hrun) as Htwo.
      destruct (Htwo eq_refl) as (p & -> & (index & Hidx & Hmono) & Hplace). clear Htwo.
      exists c, (v :: labels), index. split_and!; [done..|].
      revert Hidx. destruct p; unfold assembled, concat_number; cbn; unfold number_index;
        rewrite Hpf; cbn; rewrite ?app_nil_r; intros [= <-].
      * left. split; [intros [= ->]; done|]. by left.
      * left. split; [intros [= ->]; done|]. by right.
      * right. destruct Hplace as [-> Hne]. split_and!; try done.
        -- intros [= ->]. done.
        -- apply merge_attrs_single.
    + exfalso. revert Hrun.
      unfold _combine_single_variable_hypercube, infer_concat_order. cbn.
      unfold number_index. by rewrite Hpf.
  - intros [= <-]. right. left. split_and!; [done..|by exists value|done].
  - intros [= <-]. left. done.
  - done.
Qed.

Lemma is_monotonic_tail (le : Z → Z → bool) x l :
  is_monotonic le (x :: l) = true → is_monotonic le l = true.
Proof. destruct l as [|y l]; [done|]. simpl. by intros [_ ?]%andb_true_iff. Qed.

Lemma is_monotonic_first (le : Z → Z → bool) x l :
  (∀ a b c, le a b = true → le b c = true → le a c = true) →
  is_monotonic le (x :: l) = true → Forall (λ y, le x y = true) l.
Proof.
  intros Htrans. revert x. induction l as [|y l IH]; intros x Hm; [constructor|].
  simpl in Hm. apply andb_true_iff in Hm as [Hxy Hm].
  constructor; [done|].
  eapply Forall_impl; [exact (IH y Hm)|]. intros z Hyz. by eapply Htrans.
Qed.

Lemma is_monotonic_last (le : Z → Z → bool) x l :
  (∀ a b c, le a b = true → le b c = true → le a c = true) →
  is_monotonic le (l ++ [x]) = true → Forall (λ y, le y x = true) l.
Proof.
  intros Htrans. induction l as [|y l IH]; intros Hm; [constructor|].
  change ((y :: l) ++ [x]) with (y :: (l ++ [x])) in Hm.
  constructor.
  - pose proof (is_monotonic_first le y _ Htrans Hm) as Hall.
    apply Forall_app in Hall as [_ Hall]. apply Forall_cons in Hall as [Hall _]. exact Hall.
  - apply IH. by eapply is_monotonic_tail.
Qed.

Lemma monotonic_end (c : Z) (rest : list Z) (u v : Z) :
  monotonic (c :: rest) = true ∨ monotonic (rest ++ [c]) = true →
  u ∈ rest → v ∈ rest → u < c → c < v → False.
Proof.
  assert (∀ a b c : Z, (a <=? b) = true → (b <=? c) = true → (a <=? c) = true) as Hle.
  { intros a b d ?%Z.leb_le ?%Z.leb_le. apply Z.leb_le. lia. }
  assert (∀ a b c : Z, (a >=? b) = true → (b >=? c) = true → (a >=? c) = true) as Hge.
  { intros a b d ?%Z.geb_le ?%Z.geb_le. apply Z.geb_le. lia. }
  unfold monotonic, is_monotonic_increasing, is_monotonic_decreasing.
  intros [[Hm|Hm]%orb_true_iff|[Hm|Hm]%orb_true_iff] Hu Hv Huc Hcv.
  - apply (is_monotonic_first _ _ _ Hle) in Hm. rewrite Forall_forall in Hm.
    specialize (Hm u Hu). apply Z.leb_le in Hm. lia.
  - apply (is_monotonic_first _ _ _ Hge) in Hm. rewrite Forall_forall in Hm.
    specialize (Hm v Hv). apply Z.geb_le in Hm. lia.
  - apply (is_monotonic_last _ _ _ Hle) in Hm. rewrite Forall_forall in Hm.
    specialize (Hm v Hv). apply Z.leb_le in Hm. lia.
  - apply (is_monotonic_last _ _ _ Hge) in Hm. rewrite Forall_forall in Hm.
    specialize (Hm u Hu). apply Z.geb_le in Hm. lia.
Qed.

Lemma mapM_Res_raise {A B} (f : A → Res B) (l : list A) e :
  mapM f l = Raise e → ∃ x, x ∈ l ∧ f x = Raise e.
Proof.
  induction l as [|x l IH]; [done|].
  change (mapM f (x :: l)) with (f x ≫= λ y, mapM f l ≫= λ k, mret (y :: k)).
  destruct (f x) eqn:Hx.
  - destruct (mapM f l) eqn:Hl; [done|]. cbn. intros [= <-].
    destruct (IH eq_refl) as (y & Hy & Hfy). exists y. split; [by right|done].
  - cbn. intros [= <-]. exists x. split; [by left|done].
Qed.

Lemma infer_concat_order_raises (datasets : list (@Dataset S)) e :
  infer_concat_order datasets = Raise e → e = ValueError.
Proof.
  unfold infer_concat_order. destruct datasets as [|ds0 datasets]; [done|].
  destruct (number ds0) as [?|[index0|]]; [done| |done].
  destruct (mapM _ (ds0 :: datasets)) as [indexes|e'] eqn:Hm.
  - cbn -[mapM bool_decide]. case_bool_decide; [done|].
    destruct (forallb is_monotonic_increasing indexes);
      [|destruct (forallb is_monotonic_decreasing indexes)];
      cbn -[mapM]; try (by intros [= <-]).
    + destruct (mapM _ indexes) as [first_items|e''] eqn:Hf; [done|].
      cbn. intros [= <-]. apply mapM_Res_raise in Hf as (x & _ & Hx).
      destruct (head x); by inversion Hx.
    + destruct (mapM _ indexes) as [first_items|e''] eqn:Hf; [done|].
      cbn. intros [= <-]. apply mapM_Res_raise in Hf as (x & _ & Hx).
      destruct (head x); by inversion Hx.
  - cbn. intros [= <-]. apply mapM_Res_raise in Hm as (x & _ & Hx).
    destruct (number_index x); by inversion Hx.
Qed.

Lemma hypercube_raises (datasets : list (@Dataset S)) e :
  _combine_single_variable_hypercube datasets = Raise e → e = ValueError.
Proof.
  unfold _combine_single_variable_hypercube.
  destruct (infer_concat_order datasets) as [[positions|]|e'] eqn:Ho.
  - cbn -[concat_number is_monotonic_increasing is_monotonic_decreasing].
    destruct (number_index _); [|by intros [= <-]].
    destruct (_ || _); [done|by intros [= <-]].
  - cbn. destruct datasets as [|? [|]]; try done; by intros [= <-].
  - cbn. intros [= <-]. by eapply infer_concat_order_raises.
Qed.

Lemma read_in_raises file e :
  _read_in_ensemble_and_perturbed_datasets file = Raise e → e = ValueError.
Proof.
  rewrite read_in_unfold. unfold expand_dims.
  destruct (number (cf file)); [|by intros [= <-]].
  rewrite combine_by_coords_two.
  destruct (has_data_vars _), (has_data_vars _); try done.
  - apply hypercube_raises.
  - by intros [= <-].
Qed.

(** X18: a control label that lies strictly between two perturbed
    labels makes the assembly raise ValueError. *)
Theorem ensemble_control_label_inside_range file (c : Z) (labels : list Z) (u v : Z) :
  number (cf file) = Scalar (Some c) →
  number (pf file) = Dim (Some labels) →
  u ∈ labels → v ∈ labels → u < c → c < v →
  _read_in_ensemble_and_perturbed_datasets file = Raise ValueError.
Proof.
  intros Hcf Hpf Hu Hv Huc Hcv.
  destruct (_read_in_ensemble_and_perturbed_datasets file) as [ds|e] eqn:Hrun.
  - exfalso.
    rewrite (read_in_labelled file c Hcf (has_data_vars_index _ _ Hpf)) in Hrun.
    destruct labels as [|v0 labels]; [by apply elem_of_nil in Hu|].
    pose proof (λ H, combine_two _ _ c v0 labels ds H Hpf Hrun) as Htwo.
    destruct (Htwo eq_refl) as (p & -> & (index & Hidx & Hmono) & Hp). clear Htwo.
    revert Hidx. destruct p; unfold assembled, concat_number; cbn; unfold number_index;
      rewrite Hpf; cbn; rewrite ?app_nil_r; intros [= <-].
    + eapply (monotonic_end c (v0 :: labels) u v); eauto.
    + eapply (monotonic_end c (v0 :: labels) u v); eauto.
    + destruct Hp as [<- _].
      apply elem_of_cons in Hu as [->|Hu]; [lia|].
      apply elem_of_cons in Hv as [->|Hv]; [lia|].
      eapply (monotonic_end c labels u v); eauto.
  - f_equal. by eapply read_in_raises.
Qed.

Lemma merge_attrs_pair (a b : gmap string string) (k x : string) :
  merge_attrs [a; b] !! k = Some x ↔
    (a !! k = Some x ∨ b !! k = Some x) ∧
    (∀ y, a !! k = Some y → y = x) ∧ (∀ y, b !! k = Some y → y = x).
Proof.
  unfold merge_attrs. cbn [foldl]. rewrite merge_attrs_first.
  unfold merge_attrs_step. cbn.
  rewrite map_lookup_filter_Some, lookup_union_Some_raw, map_lookup_filter_Some. cbn.
  split.
  - intros [[Ha|[Ha [Hb _]]] [Hn|Hs]]; split_and!; eauto; intros y Hy; congruence.
  - intros ([Ha|Hb] & Hua & Hub).
    + split; [by left|]. destruct (b !! k) as [y|] eqn:Hb; [|by left].
      right. f_equal. by apply Hub.
    + destruct (a !! k) as [y|] eqn:Ha.
      * rewrite (Hua y eq_refl). split; [by left|by right].
      * split; [|by right]. right. split_and!; [done..|apply not_elem_of_empty].
Qed.

(** X19: when the assembly succeeds and the control label differs from
    the first perturbed label, an attribute is kept in the ensemble
    exactly when the control or the perturbed dataset has it and neither
    has it with a different value. *)
Theorem ensemble_attrs_drop_conflicts file ds (c : Z) (labels : list Z) :
  _read_in_ensemble_and_perturbed_datasets file = Ok ds →
  number (cf file) = Scalar (Some c) →
  number (pf file) = Dim (Some labels) →
  head labels ≠ Some c →
  ∀ k x,
    attrs ds !! k = Some x ↔
      (attrs (cf file) !! k = Some x ∨ attrs (pf file) !! k = Some x) ∧
      (∀ y, attrs (cf file) !! k = Some y → y = x) ∧
      (∀ y, attrs (pf file) !! k = Some y → y = x).
Proof.
  intros Hrun Hcf Hpf Hhead k x.
  rewrite (read_in_labelled file c Hcf (has_data_vars_index _ _ Hpf)) in Hrun.
  destruct labels as [|v labels].
  { exfalso. revert Hrun.
    unfold _combine_single_variable_hypercube, infer_concat_order. cbn.
    unfold number_index. rewrite Hpf. cbn. by case_bool_decide. }
  pose proof (λ H, combine_two _ _ c v labels ds H Hpf Hrun) as Htwo.
  destruct (Htwo eq_refl) as (p & -> & _ & Hp). clear Htwo.
  destruct p; unfold assembled, concat_number; cbn [attrs fmap list_fmap].
  - apply merge_attrs_pair.
  - rewrite merge_attrs_pair. tauto.
  - destruct Hp as [-> _]. by destruct Hhead.
Qed.

(** X22: a data type without message.  When the control dataset is
    empty and the perturbed dataset holds data, the assembly returns the
    perturbed members; when the perturbed dataset is empty and the
    control dataset holds data, it returns the control alone along a
    member dimension of length one; in both cases the attributes are
    those of the two datasets without conflicts.  When neither holds
    data, the assembly raises ValueError. *)
Theorem ensemble_with_empty_dataset file :
  (number (cf file) = Scalar None → realizations (cf file) = [] →
   has_data_vars (pf file) = true →
     ∃ ds, _read_in_ensemble_and_perturbed_datasets file = Ok ds ∧
           number ds = number (pf file) ∧
           realizations ds = realizations (pf file) ∧
           attrs ds = merge_attrs [attrs (cf file); attrs (pf file)]) ∧
  (has_data_vars (pf file) = false →
     ∀ value, number (cf file) = Scalar value → realizations (cf file) ≠ [] →
     ∃ ds, _read_in_ensemble_and_perturbed_datasets file = Ok ds ∧
           number ds = Dim ((λ v, [v]) <$> value) ∧
           realizations ds = realizations (cf file) ∧
           attrs ds = merge_attrs [attrs (pf file); attrs (cf file)]) ∧
  (has_data_vars (cf file) = false → has_data_vars (pf file) = false →
     _read_in_ensemble_and_perturbed_datasets file = Raise ValueError).
Proof.
  split_and!.
  - intros Hcf Hreal Hp. rewrite read_in_unfold. unfold expand_dims. rewrite Hcf.
    rewrite combine_by_coords_two, Hp.
    assert (has_data_vars {| number := Dim ((λ v : Z, [v]) <$> None);
                             realizations := realizations (cf file);
                             attrs := attrs (cf file) |} = false) as ->.
    { unfold has_data_vars. simpl. by rewrite Hreal. }
    eexists. split; [reflexivity|]. done.
  - intros Hp value Hcf Hne. rewrite read_in_unfold. unfold expand_dims. rewrite Hcf.
    rewrite combine_by_coords_two, Hp.
    assert (has_data_vars {| number := Dim ((λ v : Z, [v]) <$> value);
                             realizations := realizations (cf file);
                             attrs := attrs (cf file) |} = true) as ->.
    { unfold has_data_vars. simpl. destruct value; [done|].
      by destruct (realizations (cf file)). }
    eexists. split; [reflexivity|]. done.
  - intros Hc Hp. rewrite read_in_unfold.
    destruct (expand_dims (cf file)) as [control|e] eqn:Hexp.
    + by rewrite combine_by_coords_two, (has_data_vars_expand_dims _ _ Hexp), Hc, Hp.
    + unfold expand_dims in Hexp. destruct (number (cf file)); [done|].
      by injection Hexp as <-.
Qed.

End EnsembleAssembly.

(** ** The further properties on the example inputs *)

Lemma correct_calendar_in_place_twice_witness :
  _t_dim (accessor_of monthly_raster) = Some "T"%string ∧
  heap (world_of monthly_raster) !! _obj (accessor_of monthly_raster) = Some monthly_raster ∧
  ∃ w1 r1 w2,
    correct_calendar (accessor_of monthly_raster) true (world_of monthly_raster)
      = (Ok None, w1) ∧
    heap w1 !! _obj (accessor_of monthly_raster) = Some r1 ∧
    correct_calendar (accessor_of monthly_raster) true w1 = (Ok None, w2) ∧
    heap w2 !! _obj (accessor_of monthly_raster) = Some r1 ∧
    default ∅ (coord_attrs r1 !! "T"%string) !! "calendar"%string ≠ Some "360"%string.
Proof.
  split; [reflexivity|]. split; [reflexivity|].
  exact (correct_calendar_in_place_twice (world_of monthly_raster)
           (accessor_of monthly_raster) "T" monthly_raster eq_refl eq_refl).
Defined.

Lemma correct_calendar_touches_only_calendar_witness :
  _t_dim (accessor_of monthly_raster) = Some "T"%string ∧
  heap (world_of monthly_raster) !! _obj (accessor_of monthly_raster) = Some monthly_raster ∧
  ∃ w' l r',
    correct_calendar (accessor_of monthly_raster) false (world_of monthly_raster)
      = (Ok (Some l), w') ∧
    heap w' !! l = Some r' ∧
    extra_dims r' = extra_dims monthly_raster ∧
    planes r' = planes monthly_raster ∧
    default ∅ (coord_attrs r' !! "T"%string) !! "units"%string
      = Some "months since 1960-01-01"%string ∧
    heap w' !! 0%nat = Some monthly_raster.
Proof.
  split; [reflexivity|]. split; [reflexivity|].
  destruct (correct_calendar_touches_only_calendar (world_of monthly_raster)
              (accessor_of monthly_raster) "T" monthly_raster false eq_refl eq_refl)
    as (w' & res & l & r' & Hrun & -> & Hl & _ & _ & Hextra & _ & _ & _ & Hplanes & _ & _
        & Hkeys & Hrest).
  exists w', l, r'. split; [exact Hrun|]. split; [exact Hl|]. split; [exact Hextra|].
  split; [exact Hplanes|].
  split.
  - rewrite (Hkeys "units"%string) by discriminate. reflexivity.
  - apply Hrest; [|reflexivity]. intros <-.
    revert Hrun. vm_compute. intros [= H _].
Defined.

Lemma correct_calendar_without_time_dimension_witness :
  heap (world_of wide_raster) !! 0%nat = Some wide_raster ∧
  ("t"%string ∉ dims wide_raster) ∧ ("T"%string ∉ dims wide_raster) ∧
  ("time"%string ∉ dims wide_raster) ∧
  ∃ self w',
    __init__ 0%nat (world_of wide_raster) = (Ok self, world_of wide_raster) ∧
    t_dim self (world_of wide_raster) = (Raise DimensionError, world_of wide_raster) ∧
    correct_calendar self false (world_of wide_raster) = (Raise DimensionError, w') ∧
    heap w' !! 0%nat = Some wide_raster ∧
    log w' = log (world_of wide_raster).
Proof.
  assert ("t"%string ∉ dims wide_raster) as H1 by by_compute.
  assert ("T"%string ∉ dims wide_raster) as H2 by by_compute.
  assert ("time"%string ∉ dims wide_raster) as H3 by by_compute.
  split; [reflexivity|]. split; [exact H1|]. split; [exact H2|]. split; [exact H3|].
  exact (correct_calendar_without_time_dimension (world_of wide_raster) 0%nat wide_raster
           false eq_refl H1 H2 H3).
Defined.

Lemma set_time_dim_unknown_dimension_witness :
  heap (world_of monthly_raster) !! _obj (accessor_of monthly_raster) = Some monthly_raster ∧
  ("F"%string ∉ dims monthly_raster) ∧
  ∃ w',
    set_time_dim (accessor_of monthly_raster) "F" true (world_of monthly_raster)
      = (Raise DimensionError, w') ∧
    heap w' !! _obj (accessor_of monthly_raster) = Some monthly_raster ∧
    log w' = log (world_of monthly_raster).
Proof.
  assert ("F"%string ∉ dims monthly_raster) as Hname by by_compute.
  split; [reflexivity|]. split; [exact Hname|].
  exact (set_time_dim_unknown_dimension (world_of monthly_raster)
           (accessor_of monthly_raster) monthly_raster "F" true eq_refl Hname).
Defined.

Lemma set_time_dim_declares_witness :
  heap (world_of wide_raster) !! _obj (accessor_of wide_raster) = Some wide_raster ∧
  _t_dim (accessor_of wide_raster) = None ∧
  ("lat"%string ∈ dims wide_raster) ∧
  ∃ w' aat,
    set_time_dim (accessor_of wide_raster) "lat" true (world_of wide_raster)
      = (Ok (aat, None), w') ∧
    t_dim aat w' = (Ok "lat"%string, w') ∧
    heap w' !! _obj aat = Some wide_raster.
Proof.
  assert ("lat"%string ∈ dims wide_raster) as Hname by by_compute.
  split; [reflexivity|]. split; [reflexivity|]. split; [exact Hname|].
  destruct (set_time_dim_declares (world_of wide_raster) (accessor_of wide_raster)
              wide_raster "lat" true eq_refl Hname)
    as (w' & aat & res & Hrun & Ht & Hobj & _ & _ & -> & _).
  exists w', aat. split; [exact Hrun|]. split; [exact Ht|exact Hobj].
Defined.

Lemma invert_coordinates_empty_axis_witness :
  heap (world_of empty_raster) !! _obj (accessor_of empty_raster) = Some empty_raster ∧
  lon empty_raster = [] ∧
  ∃ w',
    invert_coordinates (accessor_of empty_raster) true (world_of empty_raster)
      = (Raise IndexError, w') ∧
    heap w' !! _obj (accessor_of empty_raster) = Some empty_raster.
Proof.
  split; [reflexivity|]. split; [reflexivity|].
  exact (invert_coordinates_empty_axis (world_of empty_raster) (accessor_of empty_raster)
           empty_raster true eq_refl (or_introl eq_refl)).
Defined.

Lemma invert_coordinates_repeated_labels_witness :
  heap (world_of repeated_raster) !! _obj (accessor_of repeated_raster)
    = Some repeated_raster ∧
  lon_inverted repeated_raster = true ∧
  ¬ NoDup (lon repeated_raster) ∧
  ∃ w',
    invert_coordinates (accessor_of repeated_raster) false (world_of repeated_raster)
      = (Raise ValueError, w') ∧
    heap w' !! _obj (accessor_of repeated_raster) = Some repeated_raster.
Proof.
  assert (¬ NoDup (lon repeated_raster)) as Hdup.
  { intros Hnd. apply NoDup_cons in Hnd as [Hin _]. apply Hin. constructor. }
  assert (lon_inverted repeated_raster = true) as Hinv by reflexivity.
  split; [reflexivity|]. split; [exact Hinv|]. split; [exact Hdup|].
  apply (invert_coordinates_repeated_labels (world_of repeated_raster)
           (accessor_of repeated_raster) repeated_raster false eq_refl).
  - discriminate.
  - discriminate.
  - left. split; [exact Hinv|exact Hdup].
Defined.

Lemma change_longitude_range_into_minus180_180_witness :
  heap (world_of wide_raster) !! _obj (accessor_of wide_raster) = Some wide_raster ∧
  Exists (λ v, 180 < v) (lon wide_raster) ∧
  ∃ w1 r1,
    change_longitude_range (accessor_of wide_raster) true (world_of wide_raster)
      = (Ok None, w1) ∧
    heap w1 !! _obj (accessor_of wide_raster) = Some r1 ∧
    Sorted Z.le (lon r1) ∧
    Forall (λ v, -180 ≤ v < 180) (lon r1) ∧
    planes r1 = planes wide_raster.
Proof.
  assert (Exists (λ v, 180 < v) (lon wide_raster)) as Hgt.
  { apply Exists_exists. exists 199. split; [by_compute|lia]. }
  split; [reflexivity|]. split; [exact Hgt|].
  destruct (change_longitude_range_into_minus180_180 (world_of wide_raster)
              (accessor_of wide_raster) wide_raster true eq_refl Hgt)
    as (w1 & res & target & r1 & Hrun & (-> & ->) & Hl & _ & _ & Hsorted & Hrange & _
        & Hplanes).
  exists w1, r1. split; [exact Hrun|]. split; [exact Hl|].
  split; [exact Hsorted|]. split; [exact Hrange|exact Hplanes].
Defined.

Lemma change_longitude_range_into_0_360_witness :
  heap (world_of dateline_raster) !! _obj (accessor_of dateline_raster)
    = Some dateline_raster ∧
  Forall (λ v, -360 ≤ v ≤ 180) (lon dateline_raster) ∧
  Exists (λ v, v < 0) (lon dateline_raster) ∧
  ∃ w1 l1 r1,
    change_longitude_range (accessor_of dateline_raster) false (world_of dateline_raster)
      = (Ok (Some l1), w1) ∧
    heap w1 !! l1 = Some r1 ∧
    Sorted Z.le (lon r1) ∧
    Forall (λ v, 0 ≤ v < 360) (lon r1) ∧
    planes r1 = planes dateline_raster.
Proof.
  assert (Forall (λ v, -360 ≤ v ≤ 180) (lon dateline_raster)) as Hall
    by (repeat constructor; lia).
  assert (Exists (λ v, v < 0) (lon dateline_raster)) as Hneg
    by (apply Exists_cons_hd; lia).
  split; [reflexivity|]. split; [exact Hall|]. split; [exact Hneg|].
  destruct (change_longitude_range_into_0_360 (world_of dateline_raster)
              (accessor_of dateline_raster) dateline_raster false eq_refl Hall Hneg)
    as (w1 & res & l1 & r1 & Hrun & (-> & _ & _) & Hl & _ & Hsorted & Hrange & _ & Hplanes).
  exists w1, l1, r1. split; [exact Hrun|]. split; [exact Hl|].
  split; [exact Hsorted|]. split; [exact Hrange|exact Hplanes].
Defined.

Lemma change_longitude_range_one_sided_witness :
  heap (world_of west_raster) !! _obj (accessor_of west_raster) = Some west_raster ∧
  Sorted Z.le (lon west_raster) ∧
  Forall (λ v, 180 < v ≤ 360) (lon west_raster) ∧
  ∃ w1 l1 r1,
    change_longitude_range (accessor_of west_raster) false (world_of west_raster)
      = (Ok (Some l1), w1) ∧
    heap w1 !! l1 = Some r1 ∧
    lon r1 = [-160; -90; 0] ∧
    sel r1 0 10 (-90) = Some (Some 2).
Proof.
  assert (Sorted Z.le (lon west_raster)) as Hsorted
    by (repeat constructor; lia).
  assert (Forall (λ v, 180 < v ≤ 360) (lon west_raster)) as Hall
    by (repeat constructor; lia).
  split; [reflexivity|]. split; [exact Hsorted|]. split; [exact Hall|].
  destruct (change_longitude_range_one_sided (world_of west_raster)
              (accessor_of west_raster) west_raster eq_refl) as [Hhigh _].
  - discriminate.
  - exact Hsorted.
  - destruct (Hhigh Hall) as (w1 & l1 & r1 & Hrun & Hl & Hlon & Hsel).
    exists w1, l1, r1. split; [exact Hrun|]. split; [exact Hl|].
    split; [rewrite Hlon; reflexivity|].
    change (-90) with (270 - 360). rewrite Hsel. reflexivity.
Defined.

Lemma compute_raster_statistics_missing_crs_witness :
  heap (world_of no_crs_raster) !! _obj (accessor_of no_crs_raster) = Some no_crs_raster ∧
  crs no_crs_raster = None ∧
  ∃ w',
    compute_raster_statistics all_zero all_zero clip_flag no_other
      (accessor_of no_crs_raster) [("A"%string, true)] "name" None None false
      (world_of no_crs_raster)
      = (Raise MissingCRS, w') ∧
    log w' = log (world_of no_crs_raster) ∧
    heap w' !! _obj (accessor_of no_crs_raster) = Some no_crs_raster.
Proof.
  split; [reflexivity|]. split; [reflexivity|].
  exact (compute_raster_statistics_missing_crs all_zero all_zero clip_flag no_other
           (world_of no_crs_raster) (accessor_of no_crs_raster) no_crs_raster
           [("A"%string, true)] "name" None None false eq_refl eq_refl).
Defined.

Lemma compute_raster_statistics_empty_request_witness :
  heap (world_of wide_raster) !! _obj (accessor_of wide_raster) = Some wide_raster ∧
  crs wide_raster = Some "EPSG:4326"%string ∧
  Exists (λ f, overlaps clip_flag wide_raster [("A"%string, true)] false f = true)
         (unique ([("A"%string, true)].*1)) ∧
  ∃ w',
    compute_raster_statistics all_zero all_zero clip_flag no_other
      (accessor_of wide_raster) [("A"%string, true)] "name" (Some []) None false
      (world_of wide_raster)
      = (Raise IndexError, w').
Proof.
  assert (Exists (λ f, overlaps clip_flag wide_raster [("A"%string, true)] false f = true)
                 (unique ([("A"%string, true)].*1))) as Hsome
    by (apply Exists_cons_hd; reflexivity).
  split; [reflexivity|]. split; [reflexivity|]. split; [exact Hsome|].
  apply (compute_raster_statistics_empty_request all_zero all_zero clip_flag no_other
           (world_of wide_raster) (accessor_of wide_raster) wide_raster "EPSG:4326"
           [("A"%string, true)] "name" None false eq_refl eq_refl eq_refl).
  - intros f Hf. apply list_elem_of_singleton in Hf as ->. exact I.
  - exact Hsome.
Defined.

Lemma compute_raster_statistics_cells_witness :
  let gdf := [("A"%string, true); ("B"%string, false)] in
  heap (world_of monthly_raster) !! _obj (accessor_of monthly_raster) = Some monthly_raster ∧
  supported_request (default default_stats (Some ["sum"; "count"]%string)) (Some [50]) ∧
  clash_free "name" (default default_stats (Some ["sum"; "count"]%string)) (Some [50])
             (extra_dims monthly_raster) ∧
  NoDup (extra_dims monthly_raster).*1 ∧
  ∃ w' blocks,
    compute_raster_statistics all_zero all_zero clip_flag no_other
      (accessor_of monthly_raster) gdf "name" (Some ["sum"; "count"]%string) (Some [50])
      false (world_of monthly_raster) = (pd_concat blocks, w') ∧
    Forall2 (other_cells_of clip_flag all_zero monthly_raster gdf "name" (Some [50]) false)
            (filter (λ f, overlaps clip_flag monthly_raster gdf false f = true)
                    (unique (gdf.*1)))
            blocks.
Proof.
  intros gdf.
  assert (supported_request (default default_stats (Some ["sum"; "count"]%string))
                            (Some [50])) as Hreq.
  { split; [|split].
    - repeat constructor; by_compute.
    - repeat constructor; simpl; lia.
    - left. discriminate. }
  assert (clash_free "name" (default default_stats (Some ["sum"; "count"]%string))
                     (Some [50]) (extra_dims monthly_raster)) as Hfree
    by (repeat (constructor; [by_compute|]); constructor).
  assert (NoDup (extra_dims monthly_raster).*1) as Hnd by by_compute.
  split; [reflexivity|]. split; [exact Hreq|]. split; [exact Hfree|]. split; [exact Hnd|].
  apply (compute_raster_statistics_cells all_zero all_zero clip_flag no_other
           (world_of monthly_raster) (accessor_of monthly_raster) monthly_raster
           "EPSG:4326" gdf "name" (Some ["sum"; "count"]%string) (Some [50]) false
           eq_refl eq_refl Hreq Hfree Hnd).
  intros f _. unfold clip_of, clip_flag. by case_bool_decide.
Defined.

Lemma compute_raster_statistics_name_clash_witness :
  let gdf := [("A"%string, true)] in
  heap (world_of clash_raster) !! _obj (accessor_of clash_raster) = Some clash_raster ∧
  supported_request (default default_stats None) None ∧
  ("sum" +:+ "_" +:+ "name" ∈ (extra_dims clash_raster).*1) ∧
  ∃ w',
    compute_raster_statistics all_zero all_zero clip_flag no_other
      (accessor_of clash_raster) gdf "name" None None false (world_of clash_raster)
      = (Raise ValueError, w').
Proof.
  intros gdf.
  assert (supported_request (default default_stats None) None) as Hreq.
  { split_and!.
    - repeat (constructor; [by_compute|]). constructor.
    - constructor.
    - by left. }
  assert ("sum" +:+ "_" +:+ "name" ∈ (extra_dims clash_raster).*1) as Hdim by by_compute.
  split; [reflexivity|]. split; [exact Hreq|]. split; [exact Hdim|].
  apply (compute_raster_statistics_name_clash all_zero all_zero clip_flag no_other
           (world_of clash_raster) (accessor_of clash_raster) clash_raster
           "EPSG:4326" gdf "name" None None false "sum" eq_refl eq_refl Hreq).
  - by_compute.
  - exact Hdim.
  - intros f _. unfold clip_of, clip_flag. by case_bool_decide.
  - apply Exists_cons_hd. reflexivity.
Defined.


Lemma ensemble_needs_control_label_witness :
  Forecast.number (Forecast.cf unlabelled_file) = Forecast.Scalar None ∧
  Forecast.has_data_vars (Forecast.cf unlabelled_file) = true ∧
  Forecast.has_data_vars (Forecast.pf unlabelled_file) = true ∧
  Forecast._read_in_ensemble_and_perturbed_datasets unlabelled_file = Raise ValueError.
Proof.
  split; [reflexivity|]. split; [reflexivity|]. split; [reflexivity|].
  apply (ensemble_needs_control_label unlabelled_file).
  right. split; [reflexivity|]. split; reflexivity.
Defined.

Lemma ensemble_placement_witness :
  ∃ ds,
    Forecast._read_in_ensemble_and_perturbed_datasets late_control_file = Ok ds ∧
    ∃ index,
      Forecast.number ds = Forecast.Dim (Some index) ∧
      monotonic index = true ∧
      index = [1; 2; 5] ∧
      Forecast.realizations ds = [200; 300; 100].
Proof.
  assert (∃ ds, Forecast._read_in_ensemble_and_perturbed_datasets late_control_file = Ok ds)
    as [ds Hrun] by (eexists; vm_compute; reflexivity).
  exists ds. split; [exact Hrun|].
  destruct (ensemble_placement late_control_file ds Hrun)
    as [(Hempty & _)|[(_ & Hempty & _)|(_ & _ & c & labels & index & Hcf & Hpf & _ & Hidx & Hmono & Hplace)]].
  - discriminate Hempty.
  - discriminate Hempty.
  - injection Hcf as <-. injection Hpf as <-.
    exists index. split; [exact Hidx|]. split; [exact Hmono|].
    destruct Hplace as [[_ [[-> _]|[-> Hreal]]]|[Hhead _]].
    + discriminate Hmono.
    + split; [reflexivity|exact Hreal].
    + discriminate Hhead.
Defined.

Lemma ensemble_control_label_inside_range_witness :
  Forecast.number (Forecast.cf inner_control_file) = Forecast.Scalar (Some 2) ∧
  Forecast.number (Forecast.pf inner_control_file) = Forecast.Dim (Some [1; 3]) ∧
  Forecast._read_in_ensemble_and_perturbed_datasets inner_control_file = Raise ValueError.
Proof.
  split; [reflexivity|]. split; [reflexivity|].
  apply (ensemble_control_label_inside_range inner_control_file 2 [1; 3] 1 3
           eq_refl eq_refl).
  - by_compute.
  - by_compute.
  - lia.
  - lia.
Defined.

Lemma ensemble_attrs_drop_conflicts_witness :
  ∃ ds,
    Forecast._read_in_ensemble_and_perturbed_datasets attributed_file = Ok ds ∧
    Forecast.attrs ds !! "institution"%string = Some "ECMWF"%string ∧
    Forecast.attrs ds !! "history"%string = None.
Proof.
  assert (∃ ds, Forecast._read_in_ensemble_and_perturbed_datasets attributed_file = Ok ds)
    as [ds Hrun] by (eexists; vm_compute; reflexivity).
  exists ds. split; [exact Hrun|].
  pose proof (ensemble_attrs_drop_conflicts attributed_file ds 0 [1; 2] Hrun
                eq_refl eq_refl) as Hattrs.
  assert (head [1; 2] ≠ Some 0) as Hhead by discriminate.
  specialize (Hattrs Hhead). split.
  - apply Hattrs. split; [left; reflexivity|].
    split; intros y Hy; vm_compute in Hy; congruence.
  - destruct (Forecast.attrs ds !! "history"%string) as [x|] eqn:Hx; [|reflexivity].
    apply Hattrs in Hx as (_ & Hcf & Hpf).
    pose proof (Hcf "read cf"%string eq_refl) as H1.
    pose proof (Hpf "read pf"%string eq_refl) as H2.
    congruence.
Defined.

Lemma ensemble_with_empty_dataset_witness :
  Forecast.number (Forecast.cf no_control_file) = Forecast.Scalar None ∧
  Forecast.realizations (Forecast.cf no_control_file) = [] ∧
  Forecast.has_data_vars (Forecast.pf no_control_file) = true ∧
  ∃ ds,
    Forecast._read_in_ensemble_and_perturbed_datasets no_control_file = Ok ds ∧
    Forecast.number ds = Forecast.Dim (Some [1; 2]) ∧
    Forecast.realizations ds = [200; 300].
Proof.
  split; [reflexivity|]. split; [reflexivity|]. split; [reflexivity|].
  destruct (ensemble_with_empty_dataset no_control_file) as [Hcontrol _].
  destruct (Hcontrol eq_refl eq_refl eq_refl) as (ds & Hrun & Hnum & Hreal & _).
  exists ds. split; [exact Hrun|]. split; [exact Hnum|exact Hreal].
Defined.
